(** * owtf.cli: argument resolution and framework bootstrap

    A shallow embedding of [src/owtf/cli.py]: the argument processing
    function [process_options], its helper [get_plugins_from_arg] and the
    wrapper [main], together with the Python string primitives they use
    ([str.split], [str.strip], [str.format], [int]).

    Python values are modelled as they occur in the file: strings as
    [string], read as sequences of Unicode code points below 256 (text
    with other code points is outside this development), lists of strings
    as [list string], the [profiles] dict and the file system as finite
    maps ([gmap]), dynamically typed option values as [pyval].  Side
    effects (printing, logging, process exit, exceptions) are threaded
    through a small state-and-exception monad.  The namespace the parser
    returns is modelled twice: as a value that each step passes on, and as
    an object in a store that [process_options] rewrites in place; the two
    are proved to agree. *)

From Stdlib Require Import ZArith Ascii String List Lia.
From stdpp Require Import base strings gmap list.

Local Open Scope Z_scope.
Local Open Scope stdpp_scope.

(* ===================================================================== *)
(** ** Python string primitives *)
(* ===================================================================== *)

Module Py.

(** [s.split(sep)] for a non-empty separator [sep] (Python raises
    [ValueError] on an empty one; every call of the file passes a
    non-empty literal).  [split_go sep skip s] scans [s] from the left;
    [skip] counts the characters of a separator occurrence that is still
    being consumed.  It returns the field under construction and the
    fields after it. *)
Fixpoint split_go (sep : string) (skip : nat) (s : string)
  : string * list string :=
  match s with
  | EmptyString => (EmptyString, [])
  | String c s' =>
      match skip with
      | S k => split_go sep k s'
      | O =>
          if String.prefix sep s
          then let r := split_go sep (Nat.pred (String.length sep)) s' in
               (EmptyString, r.1 :: r.2)
          else let r := split_go sep 0 s' in
               (String c r.1, r.2)
      end
  end.

Definition split (sep s : string) : list string :=
  let r := split_go sep 0 s in r.1 :: r.2.

(** Characters.  A character of a Python 3 [str] is a Unicode code point;
    [ascii] holds the code points below 256, and the strings of this
    development are the strings over these code points.  The tables below
    are the Unicode tables of CPython restricted to that range.

    [str.isspace] for one character ([Py_UNICODE_ISSPACE]): TAB, LF, VT,
    FF, CR, the separators FS, GS, RS, US, the space, NEL (U+0085) and the
    no-break space (U+00A0). *)
Definition is_space (c : ascii) : bool :=
  let n := nat_of_ascii c in
  ((9 <=? n)%nat && (n <=? 13)%nat)
  || ((28 <=? n)%nat && (n <=? 32)%nat)
  || (n =? 133)%nat || (n =? 160)%nat.

Definition is_empty (s : string) : bool :=
  match s with EmptyString => true | String _ _ => false end.

Fixpoint lstrip_with (sp : ascii → bool) (s : string) : string :=
  match s with
  | EmptyString => EmptyString
  | String c s' => if sp c then lstrip_with sp s' else s
  end.

Fixpoint rstrip_with (sp : ascii → bool) (s : string) : string :=
  match s with
  | EmptyString => EmptyString
  | String c s' =>
      let r := rstrip_with sp s' in
      if sp c && is_empty r then EmptyString else String c r
  end.

Definition lstrip (s : string) : string := lstrip_with is_space s.
Definition rstrip (s : string) : string := rstrip_with is_space s.

(** [s.strip()] *)
Definition strip (s : string) : string := rstrip (lstrip s).

Definition digit_val (c : ascii) : option Z :=
  let n := nat_of_ascii c in
  if (48 <=? n)%nat && (n <=? 57)%nat then Some (Z.of_nat n - 48) else None.

(** The digit part of an integer literal: decimal digits, single
    underscores allowed between two digits. *)
Fixpoint int_digits (after_digit : bool) (acc : Z) (s : string) : option Z :=
  match s with
  | EmptyString => if after_digit then Some acc else None
  | String c s' =>
      match digit_val c with
      | Some d => int_digits true (10 * acc + d) s'
      | None =>
          if Ascii.eqb c "_" && after_digit
          then match s' with
               | EmptyString => None
               | String c' _ =>
                   match digit_val c' with
                   | Some _ => int_digits false acc s'
                   | None => None
                   end
               end
          else None
      end
  end.

(** The whitespace [int] skips around a literal.  [int] first maps every
    non-ASCII whitespace character to a space and then skips the characters
    of C's [isspace] ([Py_ISSPACE]): TAB, LF, VT, FF, CR and the space, so
    NEL and the no-break space are skipped and FS, GS, RS, US are not. *)
Definition is_int_space (c : ascii) : bool :=
  let n := nat_of_ascii c in
  ((9 <=? n)%nat && (n <=? 13)%nat)
  || (n =? 32)%nat || (n =? 133)%nat || (n =? 160)%nat.

Fixpoint count_digits (s : string) : Z :=
  match s with
  | EmptyString => 0
  | String c s' =>
      (match digit_val c with Some _ => 1 | None => 0 end) + count_digits s'
  end.

(** [sys.int_info.default_max_str_digits]: a literal with more digits is
    refused. *)
Definition max_str_digits : Z := 4300.

(** [int(s)] on a string, base 10: surrounding whitespace is dropped, one
    sign is allowed; [None] stands for [ValueError].  Below code point 256
    the decimal digits are the ASCII digits. *)
Definition int (s : string) : option Z :=
  let t := rstrip_with is_int_space (lstrip_with is_int_space s) in
  if max_str_digits <? count_digits t then None
  else match t with
       | String "-" u => Z.opp <$> int_digits false 0 u
       | String "+" u => int_digits false 0 u
       | u => int_digits false 0 u
       end.

(** [template.format(a0, a1, ...)], for the replacement fields the file uses:
    [{}] (automatic numbering), [{d}] with one decimal digit, and the
    escapes [{{] and [}}].  Text outside braces is copied unchanged; in
    particular a [%s] is ordinary text for [format].  [None] stands for
    the exception Python raises (a missing argument, a lone brace) and
    for field syntax outside this fragment. *)
Fixpoint format_go (args : list string) (auto : nat) (s : string)
  : option string :=
  match s with
  | EmptyString => Some EmptyString
  | String "{" (String "{" s') => String "{"%char <$> format_go args auto s'
  | String "}" (String "}" s') => String "}"%char <$> format_go args auto s'
  | String "{" (String "}" s') =>
      match args !! auto with
      | Some a => String.app a <$> format_go args (S auto) s'
      | None => None
      end
  | String "{" (String d (String "}" s')) =>
      match digit_val d with
      | Some i =>
          match args !! Z.to_nat i with
          | Some a => String.app a <$> format_go args auto s'
          | None => None
          end
      | None => None
      end
  | String "{" _ => None
  | String "}" _ => None
  | String c s' => String c <$> format_go args auto s'
  end.

Definition format (template : string) (args : list string) : option string :=
  format_go args 0 template.

End Py.

(* ===================================================================== *)
(** ** Values, exceptions and the effect monad *)
(* ===================================================================== *)

(** Dynamically typed values held by the attributes of the parsed-argument
    namespace: an option is [None] or a string when it leaves the parser and
    several are overwritten with lists by [process_options]. *)
Inductive pyval : Type :=
| VNone
| VBool (b : bool)
| VInt (z : Z)
| VStr (s : string)
| VList (l : list string).

Global Instance pyval_eq_dec : EqDecision pyval.
Proof. solve_decision. Defined.

(** Python truthiness, as tested by [if arg.X:]. *)
Definition truthy (v : pyval) : bool :=
  match v with
  | VNone => false
  | VBool b => b
  | VInt z => negb (z =? 0)
  | VStr s => negb (Py.is_empty s)
  | VList l => match l with [] => false | _ => true end
  end.

(** Exceptions that reach or leave the file.  [UsageError msg] is the
    process exit performed by [usage(msg)]. *)
Inductive exn : Type :=
| UsageError (msg : string)
| SystemExit (code : Z)
| KeyboardInterrupt (msg : string)
| DatabaseNotRunning
| IndexError
| AttributeError
| ValueError
| OtherError (name : string).

Global Instance exn_eq_dec : EqDecision exn.
Proof. solve_decision. Defined.

(** [except SystemExit] also catches the exit raised inside [usage]. *)
Definition is_SystemExit (e : exn) : bool :=
  match e with UsageError _ | SystemExit _ => true | _ => false end.

Definition is_KeyboardInterrupt (e : exn) : bool :=
  match e with KeyboardInterrupt _ => true | _ => false end.

Inductive res (A : Type) : Type :=
| Ret (a : A)
| Raise (e : exn).
Global Arguments Ret {A} a.
Global Arguments Raise {A} e.

(** The returned dict of [process_options], one field per key. *)
Module Cfg.
Record t : Type := mk {
  list_plugins : pyval;
  Force_Overwrite : pyval;
  Interactive : bool;
  Simulation : pyval;
  Scope : list string;
  argv : list string;
  PluginType : pyval;
  OnlyPlugins : pyval;
  ExceptPlugins : pyval;
  InboundProxy : pyval;
  OutboundProxy : pyval;
  OutboundProxyAuth : pyval;
  Profiles : gmap string string;
  PluginGroup : pyval;
  RPort : pyval;
  PortWaves : pyval;
  ProxyMode : pyval;
  TOR_mode : pyval;
  nowebui : pyval;
  Args : pyval
}.
End Cfg.

(** The initialisation calls of [main], in source order. *)
Inductive init_call : Type :=
| ensure_default_session
| load_framework_config_file (root_dir : string) (pid : Z)
| load_config_db_file
| load_resources_from_file
| load_mappings_from_file
| load_test_groups (kind : string)
| load_plugins.

(** Observable actions, in the order they happen. *)
Inductive event : Type :=
| EvBanner
| EvUsage (msg : string)
| EvLogInfo (msg : string)
| EvLogWarn (msg : string)
| EvTorHelp
| EvInit (c : init_call)
| EvCoreStart (args : Cfg.t)
| EvCoreFinish
| EvCleanTempStorage (pid : Z).

(** Mutable process state: what has been emitted so far, and the
    module-level [config_handler.cli_options]. *)
Record proc : Type := mkProc {
  trace : list event;
  cli_options : option Cfg.t
}.

Definition proc0 : proc := {| trace := []; cli_options := None |}.

Definition M (A : Type) : Type := proc → proc * res A.

Definition ret {A} (a : A) : M A := λ p, (p, Ret a).
Definition raise {A} (e : exn) : M A := λ p, (p, Raise e).
Definition bind {A B} (m : M A) (k : A → M B) : M B :=
  λ p, match m p with
       | (p', Ret a) => k a p'
       | (p', Raise e) => (p', Raise e)
       end.

Global Instance M_ret : MRet M := @ret.
Global Instance M_bind : MBind M := λ A B k m, bind m k.

Definition emit (e : event) : M unit :=
  λ p, ({| trace := trace p ++ [e]; cli_options := cli_options p |}, Ret tt).

Definition set_cli_options (c : Cfg.t) : M unit :=
  λ p, ({| trace := trace p; cli_options := Some c |}, Ret tt).

Definition get_trace : M (list event) := λ p, (p, Ret (trace p)).

Definition lift {A} (r : res A) : M A := λ p, (p, r).

(** [try: m except <handles>: h] *)
Definition try_except {A} (m : M A) (handles : exn → bool) (h : exn → M A) : M A :=
  λ p, match m p with
       | (p', Raise e) => if handles e then h e p' else (p', Raise e)
       | r => r
       end.

(** [try: m finally: f]: [f] runs on every way out of [m]; an exception
    raised by [f] replaces the pending outcome. *)
Definition try_finally {A} (m : M A) (f : M unit) : M A :=
  λ p, match m p with
       | (p', r) =>
           match f p' with
           | (p'', Ret _) => (p'', r)
           | (p'', Raise e) => (p'', Raise e)
           end
       end.

(** Modelled from the spec: [owtf.lib.cli_options.usage] is not part of the
    file; usage errors print a usage message and terminate the process with
    a non-zero-equivalent status. *)
Definition usage {A} (msg : string) : M A :=
  emit (EvUsage msg);; raise (UsageError msg).

(** [sys.exit(code)] and the builtin [exit(code)]. *)
Definition sys_exit {A} (code : Z) : M A := raise (SystemExit code).

Definition logging_info (msg : string) : M unit := emit (EvLogInfo msg).
Definition logging_warn (msg : string) : M unit := emit (EvLogWarn msg).

(** Attribute access that needs a string ([v.split(...)] on a truthy
    value): any other kind of value has no [split]. *)
Definition as_str (v : pyval) : M string :=
  match v with
  | VStr s => ret s
  | _ => raise AttributeError
  end.

(** [l[0]] and [l[-1]] on a list, [s[0]] on a string. *)
Definition list_first {A} (l : list A) : res A :=
  match l with
  | x :: _ => Ret x
  | [] => Raise IndexError
  end.

Definition list_last {A} (l : list A) : res A :=
  match last l with
  | Some x => Ret x
  | None => Raise IndexError
  end.

Definition str_first (s : string) : res ascii :=
  match s with
  | String c _ => Ret c
  | EmptyString => Raise IndexError
  end.

Definition list_index {A} (l : list A) (i : nat) : res A :=
  match l !! i with
  | Some x => Ret x
  | None => Raise IndexError
  end.

(** [l.pop()]: the list object after the call and the element removed. *)
Definition list_pop {A} (l : list A) : res (list A * A) :=
  match last l with
  | Some x => Ret (removelast l, x)
  | None => Raise IndexError
  end.

(** A [for] loop that threads the variables it updates. *)
Fixpoint for_each {A S} (body : S → A → M S) (l : list A) (s : S) : M S :=
  match l with
  | [] => ret s
  | x :: l' => s' ← body s x; for_each body l' s'
  end.

(* ===================================================================== *)
(** ** The parsed-argument namespace and the environment *)
(* ===================================================================== *)

(** The namespace returned by [parse_options]; [process_options] assigns to
    several of its attributes.  [Targets] is the positional list
    ([None] when absent). *)
Record Namespace : Type := mkNamespace {
  list_plugins : pyval;
  ForceOverwrite : pyval;
  Interactive : pyval;
  Simulation : pyval;
  Targets : option (list string);
  PluginType : pyval;
  OnlyPlugins : pyval;
  ExceptPlugins : pyval;
  InboundProxy : pyval;
  OutboundProxy : pyval;
  OutboundProxyAuth : pyval;
  CustomProfile : pyval;
  PluginGroup : pyval;
  RPort : pyval;
  PortWaves : pyval;
  ProxyMode : pyval;
  TOR_mode : pyval;
  nowebui : pyval
}.

Definition set_PluginType (v : pyval) (a : Namespace) : Namespace :=
  mkNamespace (list_plugins a) (ForceOverwrite a) (Interactive a) (Simulation a)
    (Targets a) v (OnlyPlugins a) (ExceptPlugins a) (InboundProxy a)
    (OutboundProxy a) (OutboundProxyAuth a) (CustomProfile a) (PluginGroup a)
    (RPort a) (PortWaves a) (ProxyMode a) (TOR_mode a) (nowebui a).

Definition set_OnlyPlugins (v : pyval) (a : Namespace) : Namespace :=
  mkNamespace (list_plugins a) (ForceOverwrite a) (Interactive a) (Simulation a)
    (Targets a) (PluginType a) v (ExceptPlugins a) (InboundProxy a)
    (OutboundProxy a) (OutboundProxyAuth a) (CustomProfile a) (PluginGroup a)
    (RPort a) (PortWaves a) (ProxyMode a) (TOR_mode a) (nowebui a).

Definition set_ExceptPlugins (v : pyval) (a : Namespace) : Namespace :=
  mkNamespace (list_plugins a) (ForceOverwrite a) (Interactive a) (Simulation a)
    (Targets a) (PluginType a) (OnlyPlugins a) v (InboundProxy a)
    (OutboundProxy a) (OutboundProxyAuth a) (CustomProfile a) (PluginGroup a)
    (RPort a) (PortWaves a) (ProxyMode a) (TOR_mode a) (nowebui a).

Definition set_InboundProxy (v : pyval) (a : Namespace) : Namespace :=
  mkNamespace (list_plugins a) (ForceOverwrite a) (Interactive a) (Simulation a)
    (Targets a) (PluginType a) (OnlyPlugins a) (ExceptPlugins a) v
    (OutboundProxy a) (OutboundProxyAuth a) (CustomProfile a) (PluginGroup a)
    (RPort a) (PortWaves a) (ProxyMode a) (TOR_mode a) (nowebui a).

Definition set_OutboundProxy (v : pyval) (a : Namespace) : Namespace :=
  mkNamespace (list_plugins a) (ForceOverwrite a) (Interactive a) (Simulation a)
    (Targets a) (PluginType a) (OnlyPlugins a) (ExceptPlugins a) (InboundProxy a)
    v (OutboundProxyAuth a) (CustomProfile a) (PluginGroup a)
    (RPort a) (PortWaves a) (ProxyMode a) (TOR_mode a) (nowebui a).

Definition set_TOR_mode (v : pyval) (a : Namespace) : Namespace :=
  mkNamespace (list_plugins a) (ForceOverwrite a) (Interactive a) (Simulation a)
    (Targets a) (PluginType a) (OnlyPlugins a) (ExceptPlugins a) (InboundProxy a)
    (OutboundProxy a) (OutboundProxyAuth a) (CustomProfile a) (PluginGroup a)
    (RPort a) (PortWaves a) (ProxyMode a) v (nowebui a).

(** What [open(path).read()] does on a regular file: it returns the text
    of the file (decoded, with the line ends translated as text mode does),
    or it raises, for instance [PermissionError] when the file may not be
    read and [UnicodeDecodeError] when its bytes are not text in the default
    encoding.  [name] is the name of the exception class. *)
Inductive file_read : Type :=
  | ReadText (content : string)
  | ReadError (name : string).

(** What the file reads from its surroundings and the collaborators it
    imports.  [fs_files] holds the regular files, each with what reading it
    does; [fs_other] holds the paths that exist without being regular
    files.
    The outcome of a collaborator called by [main] may depend on everything
    that happened before the call. *)
Record world : Type := mkWorld {
  fs_files : gmap string file_read;
  fs_other : gset string;
  sys_argv : list string;
  os_getpid : Z;
  root_dir_of : string → string;
  version : string;
  release : string;
  str_of_list : list string → string;
  get_all_plugin_groups : list string;
  get_all_plugin_types : list string;
  parse_options : list string → list string → list string → res Namespace;
  get_groups_for_plugins : list string → list string;
  get_types_for_plugin_group : pyval → list string;
  init_outcome : init_call → list event → res unit;
  core_start : Cfg.t → list event → res bool;
  core_finish : list event → res unit;
  clean_temp_storage_dirs : Z → list event → res unit
}.

(** [os.path.isfile] and [os.path.exists]. *)
Definition os_path_isfile (w : world) (path : string) : bool :=
  bool_decide (is_Some (fs_files w !! path)).

Definition os_path_exists (w : world) (path : string) : bool :=
  os_path_isfile w path || bool_decide (path ∈ fs_other w).

(** [open(path).read()]; a path that is not a regular file cannot be read
    as one. *)
Definition open_read (w : world) (path : string) : M string :=
  match fs_files w !! path with
  | Some (ReadText content) => ret content
  | Some (ReadError name) => raise (OtherError name)
  | None => raise (OtherError "OSError")
  end.

Definition lift_format (o : option string) : M string :=
  match o with
  | Some s => ret s
  | None => raise ValueError
  end.

(* ===================================================================== *)
(** ** [get_plugins_from_arg] and [process_options] *)
(* ===================================================================== *)

Section Resolver.

Variable w : world.

(** Lines 47-59.  The message is built with [format] on a template that
    holds a [%s], as the source does. *)
Definition get_plugins_from_arg (arg : string)
  : M (list string * list string) :=
  let plugins := Py.split "," arg in
  let plugin_groups := get_groups_for_plugins w plugins in
  (if (1 <? length plugin_groups)%nat
   then msg ← lift_format
                (Py.format "The plugins specified belong to several plugin groups: '%s'"
                   [str_of_list w plugin_groups]);
        usage msg
   else ret tt);;
  ret (plugins, plugin_groups).

(** Lines 70-76. *)
Definition parse_step (user_args : list string) : M Namespace :=
  try_except
    (let valid_groups := get_all_plugin_groups w in
     let valid_types := get_all_plugin_types w ++ ["all"; "quiet"] in
     lift (parse_options w user_args valid_groups valid_types))
    is_KeyboardInterrupt
    (λ e, let msg := match e with KeyboardInterrupt m => m | _ => "" end in
          usage (A := unit) ("Invalid OWTF option(s) " +:+ msg);;
          sys_exit 0).

(** Lines 82-89: one round of the loop over the profile specs.  The test
    [len(chunks) != 2 or not os.path.exists(chunks[1])] short-circuits, so
    [chunks[1]] is read on two-element lists only. *)
Definition profile_round (profiles : gmap string string) (profile : string)
  : M (gmap string string) :=
  let chunks := Py.split ":" profile in
  match chunks with
  | [name; path] =>
      if negb (os_path_exists w path)
      then usage "Invalid Profile"
      else ret (<[name := path]> profiles)
  | _ => usage "Invalid Profile"
  end.

Definition profiles_step (arg : Namespace) : M (gmap string string) :=
  if truthy (CustomProfile arg)
  then s ← as_str (CustomProfile arg);
       for_each profile_round (Py.split "," s) ∅
  else ret ∅.

Definition str_of_group (v : pyval) : string :=
  match v with VStr s => s | _ => "" end.

(** Lines 91-98. *)
Definition only_plugins_step (arg : Namespace) (plugin_group : pyval)
  : M (Namespace * pyval) :=
  if truthy (OnlyPlugins arg)
  then s ← as_str (OnlyPlugins arg);
       r ← get_plugins_from_arg s;
       let arg := set_OnlyPlugins (VList r.1) arg in
       let plugin_groups := r.2 in
       plugin_group ← try_except
                        (g ← lift (list_first plugin_groups); ret (VStr g))
                        (λ e, bool_decide (e = IndexError))
                        (λ _, usage "Please use either OWASP/OWTF codes or Plugin names");
       logging_info ("Defaulting Plugin Group to '" +:+ str_of_group plugin_group
                     +:+ "' based on list of plugins supplied");;
       ret (arg, plugin_group)
  else ret (arg, plugin_group).

(** Lines 100-101. *)
Definition except_plugins_step (arg : Namespace) : M Namespace :=
  if truthy (ExceptPlugins arg)
  then s ← as_str (ExceptPlugins arg);
       r ← get_plugins_from_arg s;
       ret (set_ExceptPlugins (VList r.1) arg)
  else ret arg.

(** Lines 78-101: everything before the proxy options. *)
Definition options_prelude (user_args : list string)
  : M (Namespace * pyval * gmap string string) :=
  arg ← parse_step user_args;
  let plugin_group := PluginGroup arg in
  profiles ← profiles_step arg;
  r ← only_plugins_step arg plugin_group;
  arg ← except_plugins_step r.1;
  ret (arg, r.2, profiles).

(** Lines 103-124. *)
Definition tor_step (arg : Namespace) : M Namespace :=
  if truthy (TOR_mode arg)
  then s ← as_str (TOR_mode arg);
       let tor := Py.split ":" s in
       let arg := set_TOR_mode (VList tor) arg in
       tor0 ← lift (list_index tor 0);
       (if bool_decide (tor0 = "help")
        then emit EvTorHelp;; sys_exit 0
        else ret tt);;
       if (length tor =? 1)%nat
       then (if bool_decide (tor0 ≠ "help")
             then usage "Invalid argument for TOR-mode"
             else ret arg)
       else if negb (length tor =? 5)%nat
       then usage "Invalid argument for TOR-mode"
       else
         tor1 ← lift (list_index tor 1);
         let outbound_proxy_ip :=
           if bool_decide (tor0 = "") then "127.0.0.1" else tor0 in
         let outbound_proxy_port :=
           if bool_decide (tor1 = "") then "9050" else tor1 in
         out ← lift_format
                 (Py.format "socks://%s:%s" [outbound_proxy_ip; outbound_proxy_port]);
         ret (set_OutboundProxy (VStr out) arg)
  else ret arg.

(** Lines 135-141 and 146-152: the field-count test followed by
    [int(fields[-1])] under [except ValueError]. *)
Definition check_port (fields : list string) (counts : list nat)
    (bad_count bad_port : string) : M unit :=
  if negb (bool_decide (length fields ∈ counts))
  then usage bad_count
  else p ← lift (list_last fields);
       match Py.int p with
       | Some _ => ret tt
       | None => usage bad_port
       end.

(** Lines 126-141.  In [arg.OutboundProxy + arg.OutboundProxy.pop().split(':')]
    both operands name the same list object and the left one is read by
    [+] after [pop()] has shortened it: the sum is the list without its
    last element followed by the fields of that element. *)
Definition outbound_step (arg : Namespace) : M Namespace :=
  if truthy (OutboundProxy arg)
  then s ← as_str (OutboundProxy arg);
       let parts := Py.split "://" s in
       fields ←
         (if (length parts =? 2)%nat
          then r ← lift (list_pop parts);
               let fields := r.1 ++ Py.split ":" r.2 in
               f0 ← lift (list_index fields 0);
               (if negb (bool_decide (f0 ∈ ["socks"; "http"]))
                then usage "Invalid argument for Outbound Proxy"
                else ret tt);;
               ret fields
          else r ← lift (list_pop parts);
               ret (Py.split ":" r.2));
       let arg := set_OutboundProxy (VList fields) arg in
       check_port fields [2; 3]%nat
         "Invalid argument for Outbound Proxy"
         "Invalid port provided for Outbound Proxy";;
       ret arg
  else ret arg.

(** Lines 143-152. *)
Definition inbound_step (arg : Namespace) : M Namespace :=
  if truthy (InboundProxy arg)
  then s ← as_str (InboundProxy arg);
       let fields := Py.split ":" s in
       let arg := set_InboundProxy (VList fields) arg in
       check_port fields [1; 2]%nat
         "Invalid argument for Inbound Proxy"
         "Invalid port for Inbound Proxy";;
       ret arg
  else ret arg.

(** Lines 154-158. *)
Definition plugin_type_step (plugin_group : pyval) (arg : Namespace) : Namespace :=
  let plugin_types_for_group := get_types_for_plugin_group w plugin_group in
  if bool_decide (PluginType arg = VStr "all")
  then set_PluginType (VList plugin_types_for_group) arg
  else if bool_decide (PluginType arg = VStr "quiet")
  then set_PluginType (VList ["passive"; "semi_passive"]) arg
  else arg.

Definition newline : string := String "010" "".

(** Lines 169-173: the loop over the lines of the scope file. *)
Definition scope_line (new_scope : list string) (target : string) : list string :=
  let CleanTarget := Py.strip target in
  if Py.is_empty CleanTarget
  then new_scope
  else new_scope ++ [CleanTarget].

(** Lines 160-176. *)
Definition scope_step (plugin_group : pyval) (arg : Namespace) : M (list string) :=
  let scope := match Targets arg with
               | Some (t :: ts) => t :: ts
               | _ => []
               end in
  let num_targets := length scope in
  if bool_decide (plugin_group ≠ VStr "auxiliary") && (num_targets =? 0)%nat
     && negb (truthy (list_plugins arg))
  then ret scope
  else if (num_targets =? 1)%nat
  then scope0 ← lift (list_index scope 0);
       if os_path_isfile w scope0
       then logging_info "Scope file: trying to load targets from it ..";;
            content ← open_read w scope0;
            let new_scope := fold_left scope_line (Py.split newline content) [] in
            (if (length new_scope =? 0)%nat
             then usage "Please provide a scope file (1 target x line)"
             else ret tt);;
            ret new_scope
       else ret scope
  else ret scope.

(** Lines 178-180. *)
Definition check_target (_ : unit) (target : string) : M unit :=
  c ← lift (str_first target);
  if bool_decide (c = "-"%char)
  then usage ("Invalid Target: " +:+ target)
  else ret tt.

Definition check_targets (scope : list string) : M unit :=
  for_each check_target scope tt.

(** Lines 182-210. *)
Definition assemble (arg : Namespace) (plugin_group : pyval)
    (profiles : gmap string string) (scope : list string) : Cfg.t :=
  let args := VStr "" in
  let aux := bool_decide (plugin_group = VStr "auxiliary") in
  let args := if aux then VList scope else args in
  let scope := if aux then ["auxiliary"] else scope in
  {| Cfg.list_plugins := list_plugins arg;
     Cfg.Force_Overwrite := ForceOverwrite arg;
     Cfg.Interactive := bool_decide (Interactive arg = VStr "yes");
     Cfg.Simulation := Simulation arg;
     Cfg.Scope := scope;
     Cfg.argv := sys_argv w;
     Cfg.PluginType := PluginType arg;
     Cfg.OnlyPlugins := OnlyPlugins arg;
     Cfg.ExceptPlugins := ExceptPlugins arg;
     Cfg.InboundProxy := InboundProxy arg;
     Cfg.OutboundProxy := OutboundProxy arg;
     Cfg.OutboundProxyAuth := OutboundProxyAuth arg;
     Cfg.Profiles := profiles;
     Cfg.PluginGroup := plugin_group;
     Cfg.RPort := RPort arg;
     Cfg.PortWaves := PortWaves arg;
     Cfg.ProxyMode := ProxyMode arg;
     Cfg.TOR_mode := TOR_mode arg;
     Cfg.nowebui := nowebui arg;
     Cfg.Args := args |}.

(** Lines 103-210: from the TOR option to the returned dict. *)
Definition options_resolve (st : Namespace * pyval * gmap string string)
  : M Cfg.t :=
  let arg := st.1.1 in
  let plugin_group := st.1.2 in
  let profiles := st.2 in
  arg ← tor_step arg;
  arg ← outbound_step arg;
  arg ← inbound_step arg;
  let arg := plugin_type_step plugin_group arg in
  scope ← scope_step plugin_group arg;
  check_targets scope;;
  ret (assemble arg plugin_group profiles scope).

(** Lines 62-210. *)
Definition process_options (user_args : list string) : M Cfg.t :=
  st ← options_prelude user_args;
  options_resolve st.

(* =================================================================== *)
(** ** [main] *)
(* =================================================================== *)

Definition call_init (c : init_call) : M unit :=
  emit (EvInit c);;
  tr ← get_trace;
  lift (init_outcome w c tr).

Definition call_core_start (args : Cfg.t) : M bool :=
  emit (EvCoreStart args);;
  tr ← get_trace;
  lift (core_start w args tr).

Definition call_core_finish : M unit :=
  emit EvCoreFinish;;
  tr ← get_trace;
  lift (core_finish w tr).

Definition call_clean_temp_storage_dirs (pid : Z) : M unit :=
  emit (EvCleanTempStorage pid);;
  tr ← get_trace;
  lift (clean_temp_storage_dirs w pid tr).

(** Lines 226-238. *)
Definition initialise (root_dir : string) (owtf_pid : Z) : M unit :=
  try_except
    (call_init ensure_default_session;;
     call_init (load_framework_config_file root_dir owtf_pid);;
     call_init load_config_db_file;;
     call_init load_resources_from_file;;
     call_init load_mappings_from_file;;
     call_init (load_test_groups "web");;
     call_init (load_test_groups "net");;
     call_init (load_test_groups "aux");;
     call_init load_plugins)
    (λ e, bool_decide (e = DatabaseNotRunning))
    (λ _, sys_exit (-1)).

(** Lines 245-258: the engine run, its two handlers and the [finally]
    clause. *)
Definition run_engine (args : Cfg.t) (owtf_pid : Z) : M unit :=
  try_finally
    (try_except
       (call_core_start args ≫= λ started : bool,
        if started then call_core_finish else ret tt)
       (λ e, is_KeyboardInterrupt e || is_SystemExit e)
       (λ e, if is_KeyboardInterrupt e
             then logging_warn "OWTF was aborted by the user:";;
                  logging_info "Please check report/plugin output files for partial results";;
                  call_core_finish
             else ret tt))
    (call_clean_temp_storage_dirs owtf_pid).

(** Lines 221-244: everything [main] does before the engine is started. *)
Definition bootstrap (args : list string) : M (Cfg.t * Z) :=
  emit EvBanner;;
  args0 ← lift (list_index args 0);
  let root_dir := root_dir_of w args0 in
  let owtf_pid := os_getpid w in
  initialise root_dir owtf_pid;;
  args ← process_options (tail args);
  set_cli_options args;;
  logging_warn ("OWTF Version: " +:+ version w +:+ ", Release: " +:+ release w +:+ " ");;
  ret (args, owtf_pid).

(** Lines 213-258. *)
Definition main (args : list string) : M unit :=
  r ← bootstrap args;
  run_engine r.1 r.2.

End Resolver.

(* ===================================================================== *)
(** ** The namespace as an object *)
(* ===================================================================== *)

(** [process_options] builds no new namespace: it assigns to the
    attributes of the object the parser returned.  In this part the
    namespace lives in a store of objects, a variable [arg] holds the
    identity of an object, and every assignment [arg.X = v] is made in
    place, at the point where the file makes it.  Lists are values: the
    file changes a list in place only where the list has just been created
    ([pop] on the result of [split]), and there the attribute that holds the
    list is updated with it. *)
Record ostate : Type := mkOstate {
  objs : gmap nat Namespace;
  next_ref : nat;
  proc_of : proc
}.

Definition MO (A : Type) : Type := ostate → ostate * res A.

Definition retO {A} (a : A) : MO A := λ h, (h, Ret a).
Definition bindO {A B} (m : MO A) (k : A → MO B) : MO B :=
  λ h, match m h with
       | (h', Ret a) => k a h'
       | (h', Raise e) => (h', Raise e)
       end.

Global Instance MO_ret : MRet MO := @retO.
Global Instance MO_bind : MBind MO := λ A B k m, bindO m k.

Definition with_proc (h : ostate) (p : proc) : ostate :=
  {| objs := objs h; next_ref := next_ref h; proc_of := p |}.

Definition with_object (h : ostate) (arg : nat) (a : Namespace) : ostate :=
  {| objs := <[arg := a]> (objs h); next_ref := next_ref h; proc_of := proc_of h |}.

(** A computation that does not touch the objects. *)
Definition run {A} (m : M A) : MO A :=
  λ h, let r := m (proc_of h) in (with_proc h r.1, r.2).

(** A new object with the attributes [a]; its identity is returned. *)
Definition new_object (a : Namespace) : MO nat :=
  λ h, ({| objs := <[next_ref h := a]> (objs h);
           next_ref := S (next_ref h);
           proc_of := proc_of h |}, Ret (next_ref h)).

(** [arg.X] and [arg.X = v].  An identity that names no object does not
    occur in a run; the store has to answer something for it. *)
Definition getattr {A} (arg : nat) (attr : Namespace → A) : MO A :=
  λ h, match objs h !! arg with
       | Some a => (h, Ret (attr a))
       | None => (h, Raise (OtherError "ReferenceError"))
       end.

Definition setattr (arg : nat) (assign : Namespace → Namespace) : MO unit :=
  λ h, match objs h !! arg with
       | Some a => (with_object h arg (assign a), Ret tt)
       | None => (h, Raise (OtherError "ReferenceError"))
       end.

Module InPlace.
Section Resolver.

Variable w : world.

(** Lines 70-76.  Modelled from the spec: [parse_options] is not part of
    the file; the parsed arguments are produced anew at every call of the
    parser, as a namespace object of their own. *)
Definition parse_step (user_args : list string) : MO nat :=
  a ← run (parse_step w user_args);
  new_object a.

(** Lines 82-89. *)
Definition profiles_step (arg : nat) : MO (gmap string string) :=
  custom ← getattr arg CustomProfile;
  if truthy custom
  then s ← run (as_str custom);
       run (for_each (profile_round w) (Py.split "," s) ∅)
  else mret ∅.

(** Lines 91-98. *)
Definition only_plugins_step (arg : nat) (plugin_group : pyval) : MO pyval :=
  only ← getattr arg OnlyPlugins;
  if truthy only
  then s ← run (as_str only);
       r ← run (get_plugins_from_arg w s);
       setattr arg (set_OnlyPlugins (VList r.1));;
       let plugin_groups := r.2 in
       plugin_group ← run (try_except
                             (g ← lift (list_first plugin_groups); ret (VStr g))
                             (λ e, bool_decide (e = IndexError))
                             (λ _, usage "Please use either OWASP/OWTF codes or Plugin names"));
       run (logging_info ("Defaulting Plugin Group to '" +:+ str_of_group plugin_group
                          +:+ "' based on list of plugins supplied"));;
       mret plugin_group
  else mret plugin_group.

(** Lines 100-101. *)
Definition except_plugins_step (arg : nat) : MO unit :=
  except ← getattr arg ExceptPlugins;
  if truthy except
  then s ← run (as_str except);
       r ← run (get_plugins_from_arg w s);
       setattr arg (set_ExceptPlugins (VList r.1))
  else mret tt.

(** Lines 103-124. *)
Definition tor_step (arg : nat) : MO unit :=
  tor_mode ← getattr arg TOR_mode;
  if truthy tor_mode
  then s ← run (as_str tor_mode);
       let tor := Py.split ":" s in
       setattr arg (set_TOR_mode (VList tor));;
       tor0 ← run (lift (list_index tor 0));
       (if bool_decide (tor0 = "help")
        then run (emit EvTorHelp;; sys_exit 0)
        else mret tt);;
       if (length tor =? 1)%nat
       then (if bool_decide (tor0 ≠ "help")
             then run (usage "Invalid argument for TOR-mode")
             else mret tt)
       else if negb (length tor =? 5)%nat
       then run (usage "Invalid argument for TOR-mode")
       else
         tor1 ← run (lift (list_index tor 1));
         let outbound_proxy_ip :=
           if bool_decide (tor0 = "") then "127.0.0.1" else tor0 in
         let outbound_proxy_port :=
           if bool_decide (tor1 = "") then "9050" else tor1 in
         out ← run (lift_format
                      (Py.format "socks://%s:%s" [outbound_proxy_ip; outbound_proxy_port]));
         setattr arg (set_OutboundProxy (VStr out))
  else mret tt.

(** Lines 126-141.  [pop()] shortens the list the attribute holds before
    the attribute is assigned again. *)
Definition outbound_step (arg : nat) : MO unit :=
  outbound ← getattr arg OutboundProxy;
  if truthy outbound
  then s ← run (as_str outbound);
       let parts := Py.split "://" s in
       setattr arg (set_OutboundProxy (VList parts));;
       fields ←
         (if (length parts =? 2)%nat
          then r ← run (lift (list_pop parts));
               setattr arg (set_OutboundProxy (VList r.1));;
               let fields := r.1 ++ Py.split ":" r.2 in
               setattr arg (set_OutboundProxy (VList fields));;
               f0 ← run (lift (list_index fields 0));
               (if negb (bool_decide (f0 ∈ ["socks"; "http"]))
                then run (usage "Invalid argument for Outbound Proxy")
                else mret tt);;
               mret fields
          else r ← run (lift (list_pop parts));
               setattr arg (set_OutboundProxy (VList r.1));;
               let fields := Py.split ":" r.2 in
               setattr arg (set_OutboundProxy (VList fields));;
               mret fields);
       run (check_port fields [2; 3]%nat
              "Invalid argument for Outbound Proxy"
              "Invalid port provided for Outbound Proxy")
  else mret tt.

(** Lines 143-152. *)
Definition inbound_step (arg : nat) : MO unit :=
  inbound ← getattr arg InboundProxy;
  if truthy inbound
  then s ← run (as_str inbound);
       let fields := Py.split ":" s in
       setattr arg (set_InboundProxy (VList fields));;
       run (check_port fields [1; 2]%nat
              "Invalid argument for Inbound Proxy"
              "Invalid port for Inbound Proxy")
  else mret tt.

(** Lines 154-158. *)
Definition plugin_type_step (plugin_group : pyval) (arg : nat) : MO unit :=
  let plugin_types_for_group := get_types_for_plugin_group w plugin_group in
  plugin_type ← getattr arg PluginType;
  if bool_decide (plugin_type = VStr "all")
  then setattr arg (set_PluginType (VList plugin_types_for_group))
  else if bool_decide (plugin_type = VStr "quiet")
  then setattr arg (set_PluginType (VList ["passive"; "semi_passive"]))
  else mret tt.

(** Lines 160-176: the attributes are read, none is assigned. *)
Definition scope_step (plugin_group : pyval) (arg : nat) : MO (list string) :=
  a ← getattr arg id;
  run (scope_step w plugin_group a).

(** Lines 182-210: the dict is built from the attributes as they are
    now. *)
Definition assemble (arg : nat) (plugin_group : pyval)
    (profiles : gmap string string) (scope : list string) : MO Cfg.t :=
  a ← getattr arg id;
  mret (assemble w a plugin_group profiles scope).

(** Lines 78-210: what follows the parser, on the namespace object
    [arg]. *)
Definition resolve (arg : nat) : MO Cfg.t :=
  plugin_group ← getattr arg PluginGroup;
  profiles ← profiles_step arg;
  plugin_group ← only_plugins_step arg plugin_group;
  except_plugins_step arg;;
  tor_step arg;;
  outbound_step arg;;
  inbound_step arg;;
  plugin_type_step plugin_group arg;;
  scope ← scope_step plugin_group arg;
  run (check_targets scope);;
  assemble arg plugin_group profiles scope.

(** Lines 62-210. *)
Definition process_options (user_args : list string) : MO Cfg.t :=
  arg ← parse_step user_args;
  resolve arg.

End Resolver.
End InPlace.


(* ===================================================================== *)
(** ** Notions used by the statements *)
(* ===================================================================== *)

(** The process state after some more events. *)
Definition add_events (p : proc) (evs : list event) : proc :=
  {| trace := trace p ++ evs; cli_options := cli_options p |}.

(** [m] only emits events satisfying [P]. *)
Definition emits {A} (P : event → Prop) (m : M A) : Prop :=
  ∀ p, ∃ evs, Forall P evs ∧ trace (m p).1 = trace p ++ evs.

(** The outcome of [m] does not depend on the process state it starts in. *)
Definition oblivious {A} (m : M A) : Prop :=
  ∀ p p', (m p).2 = (m p').2.

Definition is_cleanup (e : event) : Prop :=
  match e with EvCleanTempStorage _ => True | _ => False end.

(** The last thing that happened in a run of [main]. *)
Definition final_action (w : world) (args : list string) (p : proc) : option event :=
  last (trace (main w args p).1).

Fixpoint string_forall (P : ascii → bool) (s : string) : bool :=
  match s with
  | EmptyString => true
  | String c s' => P c && string_forall P s'
  end.

Definition no_colon (s : string) : bool :=
  string_forall (λ c, negb (Ascii.eqb c ":")) s.

(** A colon-free string that does not start with two slashes: placed after
    a colon it cannot complete the separator [://]. *)
Definition colon_field (s : string) : bool :=
  no_colon s && negb (String.prefix "//" s).

(** Characters an accepted [int] literal can contain. *)
Definition int_char (c : ascii) : bool :=
  Py.is_int_space c || Ascii.eqb c "+" || Ascii.eqb c "-" || Ascii.eqb c "_"
  || bool_decide (is_Some (Py.digit_val c)).

(** The targets the loop of lines 169-173 collects from a text, in closed
    form. *)
Definition scope_of_file (content : string) : list string :=
  filter (λ l, l ≠ "") (Py.strip <$> Py.split newline content).

(** The scope-file rule in the words of the specification: the text split
    on newline, each line trimmed of whitespace, blank lines dropped.  These
    notions do not use the string primitives of the code.

    [join sep parts] is [parts] written one after the other with [sep]
    between two neighbours. *)
Fixpoint join (sep : string) (parts : list string) : string :=
  match parts with
  | [] => ""
  | x :: rest =>
      match rest with
      | [] => x
      | _ :: _ => x +:+ sep +:+ join sep rest
      end
  end.

Definition newline_free (s : string) : bool :=
  string_forall (λ c, negb (Ascii.eqb c "010")) s.

(** [lines] are the lines of [text]: joined by newlines they give [text],
    and no line contains a newline. *)
Definition lines_of (text : string) (lines : list string) : Prop :=
  lines ≠ [] ∧ text = join newline lines ∧ Forall (λ l, newline_free l = true) lines.

(** The whitespace characters below code point 256, by code point: TAB,
    LF, VT, FF, CR, FS, GS, RS, US, space, NEL, no-break space. *)
Definition whitespace : list nat :=
  [9; 10; 11; 12; 13; 28; 29; 30; 31; 32; 133; 160]%nat.

Definition white (c : ascii) : bool :=
  bool_decide (nat_of_ascii c ∈ whitespace).

Definition first_char (s : string) : option ascii :=
  match s with
  | EmptyString => None
  | String c _ => Some c
  end.

Fixpoint last_char (s : string) : option ascii :=
  match s with
  | EmptyString => None
  | String c s' =>
      match s' with
      | EmptyString => Some c
      | String _ _ => last_char s'
      end
  end.

(** [t] is [line] trimmed: [line] is [t] between two stretches of
    whitespace, and [t] neither begins nor ends with whitespace.  A blank
    line trims to the empty string. *)
Definition trimmed_of (line t : string) : Prop :=
  ∃ l r, line = l +:+ t +:+ r
         ∧ string_forall white l = true ∧ string_forall white r = true
         ∧ (∀ c, first_char t = Some c → white c = false)
         ∧ (∀ c, last_char t = Some c → white c = false).

(** A target that passes the leading-dash test. *)
Definition plain_target (t : string) : Prop :=
  match t with
  | String c _ => c ≠ "-"%char
  | EmptyString => False
  end.

(** The positional arguments and the listing flag are never assigned. *)
Definition same_positional (a a' : Namespace) : Prop :=
  Targets a' = Targets a ∧ list_plugins a' = list_plugins a.

(** An option value as the parser leaves it: [None] or a string. *)
Definition str_or_none (v : pyval) : Prop :=
  match v with VNone | VStr _ => True | _ => False end.

(** [m] returns or ends in a usage error, nothing else. *)
Definition usage_only {A} (m : M A) : Prop :=
  ∀ p, match (m p).2 with
       | Ret _ | Raise (UsageError _) => True
       | Raise _ => False
       end.

(** Sample environments. *)
Definition ns0 : Namespace :=
  mkNamespace VNone VNone VNone VNone None (VStr "all") VNone VNone VNone VNone
    VNone VNone (VStr "web") VNone VNone VNone VNone VNone.

Definition set_Targets (l : list string) (a : Namespace) : Namespace :=
  mkNamespace (list_plugins a) (ForceOverwrite a) (Interactive a) (Simulation a)
    (Some l) (PluginType a) (OnlyPlugins a) (ExceptPlugins a) (InboundProxy a)
    (OutboundProxy a) (OutboundProxyAuth a) (CustomProfile a) (PluginGroup a)
    (RPort a) (PortWaves a) (ProxyMode a) (TOR_mode a) (nowebui a).

Definition set_PluginGroup (v : pyval) (a : Namespace) : Namespace :=
  mkNamespace (list_plugins a) (ForceOverwrite a) (Interactive a) (Simulation a)
    (Targets a) (PluginType a) (OnlyPlugins a) (ExceptPlugins a) (InboundProxy a)
    (OutboundProxy a) (OutboundProxyAuth a) (CustomProfile a) v
    (RPort a) (PortWaves a) (ProxyMode a) (TOR_mode a) (nowebui a).

Definition scope_txt : string :=
  "a.com" +:+ newline +:+ newline +:+ "b.com" +:+ newline.

(** A scope file with whitespace of several kinds: spaces and a TAB around
    the first target, a line holding only a no-break space, a target
    between a file separator and a NEL, a space inside the last target. *)
Definition targets_txt : string :=
  "  a.com " +:+ String "009" newline
  +:+ String "160" newline
  +:+ String "028" "b.com" +:+ String "133" newline
  +:+ " c d ".

(** A world where the parser yields [a], the plugin [x] belongs to the net
    group and every other plugin to the web group, the files are
    [scope.txt], [targets.txt] and [locked.txt], which may not be read, and
    every collaborator of [main] succeeds. *)
Definition sample_world (a : Namespace) : world :=
  mkWorld {[ "scope.txt" := ReadText scope_txt;
             "targets.txt" := ReadText targets_txt;
             "locked.txt" := ReadError "PermissionError" ]} ∅ ["owtf.py"] 42 (λ _, "/opt/owtf")
    "2.4" "W" (λ _, "[...]") ["web"; "net"; "auxiliary"] ["active"; "passive"]
    (λ _ _ _, Ret a)
    (λ l, (if bool_decide ("x" ∈ l) then ["net"] else [])
          ++ (if bool_decide (l ⊆ ["x"]) then [] else ["web"]))
    (λ _, ["active"; "passive"])
    (λ _ _, Ret tt) (λ _ _, Ret true) (λ _, Ret tt) (λ _ _, Ret tt).

(** The same world with the database down. *)
Definition db_down_world (a : Namespace) : world :=
  let w := sample_world a in
  mkWorld (fs_files w) (fs_other w) (sys_argv w) (os_getpid w) (root_dir_of w)
    (version w) (release w) (str_of_list w) (get_all_plugin_groups w)
    (get_all_plugin_types w) (parse_options w) (get_groups_for_plugins w)
    (get_types_for_plugin_group w)
    (λ c _, match c with
            | ensure_default_session => Raise DatabaseNotRunning
            | _ => Ret tt
            end)
    (core_start w) (core_finish w) (clean_temp_storage_dirs w).

(* ===================================================================== *)
(** ** Further notions: fields, flags, outcomes *)
(* ===================================================================== *)

(** Number of occurrences of a character in a string. *)
Fixpoint count_char (c : ascii) (s : string) : nat :=
  match s with
  | EmptyString => O
  | String a s' => (if Ascii.eqb a c then 1 else 0)%nat + count_char c s'
  end.

(** A literal of [n] digits. *)
Fixpoint nines (n : nat) : string :=
  match n with
  | O => ""
  | S n' => String "9" (nines n')
  end.

(** The events of a complete initialisation, lines 227-236. *)
Definition init_sequence (root_dir : string) (pid : Z) : list event :=
  [EvInit ensure_default_session;
   EvInit (load_framework_config_file root_dir pid);
   EvInit load_config_db_file;
   EvInit load_resources_from_file;
   EvInit load_mappings_from_file;
   EvInit (load_test_groups "web");
   EvInit (load_test_groups "net");
   EvInit (load_test_groups "aux");
   EvInit load_plugins].

(** The calls of a complete initialisation, lines 227-236. *)
Definition init_calls (root_dir : string) (pid : Z) : list init_call :=
  [ensure_default_session;
   load_framework_config_file root_dir pid;
   load_config_db_file;
   load_resources_from_file;
   load_mappings_from_file;
   load_test_groups "web";
   load_test_groups "net";
   load_test_groups "aux";
   load_plugins].

(** Initialisation calls written one statement after the other. *)
Fixpoint run_calls (w : world) (cs : list init_call) : M unit :=
  match cs with
  | [] => ret tt
  | c :: cs' =>
      match cs' with
      | [] => call_init w c
      | _ :: _ => call_init w c;; run_calls w cs'
      end
  end.

(** The attributes [process_options] reads but never assigns. *)
Definition keeps_flags (a a' : Namespace) : Prop :=
  list_plugins a' = list_plugins a
  ∧ ForceOverwrite a' = ForceOverwrite a
  ∧ Interactive a' = Interactive a
  ∧ Simulation a' = Simulation a
  ∧ Targets a' = Targets a
  ∧ OutboundProxyAuth a' = OutboundProxyAuth a
  ∧ CustomProfile a' = CustomProfile a
  ∧ PluginGroup a' = PluginGroup a
  ∧ RPort a' = RPort a
  ∧ PortWaves a' = PortWaves a
  ∧ ProxyMode a' = ProxyMode a
  ∧ nowebui a' = nowebui a.

Definition keeps_plugin_lists (a a' : Namespace) : Prop :=
  OnlyPlugins a' = OnlyPlugins a ∧ ExceptPlugins a' = ExceptPlugins a.

Definition keeps_proxies (a a' : Namespace) : Prop :=
  TOR_mode a' = TOR_mode a
  ∧ OutboundProxy a' = OutboundProxy a
  ∧ InboundProxy a' = InboundProxy a.

(** The six options [process_options] splits are [None] or strings when
    they leave the parser. *)
Definition well_typed_options (a : Namespace) : Prop :=
  str_or_none (CustomProfile a)
  ∧ str_or_none (OnlyPlugins a)
  ∧ str_or_none (ExceptPlugins a)
  ∧ str_or_none (TOR_mode a)
  ∧ str_or_none (OutboundProxy a)
  ∧ str_or_none (InboundProxy a).

Definition set_CustomProfile (v : pyval) (a : Namespace) : Namespace :=
  mkNamespace (list_plugins a) (ForceOverwrite a) (Interactive a) (Simulation a)
    (Targets a) (PluginType a) (OnlyPlugins a) (ExceptPlugins a) (InboundProxy a)
    (OutboundProxy a) (OutboundProxyAuth a) v (PluginGroup a)
    (RPort a) (PortWaves a) (ProxyMode a) (TOR_mode a) (nowebui a).

(** [m] only appends events: it leaves [cli_options] alone. *)
Definition appends {A} (m : M A) : Prop :=
  ∀ p, ∃ evs, (m p).1 = add_events p evs.

(** Events of the engine run, lines 245-258. *)
Definition is_engine_event (e : event) : Prop :=
  match e with
  | EvCoreStart _ | EvCoreFinish | EvCleanTempStorage _ => True
  | _ => False
  end.

(** A profile spec the loop of lines 84-89 accepts. *)
Definition valid_profile (w : world) (profile : string) : Prop :=
  ∃ name path, Py.split ":" profile = [name; path] ∧ os_path_exists w path = true.

(** The object [arg] holds the attributes [a], and the rest of the state
    is [p]. *)
Definition holds (h : ostate) (arg : nat) (a : Namespace) (p : proc) : Prop :=
  objs h !! arg = Some a ∧ proc_of h = p.

(** An outcome [x] on objects agrees with an outcome [y] on values: the
    same exception, or the same result [val b] with the object [arg]
    holding the attributes [obj b]; the same output in both cases. *)
Definition agrees {A B} (x : ostate * res A) (arg : nat) (y : proc * res B)
    (obj : B → Namespace) (val : B → A) : Prop :=
  match y with
  | (p', Ret b) => x.2 = Ret (val b) ∧ holds x.1 arg (obj b) p'
  | (p', Raise e) => x.2 = Raise e ∧ proc_of x.1 = p'
  end.

(** The same result and the same output, on objects and on values. *)
Definition same_outcome {A} (x : ostate * res A) (y : proc * res A) : Prop :=
  x.2 = y.2 ∧ proc_of x.1 = y.1.

(** Lines 78-210 on a namespace value. *)
Definition resolve_value (w : world) (a : Namespace) : M Cfg.t :=
  profiles ← profiles_step w a;
  r ← only_plugins_step w a (PluginGroup a);
  arg ← except_plugins_step w r.1;
  options_resolve w (arg, r.2, profiles).

(** Two environments in which [process_options] reads the same: the same
    files, the same parser, the same plugin registry. *)
Definition same_environment (w w' : world) : Prop :=
  fs_files w = fs_files w' ∧ fs_other w = fs_other w'
  ∧ sys_argv w = sys_argv w' ∧ str_of_list w = str_of_list w'
  ∧ get_all_plugin_groups w = get_all_plugin_groups w'
  ∧ get_all_plugin_types w = get_all_plugin_types w'
  ∧ parse_options w = parse_options w'
  ∧ get_groups_for_plugins w = get_groups_for_plugins w'
  ∧ get_types_for_plugin_group w = get_types_for_plugin_group w'.

(** An empty store in the initial state of the process. *)
Definition ostate0 : ostate := mkOstate ∅ 0 proc0.

(** A namespace with options that [process_options] rewrites: a plugin
    list, an inbound proxy and the plugin type [all]. *)
Definition rewritten_ns : Namespace :=
  set_InboundProxy (VStr "8008") (set_OnlyPlugins (VStr "x") ns0).

(** [w] with the file [path] replaced. *)
Definition with_file (w : world) (path : string) (f : file_read) : world :=
  mkWorld (<[path := f]> (fs_files w)) (fs_other w) (sys_argv w) (os_getpid w)
    (root_dir_of w) (version w) (release w) (str_of_list w)
    (get_all_plugin_groups w) (get_all_plugin_types w) (parse_options w)
    (get_groups_for_plugins w) (get_types_for_plugin_group w) (init_outcome w)
    (core_start w) (core_finish w) (clean_temp_storage_dirs w).

(** [w] with a different parser result. *)
Definition with_parsed (w : world) (r : res Namespace) : world :=
  mkWorld (fs_files w) (fs_other w) (sys_argv w) (os_getpid w) (root_dir_of w)
    (version w) (release w) (str_of_list w) (get_all_plugin_groups w)
    (get_all_plugin_types w) (λ _ _ _, r) (get_groups_for_plugins w)
    (get_types_for_plugin_group w) (init_outcome w)
    (core_start w) (core_finish w) (clean_temp_storage_dirs w).

(** [w] with fixed outcomes of the engine and of the cleanup. *)
Definition with_engine (w : world) (start : res bool) (finish clean : res unit)
  : world :=
  mkWorld (fs_files w) (fs_other w) (sys_argv w) (os_getpid w) (root_dir_of w)
    (version w) (release w) (str_of_list w) (get_all_plugin_groups w)
    (get_all_plugin_types w) (parse_options w) (get_groups_for_plugins w)
    (get_types_for_plugin_group w) (init_outcome w)
    (λ _ _, start) (λ _, finish) (λ _ _, clean).

(** [w] where the initialisation call [bad] raises [e]. *)
Definition with_failing_init (w : world) (bad : init_call) (e : exn) : world :=
  mkWorld (fs_files w) (fs_other w) (sys_argv w) (os_getpid w) (root_dir_of w)
    (version w) (release w) (str_of_list w) (get_all_plugin_groups w)
    (get_all_plugin_types w) (parse_options w) (get_groups_for_plugins w)
    (get_types_for_plugin_group w)
    (λ c _, match c, bad with
            | load_mappings_from_file, load_mappings_from_file => Raise e
            | load_plugins, load_plugins => Raise e
            | _, _ => Ret tt
            end)
    (core_start w) (core_finish w) (clean_temp_storage_dirs w).

(* ===================================================================== *)
(** ** The primitives on sample inputs *)
(* ===================================================================== *)

Example split_colon : Py.split ":" "::u:p:f" = [""; ""; "u"; "p"; "f"].
Proof. reflexivity. Qed.
Example split_scheme : Py.split "://" "socks://127.0.0.1:9050" = ["socks"; "127.0.0.1:9050"].
Proof. reflexivity. Qed.
Example split_none : Py.split "://" "10.0.0.1:8080" = ["10.0.0.1:8080"].
Proof. reflexivity. Qed.
Example split_lines : Py.split (String "010" "") (String "a" (String "010" (String "010" "b")))
                      = ["a"; ""; "b"].
Proof. reflexivity. Qed.
Example strip_both : Py.strip "  a b  " = "a b".
Proof. reflexivity. Qed.
Example int_ok : Py.int " 9050 " = Some 9050.
Proof. reflexivity. Qed.
Example int_neg : Py.int "-1_0" = Some (-10).
Proof. reflexivity. Qed.
Example int_bad : Py.int "abc" = None.
Proof. reflexivity. Qed.
Example int_nbsp_padded : Py.int (String "160" "9050" +:+ String "133" "") = Some 9050.
Proof. reflexivity. Qed.
Example int_separator_padded : Py.int (String "028" "5") = None.
Proof. reflexivity. Qed.
Example int_sign_then_space : Py.int "+ 5" = None.
Proof. reflexivity. Qed.
Example int_most_digits : Py.int (nines 4300) = Some (10 ^ 4300 - 1).
Proof. vm_compute. reflexivity. Qed.
Example int_too_many_digits : Py.int (nines 4301) = None.
Proof. vm_compute. reflexivity. Qed.
Example strip_separators :
  Py.strip (String "160" (String "028" "a b") +:+ String "133" (String "031" "")) = "a b".
Proof. reflexivity. Qed.
Example strip_blank : Py.strip (String "160" (String "009" " ")) = "".
Proof. reflexivity. Qed.
Example format_braces : Py.format "{0}, Release: {1} " ["2.4"; "Wicked"] = Some "2.4, Release: Wicked ".
Proof. reflexivity. Qed.
Example format_percent : Py.format "socks://%s:%s" ["127.0.0.1"; "9050"] = Some "socks://%s:%s".
Proof. reflexivity. Qed.
Example scope_of_file_sample : scope_of_file scope_txt = ["a.com"; "b.com"].
Proof. reflexivity. Qed.

(* ===================================================================== *)
(** ** Laws of the effect monad *)
(* ===================================================================== *)

Lemma bind_Ret {A B} (m : M A) (k : A → M B) p p' a :
  m p = (p', Ret a) → (m ≫= k) p = k a p'.
Proof. intros H. unfold mbind, M_bind, bind. by rewrite H. Qed.

Lemma bind_Raise {A B} (m : M A) (k : A → M B) p p' e :
  m p = (p', Raise e) → (m ≫= k) p = (p', Raise e).
Proof. intros H. unfold mbind, M_bind, bind. by rewrite H. Qed.

Lemma bind_inv_Ret {A B} (m : M A) (k : A → M B) p p' b :
  (m ≫= k) p = (p', Ret b) →
  ∃ a p1, m p = (p1, Ret a) ∧ k a p1 = (p', Ret b).
Proof.
  unfold mbind, M_bind, bind. destruct (m p) as [p1 [a|e]]; [eauto|done].
Qed.

Lemma add_events_nil p : add_events p [] = p.
Proof. destruct p. unfold add_events. simpl. by rewrite app_nil_r. Qed.

Lemma add_events_app p evs evs' :
  add_events (add_events p evs) evs' = add_events p (evs ++ evs').
Proof. unfold add_events. simpl. by rewrite app_assoc. Qed.

Lemma usage_run {A} msg p :
  usage (A := A) msg p = (add_events p [EvUsage msg], Raise (UsageError msg)).
Proof. reflexivity. Qed.

Section Emits.

Context (P : event → Prop).

Lemma emits_ret {A} (a : A) : emits P (ret a).
Proof. intros p. exists []. by rewrite app_nil_r. Qed.

Lemma emits_mret {A} (a : A) : emits P (mret a : M A).
Proof. apply emits_ret. Qed.

Lemma emits_raise {A} e : emits P (raise (A := A) e).
Proof. intros p. exists []. by rewrite app_nil_r. Qed.

Lemma emits_lift {A} (r : res A) : emits P (lift r).
Proof. intros p. exists []. by rewrite app_nil_r. Qed.

Lemma emits_get_trace : emits P get_trace.
Proof. intros p. exists []. by rewrite app_nil_r. Qed.

Lemma emits_set_cli_options c : emits P (set_cli_options c).
Proof. intros p. exists []. by rewrite app_nil_r. Qed.

Lemma emits_emit e : P e → emits P (emit e).
Proof. intros He p. exists [e]. split; [by constructor|done]. Qed.

Lemma emits_bind {A B} (m : M A) (k : A → M B) :
  emits P m → (∀ a, emits P (k a)) → emits P (m ≫= k).
Proof.
  intros Hm Hk p. destruct (Hm p) as (evs & Hevs & Htr).
  unfold mbind, M_bind, bind. destruct (m p) as [p1 [a|e]]; simpl in *.
  - destruct (Hk a p1) as (evs' & Hevs' & Htr').
    exists (evs ++ evs'). split; [by apply Forall_app|].
    by rewrite Htr', Htr, app_assoc.
  - by exists evs.
Qed.

Lemma emits_try_except {A} (m : M A) handles h :
  emits P m → (∀ e, emits P (h e)) → emits P (try_except m handles h).
Proof.
  intros Hm Hh p. destruct (Hm p) as (evs & Hevs & Htr).
  unfold try_except. destruct (m p) as [p1 [a|e]]; simpl in *.
  - by exists evs.
  - destruct (handles e); [|by exists evs].
    destruct (Hh e p1) as (evs' & Hevs' & Htr').
    exists (evs ++ evs'). split; [by apply Forall_app|].
    by rewrite Htr', Htr, app_assoc.
Qed.

Lemma emits_for_each {A S} (body : S → A → M S) l s :
  (∀ s x, emits P (body s x)) → emits P (for_each body l s).
Proof.
  intros Hb. revert s. induction l as [|x l IH]; intros s; simpl.
  - apply emits_ret.
  - apply emits_bind; [apply Hb | intros s'; apply IH].
Qed.

Lemma emits_usage {A} msg : P (EvUsage msg) → emits P (usage (A := A) msg).
Proof.
  intros H. unfold usage. apply emits_bind; [by apply emits_emit|].
  intros _. apply emits_raise.
Qed.

Lemma emits_as_str v : emits P (as_str v).
Proof. destruct v; simpl; first [apply emits_ret | apply emits_raise]. Qed.

Lemma emits_open_read w path : emits P (open_read w path).
Proof.
  unfold open_read. destruct (_ !! _) as [[]|];
    first [apply emits_ret | apply emits_raise].
Qed.

Lemma emits_lift_format o : emits P (lift_format o).
Proof. destruct o; simpl; first [apply emits_ret | apply emits_raise]. Qed.

End Emits.

Ltac emits_step :=
  match goal with
  | |- emits _ (_ ≫= _) => apply emits_bind; [|intros ?]
  | |- emits _ (ret _) => apply emits_ret
  | |- emits _ (mret _) => apply emits_mret
  | |- emits _ (raise _) => apply emits_raise
  | |- emits _ (sys_exit _) => apply emits_raise
  | |- emits _ (lift _) => apply emits_lift
  | |- emits _ get_trace => apply emits_get_trace
  | |- emits _ (set_cli_options _) => apply emits_set_cli_options
  | |- emits _ (usage _) => apply emits_usage
  | |- emits _ (as_str _) => apply emits_as_str
  | |- emits _ (open_read _ _) => apply emits_open_read
  | |- emits _ (lift_format _) => apply emits_lift_format
  | |- emits _ (emit _) => apply emits_emit
  | |- emits _ (logging_info _) => apply emits_emit
  | |- emits _ (logging_warn _) => apply emits_emit
  | |- emits _ (try_except _ _ _) => apply emits_try_except; [|intros ?]
  | |- emits _ (for_each _ _ _) => apply emits_for_each; intros ? ?
  | |- emits _ (if ?b then _ else _) => destruct b
  | |- emits _ (match ?x with _ => _ end) => destruct x
  end.

Ltac solve_emits := cbv zeta; repeat (emits_step; cbv zeta); auto.

(** *** Events of the resolver *)

Section ResolverEvents.

Context (w : world) (P : event → Prop).
Hypothesis P_usage : ∀ msg, P (EvUsage msg).
Hypothesis P_info : ∀ msg, P (EvLogInfo msg).
Hypothesis P_tor : P EvTorHelp.

Lemma emits_get_plugins_from_arg s : emits P (get_plugins_from_arg w s).
Proof. unfold get_plugins_from_arg. solve_emits. Qed.

Lemma emits_options_prelude ua : emits P (options_prelude w ua).
Proof.
  unfold options_prelude, parse_step, profiles_step, only_plugins_step,
    except_plugins_step.
  solve_emits; try apply emits_get_plugins_from_arg.
  unfold profile_round. solve_emits.
Qed.

Lemma emits_check_port fields counts m1 m2 : emits P (check_port fields counts m1 m2).
Proof. unfold check_port. solve_emits. Qed.

Lemma emits_options_resolve st : emits P (options_resolve w st).
Proof.
  unfold options_resolve, tor_step, outbound_step, inbound_step, scope_step,
    check_targets.
  solve_emits; try apply emits_check_port.
  unfold check_target. solve_emits.
Qed.

Lemma emits_process_options ua : emits P (process_options w ua).
Proof.
  unfold process_options. apply emits_bind.
  - apply emits_options_prelude.
  - intros st. apply emits_options_resolve.
Qed.

End ResolverEvents.

(* ===================================================================== *)
(** ** The bootstrapper: temporary-storage cleanup *)
(* ===================================================================== *)

Lemma emits_bootstrap w args : emits (λ e, ¬ is_cleanup e) (bootstrap w args).
Proof.
  unfold bootstrap. apply emits_bind; [apply emits_emit; tauto|intros _].
  apply emits_bind; [apply emits_lift|intros args0].
  apply emits_bind.
  { unfold initialise, call_init. solve_emits; simpl; tauto. }
  intros _. apply emits_bind.
  { apply emits_process_options; simpl; tauto. }
  intros cfg. solve_emits; simpl; tauto.
Qed.

Lemma call_clean_state w pid p :
  (call_clean_temp_storage_dirs w pid p).1 = add_events p [EvCleanTempStorage pid].
Proof.
  unfold call_clean_temp_storage_dirs, mbind, M_bind, bind, emit, get_trace, lift.
  reflexivity.
Qed.

Lemma try_finally_state {A} (m : M A) (f : M unit) p :
  (try_finally m f p).1 = (f (m p).1).1.
Proof.
  unfold try_finally. destruct (m p) as [p' r]. simpl.
  by destruct (f p') as [p'' [[]|e]].
Qed.

Lemma run_engine_cleanup_last w cfg pid p :
  last (trace (run_engine w cfg pid p).1) = Some (EvCleanTempStorage pid).
Proof.
  unfold run_engine. rewrite try_finally_state, call_clean_state.
  simpl. apply last_snoc.
Qed.

Lemma bootstrap_pid w args p p1 cfg pid :
  bootstrap w args p = (p1, Ret (cfg, pid)) → pid = os_getpid w.
Proof.
  unfold bootstrap. intros H.
  repeat (apply bind_inv_Ret in H as (? & ? & _ & H)).
  unfold mret, M_ret, ret in H. by simplify_eq.
Qed.

(** C1 (as amended).  Once initialisation and argument resolution have
    completed, the last action of [main] is the temporary-storage cleanup
    for the captured process identifier, whatever the engine's start and
    finish operations do (return, user interrupt, cooperative exit or any
    other exception).  When initialisation or argument resolution ends
    with an exception instead, [main] ends with that exception and has
    performed no cleanup. *)
Theorem main_cleanup_after_engine_only w args p :
  match bootstrap w args p with
  | (_, Ret _) =>
      final_action w args p = Some (EvCleanTempStorage (os_getpid w))
  | (p1, Raise e) =>
      main w args p = (p1, Raise e)
      ∧ ∃ evs, trace p1 = trace p ++ evs ∧ Forall (λ e, ¬ is_cleanup e) evs
  end.
Proof.
  destruct (bootstrap w args p) as [p1 [[cfg pid]|e]] eqn:Hb.
  - unfold final_action, main. rewrite (bind_Ret _ _ _ _ _ Hb). simpl.
    pose proof (bootstrap_pid _ _ _ _ _ _ Hb) as ->.
    apply run_engine_cleanup_last.
  - split.
    + unfold main. by rewrite (bind_Raise _ _ _ _ _ Hb).
    + destruct (emits_bootstrap w args p) as (evs & Hevs & Htr).
      rewrite Hb in Htr. eauto.
Qed.

(** C1 (as stated) fails: with the database down, and with a target that
    starts with a dash, [main] exits and its last action is not the
    cleanup; no cleanup happened at all. *)
Lemma cleanup_skipped_on_early_exit :
  (main (db_down_world ns0) ["owtf.py"] proc0
   = ({| trace := [EvBanner; EvInit ensure_default_session]; cli_options := None |},
      Raise (SystemExit (-1)))
   ∧ final_action (db_down_world ns0) ["owtf.py"] proc0
     ≠ Some (EvCleanTempStorage (os_getpid (db_down_world ns0))))
  ∧ ((main (sample_world (set_Targets ["-x"] ns0)) ["owtf.py"; "-x"] proc0).2
     = Raise (UsageError "Invalid Target: -x")
     ∧ final_action (sample_world (set_Targets ["-x"] ns0)) ["owtf.py"; "-x"] proc0
       = Some (EvUsage "Invalid Target: -x")).
Proof. vm_compute. repeat split; congruence. Qed.

(* ===================================================================== *)
(** ** TOR mode *)
(* ===================================================================== *)

Lemma split_cons sep s :
  Py.split sep s = (Py.split_go sep 0 s).1 :: (Py.split_go sep 0 s).2.
Proof. reflexivity. Qed.

Lemma format_percent_template a b :
  Py.format "socks://%s:%s" [a; b] = Some "socks://%s:%s".
Proof. reflexivity. Qed.

Lemma outbound_step_percent arg p :
  OutboundProxy arg = VStr "socks://%s:%s" →
  outbound_step arg p
  = (add_events p [EvUsage "Invalid port provided for Outbound Proxy"],
     Raise (UsageError "Invalid port provided for Outbound Proxy")).
Proof. intros H. unfold outbound_step. rewrite H. reflexivity. Qed.

Lemma tor_step_five_fields arg s p :
  TOR_mode arg = VStr s →
  length (Py.split ":" s) = 5%nat →
  head (Py.split ":" s) ≠ Some "help" →
  tor_step arg p
  = (p, Ret (set_OutboundProxy (VStr "socks://%s:%s")
               (set_TOR_mode (VList (Py.split ":" s)) arg))).
Proof.
  intros Htor Hlen Hhd. unfold tor_step. rewrite Htor.
  destruct s as [|c s]; [done|]. simpl truthy. cbv iota.
  unfold as_str, mbind, M_bind, bind, ret.
  destruct (Py.split ":" (String c s))
    as [|t0 [|t1 [|t2 [|t3 [|t4 [|]]]]]]; simplify_eq/=.
  rewrite bool_decide_eq_false_2 by congruence.
  reflexivity.
Qed.

(** C2.  The failing behaviour behind the claim: for every TOR spec of
    five fields (first field not [help]) the outbound string synthesised
    by [str.format] on a [%s] template is the template itself, and
    resolution ends in the invalid-port usage error; no field of the spec,
    defaulted or not, reaches the outbound proxy. *)
Theorem tor_mode_outbound_is_template w arg pg profiles s p :
  TOR_mode arg = VStr s →
  length (Py.split ":" s) = 5%nat →
  head (Py.split ":" s) ≠ Some "help" →
  (∃ arg', tor_step arg p = (p, Ret arg')
           ∧ OutboundProxy arg' = VStr "socks://%s:%s")
  ∧ options_resolve w (arg, pg, profiles) p
    = (add_events p [EvUsage "Invalid port provided for Outbound Proxy"],
       Raise (UsageError "Invalid port provided for Outbound Proxy")).
Proof.
  intros Htor Hlen Hhd.
  pose proof (tor_step_five_fields arg s p Htor Hlen Hhd) as Hstep.
  split; [eauto|].
  unfold options_resolve. simpl.
  rewrite (bind_Ret _ _ _ _ _ Hstep).
  erewrite bind_Raise; [reflexivity|].
  by apply outbound_step_percent.
Qed.

Lemma tor_mode_outbound_is_template_witness :
  (∃ arg', tor_step (set_TOR_mode (VStr "::u:p:f") ns0) proc0 = (proc0, Ret arg')
           ∧ OutboundProxy arg' = VStr "socks://%s:%s")
  ∧ options_resolve (sample_world ns0)
      (set_TOR_mode (VStr "::u:p:f") ns0, VStr "web", ∅) proc0
    = (add_events proc0 [EvUsage "Invalid port provided for Outbound Proxy"],
       Raise (UsageError "Invalid port provided for Outbound Proxy")).
Proof.
  apply (tor_mode_outbound_is_template (sample_world ns0)
           (set_TOR_mode (VStr "::u:p:f") ns0) (VStr "web") ∅ "::u:p:f" proc0).
  - reflexivity.
  - reflexivity.
  - vm_compute. congruence.
Defined.

(** C10.  When the first colon-separated field of the TOR spec is
    [help], however many fields follow, the TOR step prints the TOR
    configuration guidance and exits with status 0; nothing else is
    emitted, so no arity check and no later step of the resolution runs. *)
Theorem tor_help_first_field_exits w arg s p :
  TOR_mode arg = VStr s →
  head (Py.split ":" s) = Some "help" →
  tor_step arg p = (add_events p [EvTorHelp], Raise (SystemExit 0))
  ∧ (∀ pg profiles,
       options_resolve w (arg, pg, profiles) p
       = (add_events p [EvTorHelp], Raise (SystemExit 0)))
  ∧ (∀ user_args p0 pg profiles,
       options_prelude w user_args p0 = (p, Ret (arg, pg, profiles)) →
       process_options w user_args p0
       = (add_events p [EvTorHelp], Raise (SystemExit 0))).
Proof.
  intros Htor Hhd.
  assert (Hstep : tor_step arg p = (add_events p [EvTorHelp], Raise (SystemExit 0))).
  { unfold tor_step. rewrite Htor.
    destruct s as [|c s]; [vm_compute in Hhd; congruence|].
    simpl truthy. cbv iota.
    unfold as_str, mbind, M_bind, bind, ret.
    rewrite split_cons in *. simpl in Hhd. simplify_eq. simpl.
    rewrite Hhd. reflexivity. }
  split; [done|]. split.
  - intros pg profiles. unfold options_resolve. simpl.
    by rewrite (bind_Raise _ _ _ _ _ Hstep).
  - intros ua p0 pg profiles Hpre. unfold process_options.
    rewrite (bind_Ret _ _ _ _ _ Hpre). unfold options_resolve. simpl.
    by rewrite (bind_Raise _ _ _ _ _ Hstep).
Qed.

Lemma tor_help_first_field_exits_witness :
  tor_step (set_TOR_mode (VStr "help:a:b:c:d") ns0) proc0
  = (add_events proc0 [EvTorHelp], Raise (SystemExit 0))
  ∧ process_options (sample_world (set_TOR_mode (VStr "help:a:b:c:d") ns0)) [] proc0
    = (add_events proc0 [EvTorHelp], Raise (SystemExit 0)).
Proof.
  pose proof (tor_help_first_field_exits
                (sample_world (set_TOR_mode (VStr "help:a:b:c:d") ns0))
                (set_TOR_mode (VStr "help:a:b:c:d") ns0) "help:a:b:c:d" proc0
                eq_refl eq_refl) as (H1 & _ & H3).
  split; [exact H1|].
  apply (H3 [] proc0 (VStr "web") ∅). vm_compute. reflexivity.
Defined.

(* ===================================================================== *)
(** ** Plugin lists that span several groups *)
(* ===================================================================== *)

Lemma two_distinct_members (l : list string) g1 g2 :
  g1 ≠ g2 → g1 ∈ l → g2 ∈ l → (1 <? length l)%nat = true.
Proof.
  intros Hne H1 H2. destruct l as [|a [|b l]]; [| |done].
  - by apply elem_of_nil in H1.
  - apply list_elem_of_singleton in H1, H2. congruence.
Qed.

Lemma get_plugins_from_arg_several w s p :
  (1 <? length (get_groups_for_plugins w (Py.split "," s)))%nat = true →
  get_plugins_from_arg w s p
  = (add_events p [EvUsage "The plugins specified belong to several plugin groups: '%s'"],
     Raise (UsageError "The plugins specified belong to several plugin groups: '%s'")).
Proof. intros H. unfold get_plugins_from_arg. rewrite H. reflexivity. Qed.

Lemma parse_step_Ret w ua p p' arg :
  parse_step w ua p = (p', Ret arg) →
  parse_options w ua (get_all_plugin_groups w)
    (get_all_plugin_types w ++ ["all"; "quiet"]) = Ret arg.
Proof.
  unfold parse_step, try_except, lift. simpl.
  destruct (parse_options _ _ _ _) as [a|e]; [by intros [= _ ->]|].
  destruct (is_KeyboardInterrupt e); [|done].
  rewrite (bind_Raise _ _ _ _ _ (usage_run _ _)). done.
Qed.

Lemma nonempty_truthy s : s ≠ "" → truthy (VStr s) = true.
Proof. by destruct s. Qed.

Lemma usage_only_ret {A} (a : A) : usage_only (ret a).
Proof. by intros p. Qed.

Lemma usage_only_usage {A} msg : usage_only (usage (A := A) msg).
Proof. by intros p. Qed.

Lemma usage_only_emit e : usage_only (emit e).
Proof. by intros p. Qed.

Lemma usage_only_bind {A B} (m : M A) (k : A → M B) :
  usage_only m → (∀ a, usage_only (k a)) → usage_only (m ≫= k).
Proof.
  intros Hm Hk p. specialize (Hm p). unfold mbind, M_bind, bind.
  destruct (m p) as [p1 [a|e]]; [apply Hk|done].
Qed.

Lemma usage_only_for_each {A S} (body : S → A → M S) l s :
  (∀ s x, usage_only (body s x)) → usage_only (for_each body l s).
Proof.
  intros Hb. revert s. induction l as [|x l IH]; intros s; simpl.
  - apply usage_only_ret.
  - apply usage_only_bind; [apply Hb | intros s'; apply IH].
Qed.

Lemma usage_only_get_plugins_from_arg w s :
  usage_only (get_plugins_from_arg w s).
Proof.
  unfold get_plugins_from_arg. apply usage_only_bind.
  - destruct (1 <? _)%nat; [|apply usage_only_ret].
    apply usage_only_bind; [by intros p|intros msg; apply usage_only_usage].
  - intros _. apply usage_only_ret.
Qed.

Lemma usage_only_profiles_step w arg :
  str_or_none (CustomProfile arg) → usage_only (profiles_step w arg).
Proof.
  unfold profiles_step. destruct (CustomProfile arg) as [| | |s|]; try done;
    intros _; simpl truthy; cbv iota; try apply usage_only_ret.
  destruct (negb _); [|apply usage_only_ret].
  apply usage_only_bind; [by intros p|intros s'].
  apply usage_only_for_each. intros profiles profile. unfold profile_round.
  destruct (Py.split ":" profile) as [|name [|path [|]]];
    try apply usage_only_usage.
  destruct (negb _); [apply usage_only_usage|apply usage_only_ret].
Qed.

Lemma usage_only_only_plugins_step w arg pg :
  str_or_none (OnlyPlugins arg) → usage_only (only_plugins_step w arg pg).
Proof.
  unfold only_plugins_step. destruct (OnlyPlugins arg) as [| | |s|]; try done;
    intros _; simpl truthy; cbv iota; try apply usage_only_ret.
  destruct (negb _); [|apply usage_only_ret].
  apply usage_only_bind; [by intros p|intros s'].
  apply usage_only_bind; [apply usage_only_get_plugins_from_arg|intros r].
  cbv zeta. apply usage_only_bind.
  - intros p. by destruct r.2.
  - intros g. apply usage_only_bind; [apply usage_only_emit|].
    intros _. apply usage_only_ret.
Qed.

Lemma usage_only_except_plugins_step w arg s :
  ExceptPlugins arg = VStr s → usage_only (except_plugins_step w arg).
Proof.
  unfold except_plugins_step. intros ->. simpl truthy.
  destruct (negb _); [|apply usage_only_ret].
  apply usage_only_bind; [by intros p|intros s'].
  apply usage_only_bind; [apply usage_only_get_plugins_from_arg|intros r].
  apply usage_only_ret.
Qed.

Lemma only_plugins_step_except w arg pg p p' r :
  only_plugins_step w arg pg p = (p', Ret r) → ExceptPlugins r.1 = ExceptPlugins arg.
Proof.
  unfold only_plugins_step. destruct (truthy (OnlyPlugins arg)).
  - intros Ho. repeat (apply bind_inv_Ret in Ho as (? & ? & _ & Ho)).
    unfold mret, M_ret, ret in Ho. by simplify_eq.
  - unfold mret, M_ret, ret. intros. by simplify_eq.
Qed.

(** C3.  When the identifiers of a plugin list resolve to two different
    groups, [get_plugins_from_arg] ends in a usage error; so do the
    only-plugins and the except-plugins step that call it; and
    [process_options], given such a list in either option by the parser
    (whose option values are [None] or strings), ends in a usage error and
    returns no configuration. *)
Theorem several_plugin_groups_usage_error w s g1 g2 :
  g1 ≠ g2 →
  g1 ∈ get_groups_for_plugins w (Py.split "," s) →
  g2 ∈ get_groups_for_plugins w (Py.split "," s) →
  s ≠ "" →
  (∀ p, ∃ msg, get_plugins_from_arg w s p
               = (add_events p [EvUsage msg], Raise (UsageError msg)))
  ∧ (∀ arg pg p, OnlyPlugins arg = VStr s →
       ∃ msg, only_plugins_step w arg pg p
              = (add_events p [EvUsage msg], Raise (UsageError msg)))
  ∧ (∀ arg p, ExceptPlugins arg = VStr s →
       ∃ msg, except_plugins_step w arg p
              = (add_events p [EvUsage msg], Raise (UsageError msg)))
  ∧ (∀ user_args arg p,
       parse_options w user_args (get_all_plugin_groups w)
         (get_all_plugin_types w ++ ["all"; "quiet"]) = Ret arg →
       str_or_none (CustomProfile arg) →
       str_or_none (OnlyPlugins arg) →
       OnlyPlugins arg = VStr s ∨ ExceptPlugins arg = VStr s →
       ∃ msg, (process_options w user_args p).2 = Raise (UsageError msg)).
Proof.
  intros Hne H1 H2 Hs.
  pose proof (two_distinct_members _ _ _ Hne H1 H2) as Hlen.
  pose proof (λ p, get_plugins_from_arg_several w s p Hlen) as Hget.
  assert (Honly : ∀ arg pg p, OnlyPlugins arg = VStr s →
            ∃ msg, only_plugins_step w arg pg p
                   = (add_events p [EvUsage msg], Raise (UsageError msg))).
  { intros arg pg p Ho. eexists. unfold only_plugins_step.
    rewrite Ho, nonempty_truthy by done. simpl as_str.
    unfold mbind, M_bind, bind, ret. by rewrite Hget. }
  assert (Hexc : ∀ arg p, ExceptPlugins arg = VStr s →
            ∃ msg, except_plugins_step w arg p
                   = (add_events p [EvUsage msg], Raise (UsageError msg))).
  { intros arg p He. eexists. unfold except_plugins_step.
    rewrite He, nonempty_truthy by done. simpl as_str.
    unfold mbind, M_bind, bind, ret. by rewrite Hget. }
  split; [by eauto|]. split; [done|]. split; [done|].
  intros ua arg p Hparse Hprof Hostr Hsel.
  assert (Hp : parse_step w ua p = (p, Ret arg)).
  { unfold parse_step, try_except, lift. by rewrite Hparse. }
  assert (Hpre : ∃ p' msg, options_prelude w ua p = (p', Raise (UsageError msg))).
  { unfold options_prelude. rewrite (bind_Ret _ _ _ _ _ Hp).
    pose proof (usage_only_profiles_step w arg Hprof p) as Hpr.
    destruct (profiles_step w arg p) as [p3 [profiles|e]] eqn:Hprofiles;
      simpl in Hpr.
    2:{ rewrite (bind_Raise _ _ _ _ _ Hprofiles). destruct e; try done. eauto. }
    rewrite (bind_Ret _ _ _ _ _ Hprofiles).
    pose proof (usage_only_only_plugins_step w arg (PluginGroup arg) Hostr p3) as Hon.
    destruct (only_plugins_step w arg (PluginGroup arg) p3) as [p4 [r|e]] eqn:Ho;
      simpl in Hon.
    2:{ rewrite (bind_Raise _ _ _ _ _ Ho). destruct e; try done. eauto. }
    rewrite (bind_Ret _ _ _ _ _ Ho).
    destruct Hsel as [Hsel|Hsel].
    { destruct (Honly arg (PluginGroup arg) p3 Hsel) as [msg Hmsg]. congruence. }
    assert (ExceptPlugins r.1 = VStr s) as Hr.
    { by rewrite (only_plugins_step_except _ _ _ _ _ _ Ho). }
    destruct (Hexc r.1 p4 Hr) as [msg Hmsg].
    rewrite (bind_Raise _ _ _ _ _ Hmsg). eauto. }
  destruct Hpre as (p' & msg & Hpre). exists msg.
  unfold process_options. by rewrite (bind_Raise _ _ _ _ _ Hpre).
Qed.

Lemma several_plugin_groups_usage_error_witness :
  (∃ msg, get_plugins_from_arg (sample_world ns0) "x,y" proc0
          = (add_events proc0 [EvUsage msg], Raise (UsageError msg)))
  ∧ ∃ msg, (process_options (sample_world (set_ExceptPlugins (VStr "x,y") ns0))
              [] proc0).2 = Raise (UsageError msg).
Proof.
  destruct (several_plugin_groups_usage_error
              (sample_world (set_ExceptPlugins (VStr "x,y") ns0)) "x,y" "net" "web")
    as (H1 & _ & _ & H4).
  - done.
  - vm_compute. constructor.
  - vm_compute. do 2 constructor.
  - done.
  - split; [exact (H1 proc0)|].
    apply (H4 [] (set_ExceptPlugins (VStr "x,y") ns0) proc0);
      [reflexivity|exact I|exact I|by right].
Defined.

(* ===================================================================== *)
(** ** What a successful resolution went through *)
(* ===================================================================== *)

Ltac inv_Ret H :=
  repeat first
    [ apply bind_inv_Ret in H as (? & ? & _ & H)
    | progress (unfold mret, M_ret, ret, usage, raise, sys_exit in H)
    | match type of H with
      | (if ?b then _ else _) _ = _ => destruct b
      | (match ?x with _ => _ end) _ = _ => destruct x
      | (_, Raise _) = (_, Ret _) => discriminate H
      end ].

Lemma tor_step_same arg p p' arg' :
  tor_step arg p = (p', Ret arg') → same_positional arg arg'.
Proof.
  unfold tor_step. intros H. inv_Ret H; try discriminate;
    by (injection H as _ <-).
Qed.

Lemma outbound_step_same arg p p' arg' :
  outbound_step arg p = (p', Ret arg') → same_positional arg arg'.
Proof.
  unfold outbound_step. intros H. inv_Ret H; try discriminate;
    by (injection H as _ <-).
Qed.

Lemma inbound_step_same arg p p' arg' :
  inbound_step arg p = (p', Ret arg') → same_positional arg arg'.
Proof.
  unfold inbound_step. intros H. inv_Ret H; try discriminate;
    by (injection H as _ <-).
Qed.

Lemma plugin_type_step_same w pg arg :
  same_positional arg (plugin_type_step w pg arg).
Proof. unfold plugin_type_step. by repeat case_bool_decide. Qed.

Lemma only_plugins_step_same w arg pg p p' r :
  only_plugins_step w arg pg p = (p', Ret r) → same_positional arg r.1.
Proof.
  unfold only_plugins_step. intros H. inv_Ret H; try discriminate;
    by (injection H as _ <-).
Qed.

Lemma except_plugins_step_same w arg p p' arg' :
  except_plugins_step w arg p = (p', Ret arg') → same_positional arg arg'.
Proof.
  unfold except_plugins_step. intros H. inv_Ret H; try discriminate;
    by (injection H as _ <-).
Qed.

Lemma same_positional_trans a b c :
  same_positional a b → same_positional b c → same_positional a c.
Proof. unfold same_positional. intros [-> ->] [-> ->]. done. Qed.

Lemma options_prelude_Ret w ua p p' arg pg profiles :
  options_prelude w ua p = (p', Ret (arg, pg, profiles)) →
  ∃ arg0,
    parse_options w ua (get_all_plugin_groups w)
      (get_all_plugin_types w ++ ["all"; "quiet"]) = Ret arg0
    ∧ same_positional arg0 arg.
Proof.
  unfold options_prelude. intros H.
  apply bind_inv_Ret in H as (arg0 & p1 & Hparse & H).
  apply bind_inv_Ret in H as (prof & p2 & _ & H).
  apply bind_inv_Ret in H as (r & p3 & Ho & H).
  apply bind_inv_Ret in H as (arg2 & p4 & He & H).
  unfold mret, M_ret, ret in H. simplify_eq.
  exists arg0. split; [by eapply parse_step_Ret|].
  eapply same_positional_trans;
    [by eapply only_plugins_step_same | by eapply except_plugins_step_same].
Qed.

Lemma options_resolve_Ret w arg pg profiles p p' cfg :
  options_resolve w (arg, pg, profiles) p = (p', Ret cfg) →
  ∃ arg' scope p1 p2,
    same_positional arg arg'
    ∧ scope_step w pg arg' p1 = (p2, Ret scope)
    ∧ check_targets scope p2 = (p', Ret tt)
    ∧ cfg = assemble w arg' pg profiles scope.
Proof.
  unfold options_resolve. simpl. intros H.
  apply bind_inv_Ret in H as (a1 & p1 & H1 & H).
  apply bind_inv_Ret in H as (a2 & p2 & H2 & H).
  apply bind_inv_Ret in H as (a3 & p3 & H3 & H).
  apply bind_inv_Ret in H as (scope & p4 & H4 & H).
  apply bind_inv_Ret in H as ([] & p5 & H5 & H).
  unfold mret, M_ret, ret in H. simplify_eq.
  exists (plugin_type_step w pg a3), scope, p3, p4. split; [|done].
  apply tor_step_same in H1. apply outbound_step_same in H2.
  apply inbound_step_same in H3.
  eauto using same_positional_trans, plugin_type_step_same.
Qed.

Lemma process_options_Ret w ua p p' cfg :
  process_options w ua p = (p', Ret cfg) →
  ∃ arg0 arg pg profiles scope p1 p2,
    parse_options w ua (get_all_plugin_groups w)
      (get_all_plugin_types w ++ ["all"; "quiet"]) = Ret arg0
    ∧ same_positional arg0 arg
    ∧ scope_step w pg arg p1 = (p2, Ret scope)
    ∧ check_targets scope p2 = (p', Ret tt)
    ∧ cfg = assemble w arg pg profiles scope.
Proof.
  unfold process_options. intros H.
  apply bind_inv_Ret in H as ([[arg pg] profiles] & p1 & Hpre & H).
  apply options_prelude_Ret in Hpre as (arg0 & Hparse & Hsame).
  apply options_resolve_Ret in H as (arg' & scope & pa & pb & Hs & Hsc & Hck & ->).
  exists arg0, arg', pg, profiles, scope, pa, pb.
  eauto 6 using same_positional_trans.
Qed.

(* ===================================================================== *)
(** ** Scope resolution and the auxiliary group *)
(* ===================================================================== *)

Lemma is_empty_spec s : Py.is_empty s = bool_decide (s = "").
Proof. by destruct s. Qed.

Lemma scope_line_fold lines acc :
  fold_left scope_line lines acc
  = acc ++ filter (λ l, l ≠ "") (Py.strip <$> lines).
Proof.
  revert acc. induction lines as [|x lines IH]; intros acc.
  - simpl. by rewrite app_nil_r.
  - rewrite fmap_cons, filter_cons.
    change (fold_left scope_line (x :: lines) acc)
      with (fold_left scope_line lines (scope_line acc x)).
    rewrite IH. unfold scope_line. rewrite is_empty_spec.
    case_bool_decide as Hx; case_decide; try done.
    by rewrite <- app_assoc.
Qed.

Local Arguments Py.split : simpl never.

Lemma scope_step_file w pg arg path content p :
  Targets arg = Some [path] →
  fs_files w !! path = Some (ReadText content) →
  scope_step w pg arg p
  = let p1 := add_events p [EvLogInfo "Scope file: trying to load targets from it .."] in
    match scope_of_file content with
    | [] => (add_events p1 [EvUsage "Please provide a scope file (1 target x line)"],
             Raise (UsageError "Please provide a scope file (1 target x line)"))
    | new_scope => (p1, Ret new_scope)
    end.
Proof.
  intros HT Hf. unfold scope_step. rewrite HT. cbn [length].
  rewrite andb_false_r. cbn [andb Nat.eqb].
  unfold mbind, M_bind, bind, lift, list_index. cbn [lookup list_lookup].
  unfold os_path_isfile, open_read. rewrite Hf.
  rewrite bool_decide_eq_true_2 by done.
  unfold logging_info, emit, ret. rewrite scope_line_fold.
  cbn [app]. fold (scope_of_file content).
  by destruct (scope_of_file content).
Qed.

Lemma scope_step_unreadable w pg arg path name p :
  Targets arg = Some [path] →
  fs_files w !! path = Some (ReadError name) →
  scope_step w pg arg p
  = (add_events p [EvLogInfo "Scope file: trying to load targets from it .."],
     Raise (OtherError name)).
Proof.
  intros HT Hf. unfold scope_step. rewrite HT. cbn [length].
  rewrite andb_false_r. cbn [andb Nat.eqb].
  unfold mbind, M_bind, bind, lift, list_index. cbn [lookup list_lookup].
  unfold os_path_isfile, open_read. rewrite Hf.
  by rewrite bool_decide_eq_true_2 by done.
Qed.

Lemma scope_step_no_file w pg arg path p :
  Targets arg = Some [path] →
  fs_files w !! path = None →
  scope_step w pg arg p = (p, Ret [path]).
Proof.
  intros HT Hf. unfold scope_step. rewrite HT. cbn [length].
  rewrite andb_false_r. cbn [andb Nat.eqb].
  unfold mbind, M_bind, bind, lift, list_index. cbn [lookup list_lookup].
  unfold os_path_isfile. rewrite Hf.
  rewrite bool_decide_eq_false_2; [done|]. by intros [? ?].
Qed.

(** C6.  A configuration returned for the plugin group [auxiliary] has
    the scope pinned to the single element [auxiliary] and carries, as its
    arguments, the list the scope step resolved from the positional
    arguments. *)
Theorem auxiliary_scope_moved_to_args w user_args p p' cfg :
  process_options w user_args p = (p', Ret cfg) →
  Cfg.PluginGroup cfg = VStr "auxiliary" →
  Cfg.Scope cfg = ["auxiliary"]
  ∧ ∃ arg0 arg scope p1 p2,
      parse_options w user_args (get_all_plugin_groups w)
        (get_all_plugin_types w ++ ["all"; "quiet"]) = Ret arg0
      ∧ same_positional arg0 arg
      ∧ scope_step w (VStr "auxiliary") arg p1 = (p2, Ret scope)
      ∧ Cfg.Args cfg = VList scope.
Proof.
  intros Hrun Haux.
  apply process_options_Ret in Hrun
    as (arg0 & arg & pg & prof & scope & p1 & p2 & Hparse & Hsame & Hsc & _ & ->).
  simpl in Haux. subst pg. simpl. split; [done|].
  by exists arg0, arg, scope, p1, p2.
Qed.

Lemma auxiliary_scope_moved_to_args_witness :
  ∃ p' cfg,
    process_options
      (sample_world (set_PluginGroup (VStr "auxiliary") (set_Targets ["RHOST=10.0.0.1"; "RPORT=80"] ns0)))
      [] proc0 = (p', Ret cfg)
    ∧ Cfg.Scope cfg = ["auxiliary"]
    ∧ Cfg.Args cfg = VList ["RHOST=10.0.0.1"; "RPORT=80"].
Proof.
  eexists _, _. split; [vm_compute; reflexivity|].
  split.
  - refine (proj1 (auxiliary_scope_moved_to_args
                     (sample_world (set_PluginGroup (VStr "auxiliary")
                                      (set_Targets ["RHOST=10.0.0.1"; "RPORT=80"] ns0)))
                     [] proc0 _ _ _ _)).
    + vm_compute. reflexivity.
    + reflexivity.
  - reflexivity.
Defined.

(** C9.  A configuration returned for any other plugin group has the
    empty string, a string and not a list, as its arguments, and its scope
    is the list the scope step resolved. *)
Theorem non_auxiliary_args_empty_string w user_args p p' cfg :
  process_options w user_args p = (p', Ret cfg) →
  Cfg.PluginGroup cfg ≠ VStr "auxiliary" →
  Cfg.Args cfg = VStr ""
  ∧ ∃ arg0 arg p1 p2,
      parse_options w user_args (get_all_plugin_groups w)
        (get_all_plugin_types w ++ ["all"; "quiet"]) = Ret arg0
      ∧ same_positional arg0 arg
      ∧ scope_step w (Cfg.PluginGroup cfg) arg p1 = (p2, Ret (Cfg.Scope cfg)).
Proof.
  intros Hrun Haux.
  apply process_options_Ret in Hrun
    as (arg0 & arg & pg & prof & scope & p1 & p2 & Hparse & Hsame & Hsc & _ & ->).
  simpl in *. rewrite bool_decide_eq_false_2 by done. split; [done|].
  by exists arg0, arg, p1, p2.
Qed.

Lemma non_auxiliary_args_empty_string_witness :
  ∃ p' cfg,
    process_options (sample_world (set_Targets ["a.com"; "b.com"] ns0)) [] proc0
    = (p', Ret cfg)
    ∧ Cfg.Args cfg = VStr ""
    ∧ Cfg.Scope cfg = ["a.com"; "b.com"].
Proof.
  eexists _, _. split; [vm_compute; reflexivity|].
  split.
  - refine (proj1 (non_auxiliary_args_empty_string
                     (sample_world (set_Targets ["a.com"; "b.com"] ns0))
                     [] proc0 _ _ _ _)).
    + vm_compute. reflexivity.
    + vm_compute. congruence.
  - reflexivity.
Defined.

(* ===================================================================== *)
(** ** The leading-dash check *)
(* ===================================================================== *)

Lemma check_target_plain t p :
  plain_target t → check_target tt t p = (p, Ret tt).
Proof.
  destruct t as [|c t]; [done|]. simpl. intros Hc.
  unfold check_target, mbind, M_bind, bind. simpl.
  by rewrite bool_decide_eq_false_2.
Qed.

Lemma check_target_dash t p :
  check_target tt (String "-" t) p
  = (add_events p [EvUsage ("Invalid Target: " +:+ String "-" t)],
     Raise (UsageError ("Invalid Target: " +:+ String "-" t))).
Proof. reflexivity. Qed.

Lemma check_targets_cons t scope p :
  check_targets (t :: scope) p
  = match check_target tt t p with
    | (p', Ret _) => check_targets scope p'
    | (p', Raise e) => (p', Raise e)
    end.
Proof.
  unfold check_targets. simpl. unfold mbind, M_bind, bind.
  by destruct (check_target tt t p) as [p' [[]|e]].
Qed.

(** C8 (as amended).  The check reads the first character of each target
    in list order without an emptiness guard.  If the targets before the
    first empty string are non-empty and do not start with a dash, the
    check raises [IndexError] and emits no usage message; and if no target
    is empty, the check ends normally or in a usage error, never in
    [IndexError]. *)
Theorem empty_target_index_error p :
  (∀ pre post, Forall plain_target pre →
     check_targets (pre ++ "" :: post) p = (p, Raise IndexError))
  ∧ (∀ scope, Forall (λ t, t ≠ "") scope →
       (check_targets scope p).2 = Ret tt
       ∨ ∃ msg, (check_targets scope p).2 = Raise (UsageError msg)).
Proof.
  split.
  - intros pre post Hpre. induction Hpre as [|t pre Ht _ IH]; simpl.
    + reflexivity.
    + by rewrite check_targets_cons, check_target_plain.
  - intros scope Hne. revert p. induction Hne as [|t scope Ht _ IH]; intros p.
    + by left.
    + rewrite check_targets_cons. destruct t as [|c t]; [done|].
      destruct (decide (c = "-"%char)) as [->|Hc].
      * rewrite check_target_dash. right. by eexists.
      * rewrite check_target_plain by done. apply IH.
Qed.

Lemma empty_target_index_error_witness :
  check_targets (["a.com"] ++ "" :: ["-b"]) proc0 = (proc0, Raise IndexError)
  ∧ ((check_targets ["a.com"; "-b"] proc0).2 = Ret tt
     ∨ ∃ msg, (check_targets ["a.com"; "-b"] proc0).2 = Raise (UsageError msg)).
Proof.
  destruct (empty_target_index_error proc0) as [H1 H2]. split.
  - apply (H1 ["a.com"] ["-b"]). repeat constructor. simpl. congruence.
  - apply (H2 ["a.com"; "-b"]). repeat constructor; congruence.
Defined.

(** C8 (as stated) fails: a scope that holds an empty string after a
    target starting with a dash ends in the usage error for that target,
    not in [IndexError]. *)
Lemma dash_before_empty_target_usage_error :
  "" ∈ ["-x"; ""]
  ∧ check_targets ["-x"; ""] proc0
    = (add_events proc0 [EvUsage "Invalid Target: -x"],
       Raise (UsageError "Invalid Target: -x"))
  ∧ (process_options (sample_world (set_Targets ["-x"; ""] ns0)) ["-x"; ""] proc0).2
    = Raise (UsageError "Invalid Target: -x")
  ∧ (process_options (sample_world (set_Targets ["-x"; ""] ns0)) ["-x"; ""] proc0).2
    ≠ Raise IndexError.
Proof.
  split; [do 2 constructor|]. vm_compute. repeat split; congruence.
Qed.

Example empty_target_alone :
  (process_options (sample_world (set_Targets [""] ns0)) [""] proc0).2
  = Raise IndexError.
Proof. vm_compute. reflexivity. Qed.

(* ===================================================================== *)
(** ** Resolving twice *)
(* ===================================================================== *)

Section Oblivious.

Lemma oblivious_ret {A} (a : A) : oblivious (ret a).
Proof. by intros p p'. Qed.

Lemma oblivious_mret {A} (a : A) : oblivious (mret a : M A).
Proof. by intros p p'. Qed.

Lemma oblivious_raise {A} e : oblivious (raise (A := A) e).
Proof. by intros p p'. Qed.

Lemma oblivious_lift {A} (r : res A) : oblivious (lift r).
Proof. by intros p p'. Qed.

Lemma oblivious_emit e : oblivious (emit e).
Proof. by intros p p'. Qed.

Lemma oblivious_bind {A B} (m : M A) (k : A → M B) :
  oblivious m → (∀ a, oblivious (k a)) → oblivious (m ≫= k).
Proof.
  intros Hm Hk p p'. specialize (Hm p p').
  unfold mbind, M_bind, bind.
  destruct (m p) as [p1 [a|e]], (m p') as [p1' [a'|e']]; simplify_eq/=.
  - apply Hk.
  - done.
Qed.

Lemma oblivious_try_except {A} (m : M A) handles h :
  oblivious m → (∀ e, oblivious (h e)) → oblivious (try_except m handles h).
Proof.
  intros Hm Hh p p'. specialize (Hm p p').
  unfold try_except.
  destruct (m p) as [p1 [a|e]], (m p') as [p1' [a'|e']]; simplify_eq/=.
  - done.
  - destruct (handles e'); [apply Hh|done].
Qed.

Lemma oblivious_for_each {A S} (body : S → A → M S) l s :
  (∀ s x, oblivious (body s x)) → oblivious (for_each body l s).
Proof.
  intros Hb. revert s. induction l as [|x l IH]; intros s; simpl.
  - apply oblivious_ret.
  - apply oblivious_bind; [apply Hb | intros s'; apply IH].
Qed.

Lemma oblivious_usage {A} msg : oblivious (usage (A := A) msg).
Proof. by intros p p'. Qed.

Lemma oblivious_as_str v : oblivious (as_str v).
Proof. by destruct v. Qed.

Lemma oblivious_open_read w path : oblivious (open_read w path).
Proof.
  unfold open_read. destruct (_ !! _) as [[]|];
    first [apply oblivious_ret | apply oblivious_raise].
Qed.

Lemma oblivious_lift_format o : oblivious (lift_format o).
Proof. by destruct o. Qed.

End Oblivious.

Ltac oblivious_step :=
  match goal with
  | |- oblivious (_ ≫= _) => apply oblivious_bind; [|intros ?]
  | |- oblivious (ret _) => apply oblivious_ret
  | |- oblivious (mret _) => apply oblivious_mret
  | |- oblivious (raise _) => apply oblivious_raise
  | |- oblivious (sys_exit _) => apply oblivious_raise
  | |- oblivious (lift _) => apply oblivious_lift
  | |- oblivious (usage _) => apply oblivious_usage
  | |- oblivious (as_str _) => apply oblivious_as_str
  | |- oblivious (open_read _ _) => apply oblivious_open_read
  | |- oblivious (lift_format _) => apply oblivious_lift_format
  | |- oblivious (emit _) => apply oblivious_emit
  | |- oblivious (logging_info _) => apply oblivious_emit
  | |- oblivious (try_except _ _ _) => apply oblivious_try_except; [|intros ?]
  | |- oblivious (for_each _ _ _) => apply oblivious_for_each; intros ? ?
  | |- oblivious (if ?b then _ else _) => destruct b
  | |- oblivious (match ?x with _ => _ end) => destruct x
  end.

Ltac solve_oblivious := cbv zeta; repeat (oblivious_step; cbv zeta).

Lemma oblivious_get_plugins_from_arg w s : oblivious (get_plugins_from_arg w s).
Proof. unfold get_plugins_from_arg. solve_oblivious. Qed.

Lemma oblivious_check_port fields counts m1 m2 :
  oblivious (check_port fields counts m1 m2).
Proof. unfold check_port. solve_oblivious. Qed.

Lemma oblivious_process_options w ua : oblivious (process_options w ua).
Proof.
  unfold process_options. apply oblivious_bind.
  - unfold options_prelude, parse_step, profiles_step, only_plugins_step,
      except_plugins_step.
    solve_oblivious; try apply oblivious_get_plugins_from_arg.
    unfold profile_round. solve_oblivious.
  - intros st.
    unfold options_resolve, tor_step, outbound_step, inbound_step, scope_step,
      check_targets.
    solve_oblivious; try apply oblivious_check_port.
    unfold check_target. solve_oblivious.
Qed.

(* ===================================================================== *)
(** ** The namespace as an object: agreement with the steps on values *)
(* ===================================================================== *)

Lemma bind_unfold {A B} (m : M A) (k : A → M B) p :
  (m ≫= k) p = match m p with
               | (p', Ret x) => k x p'
               | (p', Raise e) => (p', Raise e)
               end.
Proof. reflexivity. Qed.

Lemma bindO_unfold {A B} (m : MO A) (k : A → MO B) h :
  (m ≫= k) h = match m h with
               | (h', Ret x) => k x h'
               | (h', Raise e) => (h', Raise e)
               end.
Proof. reflexivity. Qed.

Lemma bindO_run {A B} (m : M A) (k : A → MO B) h :
  (run m ≫= k) h = match m (proc_of h) with
                   | (p', Ret x) => k x (with_proc h p')
                   | (p', Raise e) => (with_proc h p', Raise e)
                   end.
Proof.
  unfold mbind, MO_bind, bindO, run. by destruct (m (proc_of h)) as [p' [x|e]].
Qed.

Lemma run_unfold {A} (m : M A) h :
  run m h = match m (proc_of h) with
            | (p', r) => (with_proc h p', r)
            end.
Proof. unfold run. by destruct (m (proc_of h)). Qed.

Lemma bindO_getattr {A B} arg (attr : Namespace → A) (k : A → MO B) h a :
  objs h !! arg = Some a → (getattr arg attr ≫= k) h = k (attr a) h.
Proof. intros H. unfold mbind, MO_bind, bindO, getattr. by rewrite H. Qed.

Lemma bindO_setattr {B} arg assign (k : unit → MO B) h a :
  objs h !! arg = Some a →
  (setattr arg assign ≫= k) h = k tt (with_object h arg (assign a)).
Proof. intros H. unfold mbind, MO_bind, bindO, setattr. by rewrite H. Qed.

Lemma setattr_run arg assign h a :
  objs h !! arg = Some a →
  setattr arg assign h = (with_object h arg (assign a), Ret tt).
Proof. intros H. unfold setattr. by rewrite H. Qed.

Lemma with_object_lookup h arg a : objs (with_object h arg a) !! arg = Some a.
Proof. apply lookup_insert_eq. Qed.

Lemma with_object_proc_lookup h arg a p :
  objs (with_proc (with_object h arg a) p) !! arg = Some a.
Proof. apply lookup_insert_eq. Qed.

Lemma with_proc_lookup h p arg : objs (with_proc h p) !! arg = objs h !! arg.
Proof. reflexivity. Qed.


Lemma agrees_pure {A B} h arg a (x : A) (b : B) obj val :
  objs h !! arg = Some a → obj b = a → val b = x →
  agrees (h, Ret x) arg (proc_of h, Ret b) obj val.
Proof. intros H <- <-. by repeat split. Qed.

(** A computation that leaves the objects alone. *)
Lemma agrees_run {A B} (m : M B) h arg a (val : B → A) (mo : M A) :
  objs h !! arg = Some a →
  (∀ p, mo p = match m p with
               | (p', Ret b) => (p', Ret (val b))
               | (p', Raise e) => (p', Raise e)
               end) →
  agrees (run mo h) arg (m (proc_of h)) (λ _, a) val.
Proof.
  intros H Hmo. rewrite run_unfold, Hmo. unfold agrees.
  by destruct (m (proc_of h)) as [p' [b|e]].
Qed.

Tactic Notation "sim_run" "as" ident(p) ident(x) :=
  match goal with
  | |- agrees ((run ?m ≫= ?k) ?h) _ ((?m' ≫= ?k') ?q) _ _ =>
      rewrite (bindO_run m k h), (bind_unfold m' k' q)
  end;
  cbn [proc_of with_proc with_object];
  match goal with
  | |- agrees _ _ (match ?mq with _ => _ end) _ _ =>
      destruct mq as [p [x|?]]; [|by split]
  end.

Lemma profiles_step_sim w arg a h :
  objs h !! arg = Some a →
  agrees (InPlace.profiles_step w arg h) arg (profiles_step w a (proc_of h))
    (λ _, a) id.
Proof.
  intros H. unfold InPlace.profiles_step, profiles_step.
  rewrite (bindO_getattr _ _ _ _ _ H).
  destruct (truthy (CustomProfile a)); [|by repeat split].
  sim_run as p s. cbn [proc_of with_proc].
  apply (agrees_run (for_each (profile_round w) (Py.split "," s) ∅)
           (with_proc h p) arg a id); [done|].
  intros q. by destruct (for_each _ _ _ q) as [? [?|?]].
Qed.

Lemma except_plugins_step_sim w arg a h :
  objs h !! arg = Some a →
  agrees (InPlace.except_plugins_step w arg h) arg
    (except_plugins_step w a (proc_of h)) id (λ _, tt).
Proof.
  intros H. unfold InPlace.except_plugins_step, except_plugins_step.
  rewrite (bindO_getattr _ _ _ _ _ H).
  destruct (truthy (ExceptPlugins a)); [|by repeat split].
  sim_run as p s. sim_run as p' r.
  rewrite (setattr_run _ _ _ a) by done.
  repeat split. apply with_object_proc_lookup.
Qed.

Lemma bindO_ret {A B} (x : A) (k : A → MO B) h : (mret x ≫= k) h = k x h.
Proof. reflexivity. Qed.

Lemma bind_ret_l {A B} (x : A) (k : A → M B) p : (ret x ≫= k) p = k x p.
Proof. reflexivity. Qed.

Lemma bindO_assoc {A B C} (m : MO A) (k1 : A → MO B) (k2 : B → MO C) h :
  ((m ≫= k1) ≫= k2) h = (m ≫= λ x, k1 x ≫= k2) h.
Proof. unfold mbind, MO_bind, bindO. by destruct (m h) as [? [?|?]]. Qed.

Lemma bind_assoc {A B C} (m : M A) (k1 : A → M B) (k2 : B → M C) p :
  ((m ≫= k1) ≫= k2) p = (m ≫= λ x, k1 x ≫= k2) p.
Proof. unfold mbind, M_bind, bind. by destruct (m p) as [? [?|?]]. Qed.

Ltac sim_lookup :=
  cbn [objs with_proc with_object];
  first [eassumption | apply lookup_insert_eq].

Ltac sim_set := erewrite bindO_setattr; [|sim_lookup].

Ltac sim_done :=
  first [ by repeat split
        | repeat split; sim_lookup
        | erewrite setattr_run; [|sim_lookup]; repeat split; sim_lookup ].

Ltac sim_step :=
  cbv zeta;
  match goal with
  | |- agrees (((_ ≫= _) ≫= _) _) _ _ _ _ => rewrite bindO_assoc
  | |- agrees _ _ (((_ ≫= _) ≫= _) _) _ _ => rewrite bind_assoc
  | |- agrees ((run _ ≫= _) _) _ ((_ ≫= _) _) _ _ =>
      let p := fresh "p" in let x := fresh "x" in sim_run as p x
  | |- agrees ((setattr _ _ ≫= _) _) _ _ _ _ => sim_set
  | |- agrees ((mret _ ≫= _) _) _ ((ret _ ≫= _) _) _ _ =>
      rewrite bindO_ret, bind_ret_l
  | |- agrees (((if ?c then _ else _) ≫= _) _) _ _ _ _ => destruct c
  | |- agrees ((if ?c then _ else _) _) _ _ _ _ => destruct c
  end.

Ltac sim_go := repeat sim_step; try sim_done.

Lemma only_plugins_step_sim w arg a pg h :
  objs h !! arg = Some a →
  agrees (InPlace.only_plugins_step w arg pg h) arg
    (only_plugins_step w a pg (proc_of h)) fst snd.
Proof.
  intros H. unfold InPlace.only_plugins_step, only_plugins_step.
  rewrite (bindO_getattr _ _ _ _ _ H). sim_go.
Qed.

Lemma tor_step_sim arg a h :
  objs h !! arg = Some a →
  agrees (InPlace.tor_step arg h) arg (tor_step a (proc_of h)) id (λ _, tt).
Proof.
  intros H. unfold InPlace.tor_step, tor_step.
  rewrite (bindO_getattr _ _ _ _ _ H). sim_go.
Qed.

Lemma agrees_run_then_ret (m : M unit) h arg a p :
  objs h !! arg = Some a → proc_of h = p →
  agrees (run m h) arg ((m ≫= λ _, ret a) p) id (λ _, tt).
Proof.
  intros H <-. rewrite run_unfold, bind_unfold.
  destruct (m (proc_of h)) as [p [[]|e]]; by repeat split.
Qed.

Lemma outbound_step_sim arg a h :
  objs h !! arg = Some a →
  agrees (InPlace.outbound_step arg h) arg (outbound_step a (proc_of h))
    id (λ _, tt).
Proof.
  intros H. unfold InPlace.outbound_step, outbound_step.
  rewrite (bindO_getattr _ _ _ _ _ H). sim_go.
  all: try (apply agrees_run_then_ret; [sim_lookup|done]).
Qed.

Lemma inbound_step_sim arg a h :
  objs h !! arg = Some a →
  agrees (InPlace.inbound_step arg h) arg (inbound_step a (proc_of h))
    id (λ _, tt).
Proof.
  intros H. unfold InPlace.inbound_step, inbound_step.
  rewrite (bindO_getattr _ _ _ _ _ H). sim_go.
  all: try (apply agrees_run_then_ret; [sim_lookup|done]).
Qed.

Lemma plugin_type_step_sim w pg arg a h :
  objs h !! arg = Some a →
  agrees (InPlace.plugin_type_step w pg arg h) arg
    (proc_of h, Ret (plugin_type_step w pg a)) id (λ _, tt).
Proof.
  intros H. unfold InPlace.plugin_type_step, plugin_type_step. cbv zeta.
  rewrite (bindO_getattr _ _ _ _ _ H). sim_go.
Qed.

Lemma scope_step_sim w pg arg a h :
  objs h !! arg = Some a →
  agrees (InPlace.scope_step w pg arg h) arg (scope_step w pg a (proc_of h))
    (λ _, a) id.
Proof.
  intros H. unfold InPlace.scope_step.
  rewrite (bindO_getattr _ _ _ _ _ H). cbn [id].
  apply (agrees_run (scope_step w pg a) h arg a id); [done|].
  intros q. by destruct (scope_step _ _ _ q) as [? [?|?]].
Qed.

Lemma agrees_bind {A B C} (mo : MO A) (ko : A → MO C) (m : M B) (k : B → M C)
    h arg obj val :
  agrees (mo h) arg (m (proc_of h)) obj val →
  (∀ b h', objs h' !! arg = Some (obj b) →
     same_outcome (ko (val b) h') (k b (proc_of h'))) →
  same_outcome ((mo ≫= ko) h) ((m ≫= k) (proc_of h)).
Proof.
  unfold agrees. rewrite bindO_unfold, bind_unfold.
  destruct (m (proc_of h)) as [p' [b|e]], (mo h) as [h' r]; simpl.
  - intros [-> [Hobj <-]] Hk. by apply Hk.
  - intros [-> <-] _. by split.
Qed.

Lemma agrees_bind_pure {A B C} (mo : MO A) (ko : A → MO C) (b : B) (y : B → M C)
    h arg obj val :
  agrees (mo h) arg (proc_of h, Ret b) obj val →
  (∀ h', objs h' !! arg = Some (obj b) →
     same_outcome (ko (val b) h') (y b (proc_of h'))) →
  same_outcome ((mo ≫= ko) h) (y b (proc_of h)).
Proof.
  unfold agrees. rewrite bindO_unfold.
  destruct (mo h) as [h' r]; simpl.
  intros [-> [Hobj <-]] Hk. by apply Hk.
Qed.

Lemma process_options_resolve_value w ua p :
  process_options w ua p = (parse_step w ua ≫= resolve_value w) p.
Proof.
  unfold process_options, options_prelude, resolve_value.
  rewrite !bind_unfold. destruct (parse_step w ua p) as [p1 [a|e]]; [|done].
  cbv zeta. rewrite !bind_unfold.
  destruct (profiles_step w a p1) as [p2 [profiles|e]]; [|done].
  rewrite !bind_unfold.
  destruct (only_plugins_step w a (PluginGroup a) p2) as [p3 [r|e]]; [|done].
  rewrite !bind_unfold.
  by destruct (except_plugins_step w r.1 p3) as [p4 [a'|e]].
Qed.

(** On an object that holds the attributes [a], the lines after the
    parser do what they do on the value [a]. *)
Lemma resolve_sim w arg a h :
  objs h !! arg = Some a →
  same_outcome (InPlace.resolve w arg h) (resolve_value w a (proc_of h)).
Proof.
  intros H. unfold InPlace.resolve, resolve_value, options_resolve.
  rewrite (bindO_getattr _ _ _ _ _ H).
  apply (agrees_bind _ _ _ _ h arg (λ _, a) id); [by apply profiles_step_sim|].
  clear h H. intros profiles h H. cbn [id].
  apply (agrees_bind _ _ _ _ h arg fst snd); [by apply only_plugins_step_sim|].
  clear h H. intros r h H.
  apply (agrees_bind _ _ _ _ h arg id (λ _, tt)); [by apply except_plugins_step_sim|].
  clear h H. intros a1 h H. cbn [id fst snd]. cbv zeta.
  apply (agrees_bind _ _ _ _ h arg id (λ _, tt)); [by apply tor_step_sim|].
  clear h H. intros a2 h H. cbn [id].
  apply (agrees_bind _ _ _ _ h arg id (λ _, tt)); [by apply outbound_step_sim|].
  clear h H. intros a3 h H. cbn [id].
  apply (agrees_bind _ _ _ _ h arg id (λ _, tt)); [by apply inbound_step_sim|].
  clear h H. intros a4 h H. cbn [id].
  apply (agrees_bind_pure _ _ (plugin_type_step w r.2 a4)
           (λ a5, scope ← scope_step w r.2 a5;
                  check_targets scope;;
                  ret (assemble w a5 r.2 profiles scope))
           h arg id (λ _, tt)); [by apply plugin_type_step_sim|].
  clear h H. intros h H. cbn [id].
  apply (agrees_bind _ _ _ _ h arg (λ _, plugin_type_step w r.2 a4) id);
    [by apply scope_step_sim|].
  clear h H. intros scope h H. cbn [id].
  rewrite bindO_run, bind_unfold.
  destruct (check_targets scope (proc_of h)) as [p' [[]|e]]; [|by split].
  unfold InPlace.assemble.
  rewrite (bindO_getattr _ _ _ _ (plugin_type_step w r.2 a4)) by done.
  by split.
Qed.

(** A run on objects has the outcome and the output of the run on
    values, from every state of the store. *)
Lemma process_options_sim w ua h :
  same_outcome (InPlace.process_options w ua h)
    (process_options w ua (proc_of h)).
Proof.
  rewrite process_options_resolve_value. unfold InPlace.process_options.
  unfold InPlace.parse_step. rewrite bindO_assoc, bindO_run, bind_unfold.
  destruct (parse_step w ua (proc_of h)) as [p1 [a|e]]; [|by split].
  rewrite bindO_unfold. unfold new_object at 1. cbn [with_proc next_ref proc_of objs].
  match goal with
  | |- same_outcome (InPlace.resolve w ?r ?h') _ =>
      apply (resolve_sim w r a h')
  end.
  apply lookup_insert_eq.
Qed.

(** [process_options] reads nothing of its environment but the files, the
    parser and the plugin registry. *)
Lemma same_environment_refl w : same_environment w w.
Proof. by repeat split. Qed.

Lemma same_environment_process_options w w' ua p :
  same_environment w w' → process_options w ua p = process_options w' ua p.
Proof.
  destruct w, w'. unfold same_environment. cbn.
  intros (-> & -> & -> & -> & -> & -> & -> & -> & ->). reflexivity.
Qed.



(** The first run rewrites the namespace it was given: the lines after the
    parser cannot be run a second time on the same object, whose options
    are lists by then. *)
Example resolve_same_object_twice :
  ∃ cfg,
    ((arg ← InPlace.parse_step (sample_world rewritten_ns) ["-o"; "x"];
      InPlace.resolve (sample_world rewritten_ns) arg) ostate0).2 = Ret cfg
    ∧ ((arg ← InPlace.parse_step (sample_world rewritten_ns) ["-o"; "x"];
        InPlace.resolve (sample_world rewritten_ns) arg;;
        InPlace.resolve (sample_world rewritten_ns) arg) ostate0).2
      = Raise AttributeError.
Proof. eexists. split; vm_compute; reflexivity. Qed.

(** The configuration depends on the files: with the scope file rewritten
    between two runs, the same arguments give another scope. *)
Example changed_scope_file_changes_configuration :
  let w := sample_world (set_Targets ["scope.txt"] ns0) in
  let w' := with_file w "scope.txt" (ReadText "c.com") in
  ∃ cfg cfg',
    (InPlace.process_options w ["scope.txt"] ostate0).2 = Ret cfg
    ∧ (InPlace.process_options w' ["scope.txt"] ostate0).2 = Ret cfg'
    ∧ Cfg.Scope cfg = ["a.com"; "b.com"] ∧ Cfg.Scope cfg' = ["c.com"].
Proof. do 2 eexists. repeat split; vm_compute; reflexivity. Qed.


(* ===================================================================== *)
(** ** Splitting and integer literals *)
(* ===================================================================== *)

Lemma app_cons c s t : String c s +:+ t = String c (s +:+ t).
Proof. reflexivity. Qed.

Lemma app_empty_l t : "" +:+ t = t.
Proof. reflexivity. Qed.

Lemma app_empty_r s : s +:+ "" = s.
Proof. induction s as [|c s IH]; [done|]. by rewrite app_cons, IH. Qed.

Lemma prefix_cons a s b t :
  String.prefix (String a s) (String b t)
  = if ascii_dec a b then String.prefix s t else false.
Proof. reflexivity. Qed.

Lemma prefix_empty t : String.prefix "" t = true.
Proof. by destruct t. Qed.

Lemma prefix_cons_ne c0 sep c s :
  c ≠ c0 → String.prefix (String c0 sep) (String c s) = false.
Proof. intros Hc. simpl. destruct (ascii_dec c0 c); congruence. Qed.

Lemma string_forall_impl (P Q : ascii → bool) s :
  (∀ c, P c = true → Q c = true) →
  string_forall P s = true → string_forall Q s = true.
Proof.
  intros HPQ. induction s as [|c s IH]; simpl; [done|].
  rewrite !andb_true_iff. intros [Hc Hs]. auto.
Qed.

(** A stretch without the first character of the separator goes to the
    current field unchanged. *)
Lemma split_go_skip_free c0 sep h t :
  string_forall (λ c, negb (Ascii.eqb c c0)) h = true →
  Py.split_go (String c0 sep) 0 (h +:+ t)
  = (h +:+ (Py.split_go (String c0 sep) 0 t).1,
     (Py.split_go (String c0 sep) 0 t).2).
Proof.
  induction h as [|c h IH]; intros Hh.
  - rewrite !app_empty_l. by destruct (Py.split_go _ _ _).
  - simpl in Hh. apply andb_true_iff in Hh as [Hc Hh].
    apply negb_true_iff, Ascii.eqb_neq in Hc.
    rewrite !app_cons. cbn [Py.split_go].
    rewrite prefix_cons_ne by done. rewrite (IH Hh). reflexivity.
Qed.

Lemma split_go_free c0 sep h :
  string_forall (λ c, negb (Ascii.eqb c c0)) h = true →
  Py.split_go (String c0 sep) 0 h = (h, []).
Proof.
  intros Hh. rewrite <- (app_empty_r h) at 1.
  rewrite split_go_skip_free by done. simpl. by rewrite app_empty_r.
Qed.

Lemma split_go_colon_sep t :
  Py.split_go ":" 0 (":" +:+ t)
  = ("", (Py.split_go ":" 0 t).1 :: (Py.split_go ":" 0 t).2).
Proof. by destruct t. Qed.

Lemma split_go_scheme_sep t :
  Py.split_go "://" 0 ("://" +:+ t)
  = ("", (Py.split_go "://" 0 t).1 :: (Py.split_go "://" 0 t).2).
Proof. by destruct t. Qed.

Lemma split_colon_two host port :
  no_colon host = true → no_colon port = true →
  Py.split ":" (host +:+ ":" +:+ port) = [host; port].
Proof.
  intros Hh Hp. unfold Py.split.
  rewrite (split_go_skip_free ":" "" host) by done.
  rewrite split_go_colon_sep.
  rewrite (split_go_free ":" "" port) by done. simpl.
  by rewrite app_empty_r.
Qed.

Lemma split_colon_three host port port2 :
  no_colon host = true → no_colon port = true → no_colon port2 = true →
  Py.split ":" (host +:+ ":" +:+ port +:+ ":" +:+ port2) = [host; port; port2].
Proof.
  intros Hh Hp Hp2. unfold Py.split.
  rewrite (split_go_skip_free ":" "" host) by done.
  rewrite split_go_colon_sep.
  pose proof (split_colon_two port port2 Hp Hp2) as H2.
  unfold Py.split in H2. injection H2 as -> ->. simpl.
  by rewrite app_empty_r.
Qed.

Lemma prefix_slashes_app f x :
  String.prefix "//" f = false → String.prefix "//" (f +:+ String ":" x) = false.
Proof.
  destruct f as [|a [|b f]].
  - intros _. rewrite app_empty_l. reflexivity.
  - intros _. rewrite app_cons, app_empty_l, prefix_cons.
    destruct (ascii_dec "/" a); reflexivity.
  - by rewrite !app_cons, !prefix_cons, !prefix_empty.
Qed.

(** A colon followed by something that does not start with two slashes is
    no occurrence of [://]. *)
Lemma split_scheme_colon_field f t :
  no_colon f = true →
  String.prefix "//" (f +:+ t) = false →
  Py.split_go "://" 0 (":" +:+ f +:+ t)
  = (":" +:+ f +:+ (Py.split_go "://" 0 t).1, (Py.split_go "://" 0 t).2).
Proof.
  intros Hf Hpre.
  change (":" +:+ f +:+ t) with (String ":" (f +:+ t)). cbn [Py.split_go].
  assert (String.prefix "://" (String ":" (f +:+ t)) = false) as ->.
  { rewrite prefix_cons. by destruct (ascii_dec ":" ":"). }
  rewrite (split_go_skip_free ":" "//" f t) by done. reflexivity.
Qed.

Lemma split_scheme_rest scheme rest :
  no_colon scheme = true →
  Py.split "://" (scheme +:+ "://" +:+ rest) = scheme :: Py.split "://" rest.
Proof.
  intros Hs. unfold Py.split.
  rewrite (split_go_skip_free ":" "//" scheme) by done.
  rewrite split_go_scheme_sep. simpl. by rewrite app_empty_r.
Qed.

Lemma split_go_scheme_last port :
  no_colon port = true → String.prefix "//" port = false →
  Py.split_go "://" 0 (":" +:+ port) = (":" +:+ port, []).
Proof.
  intros Hp Hpre.
  pose proof (split_scheme_colon_field port "" Hp) as Hgo.
  rewrite !app_empty_r in Hgo. by rewrite (Hgo Hpre).
Qed.

Lemma split_scheme_two host port :
  no_colon host = true → no_colon port = true →
  String.prefix "//" port = false →
  Py.split "://" (host +:+ ":" +:+ port) = [host +:+ ":" +:+ port].
Proof.
  intros Hh Hp Hpre. unfold Py.split.
  rewrite (split_go_skip_free ":" "//" host) by done.
  by rewrite split_go_scheme_last.
Qed.

Lemma split_scheme_three host port port2 :
  no_colon host = true → colon_field port = true →
  no_colon port2 = true → String.prefix "//" port2 = false →
  Py.split "://" (host +:+ ":" +:+ port +:+ ":" +:+ port2)
  = [host +:+ ":" +:+ port +:+ ":" +:+ port2].
Proof.
  intros Hh Hp Hp2 Hpre2. unfold Py.split.
  apply andb_true_iff in Hp as [Hp Hpre]. apply negb_true_iff in Hpre.
  rewrite (split_go_skip_free ":" "//" host) by done.
  rewrite split_scheme_colon_field; [|done|by apply prefix_slashes_app].
  by rewrite split_go_scheme_last.
Qed.

Lemma int_char_digit c d : Py.digit_val c = Some d → int_char c = true.
Proof.
  intros H. unfold int_char. rewrite H.
  rewrite (bool_decide_eq_true_2 _ (mk_is_Some _ _ eq_refl)).
  by rewrite !orb_true_r.
Qed.

Lemma int_digits_chars s : ∀ b acc n,
  Py.int_digits b acc s = Some n → string_forall int_char s = true.
Proof.
  induction s as [|c s IH]; intros b acc n H; [done|].
  simpl in H. simpl string_forall.
  destruct (Py.digit_val c) as [d|] eqn:Hd.
  - rewrite (int_char_digit c d Hd). simpl. eauto.
  - destruct (Ascii.eqb c "_") eqn:Hc; [|done].
    destruct b; [|done]. simpl in H.
    destruct s as [|c' s']; [done|].
    destruct (Py.digit_val c') eqn:Hd'; [|done].
    apply Ascii.eqb_eq in Hc as ->. simpl. eauto.
Qed.

Lemma lstrip_with_forall (sp P : ascii → bool) s :
  (∀ c, sp c = true → P c = true) →
  string_forall P (Py.lstrip_with sp s) = true → string_forall P s = true.
Proof.
  intros HP. induction s as [|c s IH]; [done|]. simpl.
  destruct (sp c) eqn:Hc; [|done].
  intros H. by rewrite (HP c Hc), (IH H).
Qed.

Lemma rstrip_with_forall (sp P : ascii → bool) s :
  (∀ c, sp c = true → P c = true) →
  string_forall P (Py.rstrip_with sp s) = true → string_forall P s = true.
Proof.
  intros HP. induction s as [|c s IH]; [done|]. simpl.
  destruct (sp c) eqn:Hc; simpl.
  - destruct (Py.is_empty (Py.rstrip_with sp s)) eqn:He.
    + intros _. rewrite (HP c Hc). simpl. apply IH.
      by destruct (Py.rstrip_with sp s).
    + simpl. rewrite !andb_true_iff. intros [? ?]. auto.
  - rewrite !andb_true_iff. intros [? ?]. auto.
Qed.

Lemma int_chars s n : Py.int s = Some n → string_forall int_char s = true.
Proof.
  unfold Py.int. cbv zeta. intros H.
  destruct (Py.max_str_digits <? _); [done|].
  apply (lstrip_with_forall Py.is_int_space), (rstrip_with_forall Py.is_int_space);
    try (by intros c Hc; unfold int_char; rewrite Hc).
  destruct (Py.rstrip_with _ _) as [|c t]; [done|].
  destruct c as [[] [] [] [] [] [] [] []];
    first [ by apply int_digits_chars in H
          | apply fmap_Some in H as (m & H & _);
            by apply int_digits_chars in H ].
Qed.

Lemma int_char_no_colon c : int_char c = true → negb (Ascii.eqb c ":") = true.
Proof. by destruct c as [[] [] [] [] [] [] [] []]. Qed.

Lemma int_colon_field s n : Py.int s = Some n → colon_field s = true.
Proof.
  intros H. apply int_chars in H. unfold colon_field.
  apply andb_true_iff. split.
  - by eapply string_forall_impl; [apply int_char_no_colon|].
  - destruct s as [|a s]; [done|]. rewrite prefix_cons.
    destruct (ascii_dec "/" a) as [<-|]; [|done].
    vm_compute in H. discriminate H.
Qed.

(* ===================================================================== *)
(** ** The outbound proxy *)
(* ===================================================================== *)

Lemma scheme_facts scheme :
  scheme ∈ ["socks"; "http"] → no_colon scheme = true ∧ scheme ≠ "".
Proof.
  intros H. apply list_elem_of_In in H. simpl in H.
  destruct H as [<-|[<-|[]]]; by split.
Qed.

Lemma app_nonempty_l s t : s ≠ "" → s +:+ t ≠ "".
Proof. destruct s as [|c s]; [done|]. by rewrite app_cons. Qed.

(** What [outbound_step] does once [split('://')] has produced a scheme
    and a remainder. *)
Lemma outbound_step_with_scheme arg s scheme rest p :
  OutboundProxy arg = VStr s → s ≠ "" →
  Py.split "://" s = [scheme; rest] →
  scheme ∈ ["socks"; "http"] →
  outbound_step arg p
  = (check_port (scheme :: Py.split ":" rest) [2; 3]%nat
       "Invalid argument for Outbound Proxy"
       "Invalid port provided for Outbound Proxy";;
     ret (set_OutboundProxy (VList (scheme :: Py.split ":" rest)) arg)) p.
Proof.
  intros Ho Hs Hsplit Hscheme. unfold outbound_step.
  rewrite Ho, nonempty_truthy by done.
  rewrite (bind_Ret (as_str (VStr s)) _ p p s eq_refl).
  cbv zeta. rewrite Hsplit.
  unfold mbind, M_bind, bind, ret, lift, list_pop, list_index.
  cbn [length Nat.eqb last removelast app fst snd lookup list_lookup].
  by rewrite bool_decide_eq_true_2.
Qed.

(** C5 (as amended).  An outbound spec [scheme://host:port] with a scheme
    among socks and http, a colon-free host and a final field accepted by
    [int] is accepted, and the option becomes the list of its three parts.
    With an extra field, [scheme://host:port:port2], where [port] holds no
    colon and does not begin with two slashes, the scheme is counted as
    well: there are four fields and the spec is rejected with the usage
    error, although its final field is an integer. *)
Theorem outbound_scheme_host_port arg scheme host last_field n p :
  scheme ∈ ["socks"; "http"] →
  no_colon host = true →
  Py.int last_field = Some n →
  (OutboundProxy arg = VStr (scheme +:+ "://" +:+ host +:+ ":" +:+ last_field) →
   outbound_step arg p
   = (p, Ret (set_OutboundProxy (VList [scheme; host; last_field]) arg)))
  ∧ (∀ port, colon_field port = true →
       OutboundProxy arg
       = VStr (scheme +:+ "://" +:+ host +:+ ":" +:+ port +:+ ":" +:+ last_field) →
       outbound_step arg p
       = (add_events p [EvUsage "Invalid argument for Outbound Proxy"],
          Raise (UsageError "Invalid argument for Outbound Proxy"))).
Proof.
  intros Hscheme Hhost Hint.
  destruct (scheme_facts scheme Hscheme) as [Hsc Hne].
  pose proof (int_colon_field _ _ Hint) as Hlast.
  apply andb_true_iff in Hlast as [Hlc Hlp]. apply negb_true_iff in Hlp.
  split.
  - intros Ho.
    rewrite (outbound_step_with_scheme arg _ scheme (host +:+ ":" +:+ last_field) p Ho);
      [|by apply app_nonempty_l| |done].
    + rewrite split_colon_two by done.
      unfold check_port, mbind, M_bind, bind, lift, list_last. simpl.
      by rewrite Hint.
    + rewrite split_scheme_rest by done. by rewrite split_scheme_two.
  - intros port Hport Ho.
    pose proof Hport as Hport'. apply andb_true_iff in Hport' as [Hpc _].
    rewrite (outbound_step_with_scheme arg _ scheme
               (host +:+ ":" +:+ port +:+ ":" +:+ last_field) p Ho);
      [|by apply app_nonempty_l| |done].
    + by rewrite split_colon_three.
    + rewrite split_scheme_rest by done. by rewrite split_scheme_three.
Qed.

Lemma outbound_scheme_host_port_witness :
  outbound_step (set_OutboundProxy (VStr "socks://127.0.0.1:9050") ns0) proc0
  = (proc0, Ret (set_OutboundProxy (VList ["socks"; "127.0.0.1"; "9050"])
                   (set_OutboundProxy (VStr "socks://127.0.0.1:9050") ns0)))
  ∧ outbound_step (set_OutboundProxy (VStr "socks://127.0.0.1:9050:1") ns0) proc0
    = (add_events proc0 [EvUsage "Invalid argument for Outbound Proxy"],
       Raise (UsageError "Invalid argument for Outbound Proxy")).
Proof.
  split.
  - apply (proj1 (outbound_scheme_host_port
                    (set_OutboundProxy (VStr "socks://127.0.0.1:9050") ns0)
                    "socks" "127.0.0.1" "9050" 9050 proc0
                    ltac:(constructor) eq_refl eq_refl)).
    reflexivity.
  - apply (proj2 (outbound_scheme_host_port
                    (set_OutboundProxy (VStr "socks://127.0.0.1:9050:1") ns0)
                    "socks" "127.0.0.1" "1" 1 proc0
                    ltac:(constructor) eq_refl eq_refl) "9050" eq_refl).
    reflexivity.
Defined.

(** C5 (as stated) fails: [socks://h:1:2] has the form
    [scheme://host:port:port2] with an integer final field and is
    rejected with a usage error. *)
Lemma outbound_extra_field_rejected :
  Py.int "2" = Some 2
  ∧ outbound_step (set_OutboundProxy (VStr "socks://h:1:2") ns0) proc0
    = (add_events proc0 [EvUsage "Invalid argument for Outbound Proxy"],
       Raise (UsageError "Invalid argument for Outbound Proxy"))
  ∧ (process_options (sample_world (set_OutboundProxy (VStr "socks://h:1:2") ns0))
       [] proc0).2
    = Raise (UsageError "Invalid argument for Outbound Proxy").
Proof. vm_compute. repeat split. Qed.

(* ===================================================================== *)
(** ** Fields of a colon-separated spec *)
(* ===================================================================== *)

Lemma split_go_char_step c a s :
  Py.split_go (String c "") 0 (String a s)
  = if Ascii.eqb a c
    then ("", (Py.split_go (String c "") 0 s).1 :: (Py.split_go (String c "") 0 s).2)
    else (String a (Py.split_go (String c "") 0 s).1, (Py.split_go (String c "") 0 s).2).
Proof.
  cbn [Py.split_go]. rewrite prefix_cons, prefix_empty.
  destruct (ascii_dec c a) as [->|Hne].
  - by rewrite Ascii.eqb_refl.
  - destruct (Ascii.eqb_spec a c); [congruence|done].
Qed.

Lemma split_go_char_count c s :
  length (Py.split_go (String c "") 0 s).2 = count_char c s.
Proof.
  induction s as [|a s IH]; [done|].
  rewrite split_go_char_step. simpl count_char.
  destruct (Ascii.eqb a c); simpl; by rewrite IH.
Qed.

Lemma split_go_char_free c s :
  string_forall (λ x, negb (Ascii.eqb x c)) (Py.split_go (String c "") 0 s).1 = true
  ∧ Forall (λ f, string_forall (λ x, negb (Ascii.eqb x c)) f = true)
      (Py.split_go (String c "") 0 s).2.
Proof.
  induction s as [|a s [IH1 IH2]]; [by split|].
  rewrite split_go_char_step. destruct (Ascii.eqb a c) eqn:Hac; simpl.
  - split; [done|]. by constructor.
  - rewrite Hac. by split.
Qed.

(** One field more than there are colons, and no colon in any field. *)
Lemma split_colon_fields s :
  length (Py.split ":" s) = S (count_char ":" s)
  ∧ Forall (λ f, no_colon f = true) (Py.split ":" s).
Proof.
  unfold Py.split. split.
  - simpl. by rewrite split_go_char_count.
  - destruct (split_go_char_free ":" s) as [H1 H2]. by constructor.
Qed.

Lemma tor_step_help arg s p :
  TOR_mode arg = VStr s →
  head (Py.split ":" s) = Some "help" →
  tor_step arg p = (add_events p [EvTorHelp], Raise (SystemExit 0)).
Proof.
  intros Htor Hhd. unfold tor_step. rewrite Htor.
  destruct s as [|c s]; [vm_compute in Hhd; congruence|].
  simpl truthy. cbv iota.
  unfold as_str, mbind, M_bind, bind, ret.
  rewrite split_cons in *. simpl in Hhd. simplify_eq. simpl.
  rewrite Hhd. reflexivity.
Qed.

Lemma tor_step_wrong_count arg s p :
  TOR_mode arg = VStr s → s ≠ "" →
  head (Py.split ":" s) ≠ Some "help" →
  length (Py.split ":" s) ≠ 5%nat →
  tor_step arg p
  = (add_events p [EvUsage "Invalid argument for TOR-mode"],
     Raise (UsageError "Invalid argument for TOR-mode")).
Proof.
  intros Htor Hs Hhd Hlen. unfold tor_step.
  rewrite Htor, nonempty_truthy by done.
  rewrite (bind_Ret (as_str (VStr s)) _ p p s eq_refl). cbv zeta.
  rewrite split_cons in *. simpl in Hhd.
  set (f0 := (Py.split_go ":" 0 s).1) in *.
  set (fs := (Py.split_go ":" 0 s).2) in *.
  unfold mbind, M_bind, bind, lift, list_index. simpl lookup. cbv iota beta.
  rewrite bool_decide_eq_false_2 by congruence. simpl ret. cbv iota beta.
  destruct (length (f0 :: fs) =? 1)%nat.
  - rewrite bool_decide_eq_true_2 by congruence. reflexivity.
  - destruct (Nat.eqb_spec (length (f0 :: fs)) 5); [done|]. reflexivity.
Qed.

(** X1.  A TOR spec whose first field is not [help] and that does not
    have exactly four colons is rejected with the TOR usage error,
    without touching the outbound proxy option. *)
Theorem tor_mode_needs_four_colons arg s p :
  TOR_mode arg = VStr s → s ≠ "" →
  head (Py.split ":" s) ≠ Some "help" →
  count_char ":" s ≠ 4%nat →
  tor_step arg p
  = (add_events p [EvUsage "Invalid argument for TOR-mode"],
     Raise (UsageError "Invalid argument for TOR-mode")).
Proof.
  intros Htor Hs Hhd Hcount. apply (tor_step_wrong_count arg s p); try done.
  destruct (split_colon_fields s) as [Hlen _]. lia.
Qed.

Lemma tor_mode_needs_four_colons_witness :
  tor_step (set_TOR_mode (VStr ":::flag") ns0) proc0
  = (add_events proc0 [EvUsage "Invalid argument for TOR-mode"],
     Raise (UsageError "Invalid argument for TOR-mode")).
Proof.
  apply (tor_mode_needs_four_colons (set_TOR_mode (VStr ":::flag") ns0) ":::flag" proc0).
  - reflexivity.
  - done.
  - vm_compute. congruence.
  - vm_compute. lia.
Defined.

(** X2.  With a TOR option given, resolution never returns a
    configuration: it ends in the help exit (status 0) when the first
    field is [help] and in a usage error otherwise, whatever the other
    options are. *)
Theorem tor_mode_never_resolves w arg pg profiles s p :
  TOR_mode arg = VStr s → s ≠ "" →
  (head (Py.split ":" s) = Some "help"
   ∧ (options_resolve w (arg, pg, profiles) p).2 = Raise (SystemExit 0))
  ∨ (head (Py.split ":" s) ≠ Some "help"
     ∧ ∃ msg, (options_resolve w (arg, pg, profiles) p).2 = Raise (UsageError msg)).
Proof.
  intros Htor Hs. unfold options_resolve. cbn [fst snd].
  destruct (decide (head (Py.split ":" s) = Some "help")) as [Hhelp|Hhelp].
  { left. split; [done|].
    by rewrite (bind_Raise _ _ _ _ _ (tor_step_help arg s p Htor Hhelp)). }
  right. split; [done|].
  destruct (decide (length (Py.split ":" s) = 5%nat)) as [Hlen|Hlen].
  - rewrite (bind_Ret _ _ _ _ _ (tor_step_five_fields arg s p Htor Hlen Hhelp)).
    erewrite bind_Raise; [by eexists|].
    by apply outbound_step_percent.
  - rewrite (bind_Raise _ _ _ _ _ (tor_step_wrong_count arg s p Htor Hs Hhelp Hlen)).
    by eexists.
Qed.

Lemma tor_mode_never_resolves_witness :
  ∃ msg, (options_resolve (sample_world ns0)
            (set_TOR_mode (VStr "10.0.0.1:9051:u:p:f") ns0, VStr "web", ∅) proc0).2
         = Raise (UsageError msg).
Proof.
  destruct (tor_mode_never_resolves (sample_world ns0)
              (set_TOR_mode (VStr "10.0.0.1:9051:u:p:f") ns0) (VStr "web") ∅
              "10.0.0.1:9051:u:p:f" proc0 eq_refl) as [[Hh _]|[_ H]].
  - done.
  - vm_compute in Hh. discriminate Hh.
  - exact H.
Defined.

(* ===================================================================== *)
(** ** Custom profiles *)
(* ===================================================================== *)

Lemma profile_round_cases w acc profile p :
  (∃ name path, Py.split ":" profile = [name; path]
                ∧ os_path_exists w path = true
                ∧ profile_round w acc profile p = (p, Ret (<[name := path]> acc)))
  ∨ (¬ valid_profile w profile
     ∧ profile_round w acc profile p
       = (add_events p [EvUsage "Invalid Profile"], Raise (UsageError "Invalid Profile"))).
Proof.
  unfold profile_round, valid_profile.
  destruct (Py.split ":" profile) as [|name [|path [|x l]]] eqn:Hsplit;
    try (right; split; [by intros (? & ? & ? & ?)|reflexivity]).
  destruct (os_path_exists w path) eqn:Hex; simpl.
  - left. by exists name, path.
  - right. split; [|reflexivity].
    intros (n' & p' & Heq & Hex'). congruence.
Qed.

Lemma for_each_profile_round_invalid w l : ∀ acc p,
  ¬ Forall (valid_profile w) l →
  for_each (profile_round w) l acc p
  = (add_events p [EvUsage "Invalid Profile"], Raise (UsageError "Invalid Profile")).
Proof.
  induction l as [|x l IH]; intros acc p Hbad; [by destruct Hbad|].
  simpl. destruct (profile_round_cases w acc x p)
    as [(name & path & Hs & Hex & Hr)|[Hinv Hr]].
  - rewrite (bind_Ret _ _ _ _ _ Hr). apply IH. intros Hall. apply Hbad.
    constructor; [by exists name, path|done].
  - by rewrite (bind_Raise _ _ _ _ _ Hr).
Qed.

Lemma for_each_profile_round_Ret w l : ∀ acc p p' profiles,
  for_each (profile_round w) l acc p = (p', Ret profiles) →
  p' = p
  ∧ Forall (valid_profile w) l
  ∧ (∀ name path, profiles !! name = Some path →
       acc !! name = Some path
       ∨ (os_path_exists w path = true
          ∧ ∃ profile, profile ∈ l ∧ Py.split ":" profile = [name; path]))
  ∧ (∀ name, is_Some (acc !! name) → is_Some (profiles !! name))
  ∧ (∀ profile name path, profile ∈ l → Py.split ":" profile = [name; path] →
       is_Some (profiles !! name)).
Proof.
  induction l as [|x l IH]; intros acc p p' profiles Hrun.
  - simpl in Hrun. unfold ret in Hrun. simplify_eq.
    repeat split; [constructor|by left|done|].
    intros ? ? ? Hin. by apply elem_of_nil in Hin.
  - simpl in Hrun. destruct (profile_round_cases w acc x p)
      as [(name & path & Hs & Hex & Hr)|[Hinv Hr]].
    + rewrite (bind_Ret _ _ _ _ _ Hr) in Hrun.
      apply IH in Hrun as (-> & Hall & Hfrom & Hkeep & Hkeys).
      split; [done|]. split; [constructor; [by exists name, path|done]|].
      split; [|split].
      * intros n pth Hl. destruct (Hfrom n pth Hl) as [Hacc|(He & prof & Hin & Hsp)].
        -- destruct (decide (name = n)) as [->|Hne].
           ++ rewrite lookup_insert_eq in Hacc. simplify_eq. right.
              split; [done|]. exists x. split; [constructor|done].
           ++ rewrite lookup_insert_ne in Hacc by done. by left.
        -- right. split; [done|]. exists prof. split; [by constructor|done].
      * intros n Hn. apply Hkeep. destruct (decide (name = n)) as [->|Hne].
        -- rewrite lookup_insert_eq. by eexists.
        -- by rewrite lookup_insert_ne.
      * intros prof n pth Hin Hsp. apply elem_of_cons in Hin as [->|Hin].
        -- apply Hkeep. rewrite Hs in Hsp. simplify_eq.
           rewrite lookup_insert_eq. by eexists.
        -- by eapply Hkeys.
    + by rewrite (bind_Raise _ _ _ _ _ Hr) in Hrun.
Qed.

(** X3.  When the custom-profile step returns, it has printed nothing,
    every spec of the comma-separated list had exactly two colon-separated
    parts with an existing path, every entry of the returned dict comes
    from such a spec (so every stored path exists), and every spec's name
    is a key of the dict. *)
Theorem profiles_step_entries_exist w arg s p p' profiles :
  CustomProfile arg = VStr s → s ≠ "" →
  profiles_step w arg p = (p', Ret profiles) →
  p' = p
  ∧ Forall (valid_profile w) (Py.split "," s)
  ∧ (∀ name path, profiles !! name = Some path →
       os_path_exists w path = true
       ∧ ∃ profile, profile ∈ Py.split "," s ∧ Py.split ":" profile = [name; path])
  ∧ (∀ profile name path,
       profile ∈ Py.split "," s → Py.split ":" profile = [name; path] →
       is_Some (profiles !! name)).
Proof.
  intros Hc Hs Hrun. unfold profiles_step in Hrun.
  rewrite Hc, nonempty_truthy in Hrun by done.
  rewrite (bind_Ret (as_str (VStr s)) _ p p s eq_refl) in Hrun.
  apply for_each_profile_round_Ret in Hrun as (-> & Hall & Hfrom & _ & Hkeys).
  split; [done|]. split; [done|]. split; [|done].
  intros name path Hl. destruct (Hfrom name path Hl) as [Hempty|H]; [|done].
  by rewrite lookup_empty in Hempty.
Qed.

Lemma profiles_step_entries_exist_witness :
  ∃ profiles,
    (profiles_step (sample_world ns0)
       (set_CustomProfile (VStr "general:scope.txt,net:scope.txt") ns0) proc0).2
    = Ret profiles
    ∧ ∀ name path, profiles !! name = Some path →
        os_path_exists (sample_world ns0) path = true.
Proof.
  destruct (profiles_step (sample_world ns0)
              (set_CustomProfile (VStr "general:scope.txt,net:scope.txt") ns0) proc0)
    as [p' [profiles|e]] eqn:Hrun.
  - exists profiles. split; [reflexivity|].
    intros name path Hl.
    destruct (profiles_step_entries_exist (sample_world ns0)
                (set_CustomProfile (VStr "general:scope.txt,net:scope.txt") ns0)
                "general:scope.txt,net:scope.txt" proc0 p' profiles eq_refl
                ltac:(done) Hrun) as (_ & _ & Hfrom & _).
    exact (proj1 (Hfrom name path Hl)).
  - vm_compute in Hrun. discriminate Hrun.
Defined.

(** X4.  As soon as one spec of the custom-profile list does not have
    exactly two colon-separated parts with an existing path, resolution
    ends with the Invalid Profile usage error, and that message is the only
    thing it emits: no plugin, proxy or scope step has run. *)
Theorem invalid_profile_stops_resolution w user_args arg s profile p :
  parse_options w user_args (get_all_plugin_groups w)
    (get_all_plugin_types w ++ ["all"; "quiet"]) = Ret arg →
  CustomProfile arg = VStr s → s ≠ "" →
  profile ∈ Py.split "," s →
  ¬ valid_profile w profile →
  process_options w user_args p
  = (add_events p [EvUsage "Invalid Profile"], Raise (UsageError "Invalid Profile")).
Proof.
  intros Hparse Hc Hs Hin Hbad.
  assert (Hp : parse_step w user_args p = (p, Ret arg)).
  { unfold parse_step, try_except, lift. by rewrite Hparse. }
  assert (Hprof : profiles_step w arg p
                  = (add_events p [EvUsage "Invalid Profile"],
                     Raise (UsageError "Invalid Profile"))).
  { unfold profiles_step. rewrite Hc, nonempty_truthy by done.
    rewrite (bind_Ret (as_str (VStr s)) _ p p s eq_refl).
    apply for_each_profile_round_invalid. intros Hall.
    apply Hbad. by eapply Forall_forall in Hall. }
  unfold process_options. erewrite bind_Raise; [reflexivity|].
  unfold options_prelude. rewrite (bind_Ret _ _ _ _ _ Hp).
  by rewrite (bind_Raise _ _ _ _ _ Hprof).
Qed.

Lemma invalid_profile_stops_resolution_witness :
  process_options
    (sample_world
       (set_CustomProfile (VStr "general:/tmp/missing.yaml")
          (set_TOR_mode (VStr "bad") (set_OnlyPlugins (VStr "x,y")
             (set_Targets ["-x"] ns0)))))
    [] proc0
  = (add_events proc0 [EvUsage "Invalid Profile"], Raise (UsageError "Invalid Profile")).
Proof.
  apply (invalid_profile_stops_resolution
           (sample_world
              (set_CustomProfile (VStr "general:/tmp/missing.yaml")
                 (set_TOR_mode (VStr "bad") (set_OnlyPlugins (VStr "x,y")
                    (set_Targets ["-x"] ns0)))))
           []
           (set_CustomProfile (VStr "general:/tmp/missing.yaml")
              (set_TOR_mode (VStr "bad") (set_OnlyPlugins (VStr "x,y")
                 (set_Targets ["-x"] ns0))))
           "general:/tmp/missing.yaml" "general:/tmp/missing.yaml" proc0).
  - reflexivity.
  - reflexivity.
  - done.
  - vm_compute. constructor.
  - intros (name & path & Hsplit & Hex). vm_compute in Hsplit.
    injection Hsplit as <- <-. vm_compute in Hex. discriminate Hex.
Defined.

(* ===================================================================== *)
(** ** Which attributes each step assigns *)
(* ===================================================================== *)

Ltac keeps_tac H :=
  inv_Ret H; try discriminate H;
  injection H as _ <-; unfold keeps_flags, keeps_plugin_lists, keeps_proxies;
  repeat split.

Lemma tor_step_keeps arg p p' arg' :
  tor_step arg p = (p', Ret arg') →
  keeps_flags arg arg' ∧ keeps_plugin_lists arg arg'
  ∧ PluginType arg' = PluginType arg ∧ InboundProxy arg' = InboundProxy arg.
Proof. unfold tor_step. intros H. keeps_tac H. Qed.

Lemma outbound_step_keeps arg p p' arg' :
  outbound_step arg p = (p', Ret arg') →
  keeps_flags arg arg' ∧ keeps_plugin_lists arg arg'
  ∧ PluginType arg' = PluginType arg ∧ InboundProxy arg' = InboundProxy arg
  ∧ TOR_mode arg' = TOR_mode arg.
Proof. unfold outbound_step. intros H. keeps_tac H. Qed.

Lemma inbound_step_keeps arg p p' arg' :
  inbound_step arg p = (p', Ret arg') →
  keeps_flags arg arg' ∧ keeps_plugin_lists arg arg'
  ∧ PluginType arg' = PluginType arg ∧ OutboundProxy arg' = OutboundProxy arg
  ∧ TOR_mode arg' = TOR_mode arg.
Proof. unfold inbound_step. intros H. keeps_tac H. Qed.

Lemma plugin_type_step_keeps w pg arg :
  keeps_flags arg (plugin_type_step w pg arg)
  ∧ keeps_plugin_lists arg (plugin_type_step w pg arg)
  ∧ keeps_proxies arg (plugin_type_step w pg arg).
Proof. unfold plugin_type_step. by repeat case_bool_decide. Qed.

Lemma keeps_flags_trans a b c :
  keeps_flags a b → keeps_flags b c → keeps_flags a c.
Proof.
  unfold keeps_flags. intros H1 H2.
  destruct_and!. repeat split; congruence.
Qed.

Lemma keeps_plugin_lists_trans a b c :
  keeps_plugin_lists a b → keeps_plugin_lists b c → keeps_plugin_lists a c.
Proof. unfold keeps_plugin_lists. intros [-> ->] [-> ->]. done. Qed.

Lemma get_plugins_from_arg_Ret w s p p' r :
  get_plugins_from_arg w s p = (p', Ret r) →
  p' = p ∧ r = (Py.split "," s, get_groups_for_plugins w (Py.split "," s))
  ∧ (length (get_groups_for_plugins w (Py.split "," s)) ≤ 1)%nat.
Proof.
  unfold get_plugins_from_arg.
  destruct (1 <? length _)%nat eqn:Hlen.
  - intros H. apply bind_inv_Ret in H as (? & ? & H & _).
    apply bind_inv_Ret in H as (? & ? & _ & H). discriminate H.
  - unfold mbind, M_bind, bind, ret. simpl. intros [= <- <-].
    apply Nat.ltb_ge in Hlen. done.
Qed.

Lemma only_plugins_step_inv w arg pg p p' r :
  only_plugins_step w arg pg p = (p', Ret r) →
  (truthy (OnlyPlugins arg) = false ∧ r = (arg, pg) ∧ p' = p)
  ∨ ∃ s g,
      OnlyPlugins arg = VStr s ∧ s ≠ ""
      ∧ get_groups_for_plugins w (Py.split "," s) = [g]
      ∧ r = (set_OnlyPlugins (VList (Py.split "," s)) arg, VStr g)
      ∧ p' = add_events p
               [EvLogInfo ("Defaulting Plugin Group to '" +:+ g
                           +:+ "' based on list of plugins supplied")].
Proof.
  unfold only_plugins_step. destruct (truthy (OnlyPlugins arg)) eqn:Ht.
  2:{ unfold ret. intros [= <- <-]. by left. }
  intros H. right.
  destruct (OnlyPlugins arg) as [| | |s|] eqn:Ho;
    try (apply bind_inv_Ret in H as (? & ? & H & _); discriminate H).
  rewrite (bind_Ret (as_str (VStr s)) _ p p s eq_refl) in H.
  apply bind_inv_Ret in H as (r0 & p1 & Hget & H).
  apply get_plugins_from_arg_Ret in Hget as (-> & -> & Hlen).
  cbv zeta in H. cbn [fst snd] in H.
  destruct (get_groups_for_plugins w (Py.split "," s)) as [|g [|g' l]] eqn:Hg.
  - apply bind_inv_Ret in H as (? & ? & H & _). discriminate H.
  - exists s, g. split; [done|]. split; [by destruct s|].
    split; [done|].
    unfold mbind, M_bind, bind, try_except, lift, list_first, ret,
      logging_info, emit in H. simpl in H. by injection H as <- <-.
  - simpl in Hlen. lia.
Qed.

Lemma except_plugins_step_inv w arg p p' arg' :
  except_plugins_step w arg p = (p', Ret arg') →
  p' = p
  ∧ ((truthy (ExceptPlugins arg) = false ∧ arg' = arg)
     ∨ ∃ s, ExceptPlugins arg = VStr s ∧ s ≠ ""
            ∧ (length (get_groups_for_plugins w (Py.split "," s)) ≤ 1)%nat
            ∧ arg' = set_ExceptPlugins (VList (Py.split "," s)) arg).
Proof.
  unfold except_plugins_step. destruct (truthy (ExceptPlugins arg)) eqn:Ht.
  2:{ unfold ret. intros [= <- <-]. split; [done|]. by left. }
  intros H.
  destruct (ExceptPlugins arg) as [| | |s|] eqn:Ho;
    try (apply bind_inv_Ret in H as (? & ? & H & _); discriminate H).
  rewrite (bind_Ret (as_str (VStr s)) _ p p s eq_refl) in H.
  apply bind_inv_Ret in H as (r0 & p1 & Hget & H).
  apply get_plugins_from_arg_Ret in Hget as (-> & -> & Hlen).
  unfold mret, M_ret, ret in H. injection H as <- <-.
  split; [done|]. right. exists s. split; [done|]. split; [by destruct s|]. done.
Qed.

Lemma resolve_steps_keep arg p1 a1 p2 a2 p3 a3 :
  tor_step arg p1 = (p2, Ret a1) →
  outbound_step a1 p2 = (p3, Ret a2) →
  ∀ p4, inbound_step a2 p3 = (p4, Ret a3) →
  keeps_flags arg a3 ∧ keeps_plugin_lists arg a3 ∧ PluginType a3 = PluginType arg.
Proof.
  intros H1 H2 p4 H3.
  apply tor_step_keeps in H1 as (F1 & L1 & T1 & _).
  apply outbound_step_keeps in H2 as (F2 & L2 & T2 & _).
  apply inbound_step_keeps in H3 as (F3 & L3 & T3 & _).
  split; [eauto using keeps_flags_trans|].
  split; [eauto using keeps_plugin_lists_trans|]. congruence.
Qed.

(** Everything a returned configuration went through, step by step. *)
Lemma process_options_inv w ua p p' cfg :
  process_options w ua p = (p', Ret cfg) →
  ∃ arg0 arg1 arg2 arg3 pg profiles scope,
    parse_options w ua (get_all_plugin_groups w)
      (get_all_plugin_types w ++ ["all"; "quiet"]) = Ret arg0
    ∧ ((truthy (OnlyPlugins arg0) = false ∧ arg1 = arg0 ∧ pg = PluginGroup arg0)
       ∨ ∃ s g, OnlyPlugins arg0 = VStr s ∧ s ≠ ""
                ∧ get_groups_for_plugins w (Py.split "," s) = [g]
                ∧ arg1 = set_OnlyPlugins (VList (Py.split "," s)) arg0
                ∧ pg = VStr g)
    ∧ ((truthy (ExceptPlugins arg1) = false ∧ arg2 = arg1)
       ∨ ∃ s, ExceptPlugins arg1 = VStr s ∧ s ≠ ""
              ∧ (length (get_groups_for_plugins w (Py.split "," s)) ≤ 1)%nat
              ∧ arg2 = set_ExceptPlugins (VList (Py.split "," s)) arg1)
    ∧ keeps_flags arg2 arg3 ∧ keeps_plugin_lists arg2 arg3
    ∧ PluginType arg3 = PluginType arg2
    ∧ cfg = assemble w (plugin_type_step w pg arg3) pg profiles scope.
Proof.
  unfold process_options. intros H.
  apply bind_inv_Ret in H as ([[arg pg] profiles] & pa & Hpre & H).
  unfold options_prelude in Hpre.
  apply bind_inv_Ret in Hpre as (arg0 & pb & Hparse & Hpre).
  apply parse_step_Ret in Hparse.
  apply bind_inv_Ret in Hpre as (prof & pc & _ & Hpre).
  apply bind_inv_Ret in Hpre as (r & pd & Ho & Hpre).
  apply bind_inv_Ret in Hpre as (arg2 & pe & He & Hpre).
  unfold mret, M_ret, ret in Hpre. injection Hpre as <- <- <- <-.
  unfold options_resolve in H. cbn [fst snd] in H.
  apply bind_inv_Ret in H as (a1 & p1 & H1 & H).
  apply bind_inv_Ret in H as (a2 & p2 & H2 & H).
  apply bind_inv_Ret in H as (a3 & p3 & H3 & H).
  apply bind_inv_Ret in H as (scope & p4 & _ & H).
  apply bind_inv_Ret in H as ([] & p5 & _ & H).
  unfold mret, M_ret, ret in H. injection H as <- <-.
  destruct (resolve_steps_keep _ _ _ _ _ _ _ H1 H2 _ H3) as (F & L & T).
  apply except_plugins_step_inv in He as (_ & He).
  exists arg0, r.1, arg2, a3, r.2, prof, scope.
  split; [done|]. split.
  { apply only_plugins_step_inv in Ho as [(Ht & -> & _)|(s & g & ? & ? & ? & -> & _)].
    - by left.
    - right. by exists s, g. }
  done.
Qed.

(* ===================================================================== *)
(** ** Plugin group, plugin type and pass-through options *)
(* ===================================================================== *)

(** The attributes of the namespace the dict is assembled from, in terms
    of the namespace the parser returned. *)
Lemma process_options_fields w ua p p' cfg :
  process_options w ua p = (p', Ret cfg) →
  ∃ arg0 arg pg profiles scope,
    parse_options w ua (get_all_plugin_groups w)
      (get_all_plugin_types w ++ ["all"; "quiet"]) = Ret arg0
    ∧ cfg = assemble w (plugin_type_step w pg arg) pg profiles scope
    ∧ keeps_flags arg0 arg
    ∧ PluginType arg = PluginType arg0
    ∧ ((truthy (OnlyPlugins arg0) = false ∧ pg = PluginGroup arg0
        ∧ OnlyPlugins arg = OnlyPlugins arg0)
       ∨ ∃ s g, OnlyPlugins arg0 = VStr s ∧ s ≠ ""
                ∧ get_groups_for_plugins w (Py.split "," s) = [g]
                ∧ pg = VStr g ∧ OnlyPlugins arg = VList (Py.split "," s))
    ∧ ((truthy (ExceptPlugins arg0) = false ∧ ExceptPlugins arg = ExceptPlugins arg0)
       ∨ ∃ s, ExceptPlugins arg0 = VStr s ∧ s ≠ ""
              ∧ (length (get_groups_for_plugins w (Py.split "," s)) ≤ 1)%nat
              ∧ ExceptPlugins arg = VList (Py.split "," s)).
Proof.
  intros H. apply process_options_inv in H
    as (arg0 & arg1 & arg2 & arg3 & pg & profiles & scope
        & Hparse & Ho & He & F & [LO LE] & T & ->).
  exists arg0, arg3, pg, profiles, scope.
  split; [done|]. split; [done|].
  assert (keeps_flags arg0 arg1 ∧ PluginType arg1 = PluginType arg0
          ∧ ExceptPlugins arg1 = ExceptPlugins arg0) as (F1 & T1 & E1).
  { destruct Ho as [(_ & -> & _)|(s & g & _ & _ & _ & -> & _)];
      unfold keeps_flags; by repeat split. }
  assert (keeps_flags arg1 arg2 ∧ PluginType arg2 = PluginType arg1
          ∧ OnlyPlugins arg2 = OnlyPlugins arg1) as (F2 & T2 & O2).
  { destruct He as [(_ & ->)|(s & _ & _ & _ & ->)];
      unfold keeps_flags; by repeat split. }
  split; [eauto using keeps_flags_trans|]. split; [congruence|]. split.
  - destruct Ho as [(Ht & -> & ->)|(s & g & Hs & Hne & Hg & -> & ->)].
    + left. split; [done|]. split; [done|]. congruence.
    + right. exists s, g. repeat split; try done; try by rewrite LO, O2.
  - rewrite E1 in He.
    destruct He as [(Ht & ->)|(s & Hs & Hne & Hlen & ->)].
    + left. split; [done|]. congruence.
    + right. exists s. repeat split; try done; try by rewrite LE.
Qed.

(** X5.  When an only-plugins list is given and a configuration is
    returned, the list resolved to exactly one group, that group replaces
    the selected plugin group in the configuration, and the option holds
    the list of identifiers. *)
Theorem only_plugins_overrides_group w user_args arg0 s p p' cfg :
  parse_options w user_args (get_all_plugin_groups w)
    (get_all_plugin_types w ++ ["all"; "quiet"]) = Ret arg0 →
  OnlyPlugins arg0 = VStr s → s ≠ "" →
  process_options w user_args p = (p', Ret cfg) →
  ∃ g, get_groups_for_plugins w (Py.split "," s) = [g]
       ∧ Cfg.PluginGroup cfg = VStr g
       ∧ Cfg.OnlyPlugins cfg = VList (Py.split "," s).
Proof.
  intros Hparse Ho Hs Hrun.
  apply process_options_fields in Hrun
    as (arg0' & arg & pg & profiles & scope & Hparse' & -> & F & T & Hon & _).
  rewrite Hparse in Hparse'. injection Hparse' as <-.
  destruct Hon as [(Ht & _)|(s' & g & Hs' & _ & Hg & -> & Harg)].
  - rewrite Ho, nonempty_truthy in Ht by done. discriminate Ht.
  - rewrite Ho in Hs'. injection Hs' as <-. exists g.
    split; [done|]. split; [done|]. simpl.
    destruct (plugin_type_step_keeps w (VStr g) arg) as (_ & [-> _] & _). done.
Qed.

Lemma only_plugins_overrides_group_witness :
  ∃ cfg,
    (process_options
       (sample_world (set_OnlyPlugins (VStr "x") ns0)) [] proc0).2 = Ret cfg
    ∧ Cfg.PluginGroup cfg = VStr "net"
    ∧ Cfg.OnlyPlugins cfg = VList ["x"].
Proof.
  destruct (process_options (sample_world (set_OnlyPlugins (VStr "x") ns0)) [] proc0)
    as [p' [cfg|e]] eqn:Hrun.
  - exists cfg. split; [reflexivity|].
    destruct (only_plugins_overrides_group
                (sample_world (set_OnlyPlugins (VStr "x") ns0)) []
                (set_OnlyPlugins (VStr "x") ns0) "x" proc0 p' cfg
                eq_refl eq_refl ltac:(done) Hrun) as (g & Hg & Hpg & Hop).
    vm_compute in Hg. injection Hg as <-. by split.
  - vm_compute in Hrun. discriminate Hrun.
Defined.

(** X6.  Without an only-plugins list the plugin group of a returned
    configuration is the one the parser selected, also when an
    except-plugins list is given: that list is only checked to span at
    most one group and stored as a list of identifiers. *)
Theorem except_plugins_keeps_group w user_args arg0 p p' cfg :
  parse_options w user_args (get_all_plugin_groups w)
    (get_all_plugin_types w ++ ["all"; "quiet"]) = Ret arg0 →
  truthy (OnlyPlugins arg0) = false →
  process_options w user_args p = (p', Ret cfg) →
  Cfg.PluginGroup cfg = PluginGroup arg0
  ∧ Cfg.OnlyPlugins cfg = OnlyPlugins arg0
  ∧ ∀ s, ExceptPlugins arg0 = VStr s → s ≠ "" →
      Cfg.ExceptPlugins cfg = VList (Py.split "," s)
      ∧ (length (get_groups_for_plugins w (Py.split "," s)) ≤ 1)%nat.
Proof.
  intros Hparse Ht Hrun.
  apply process_options_fields in Hrun
    as (arg0' & arg & pg & profiles & scope & Hparse' & -> & F & T & Hon & Hex).
  rewrite Hparse in Hparse'. injection Hparse' as <-.
  destruct (plugin_type_step_keeps w pg arg) as (_ & [HO HE] & _).
  destruct Hon as [(_ & -> & Harg)|(s' & g & Hs' & Hne & _)].
  2:{ rewrite Hs', nonempty_truthy in Ht by done. discriminate Ht. }
  split; [done|]. split; [simpl; congruence|].
  intros s Hs Hne. simpl. rewrite HE.
  destruct Hex as [(Hte & _)|(s' & Hs' & _ & Hlen & ->)].
  - rewrite Hs, nonempty_truthy in Hte by done. discriminate Hte.
  - rewrite Hs in Hs'. injection Hs' as <-. done.
Qed.

Lemma except_plugins_keeps_group_witness :
  ∃ cfg,
    (process_options
       (sample_world (set_ExceptPlugins (VStr "x") ns0)) [] proc0).2 = Ret cfg
    ∧ Cfg.PluginGroup cfg = VStr "web"
    ∧ Cfg.ExceptPlugins cfg = VList ["x"].
Proof.
  destruct (process_options (sample_world (set_ExceptPlugins (VStr "x") ns0)) [] proc0)
    as [p' [cfg|e]] eqn:Hrun.
  - exists cfg. split; [reflexivity|].
    destruct (except_plugins_keeps_group
                (sample_world (set_ExceptPlugins (VStr "x") ns0)) []
                (set_ExceptPlugins (VStr "x") ns0) proc0 p' cfg
                eq_refl eq_refl Hrun) as (Hpg & _ & Hex).
    split; [exact Hpg|]. exact (proj1 (Hex "x" eq_refl ltac:(done))).
  - vm_compute in Hrun. discriminate Hrun.
Defined.

(** X7.  In a returned configuration the plugin type [all] has become the
    types registered for the configuration's own plugin group, that is the
    group after a possible override by the only-plugins list; [quiet] has
    become the pair passive, semi_passive; any other value is unchanged. *)
Theorem plugin_type_follows_final_group w user_args arg0 p p' cfg :
  parse_options w user_args (get_all_plugin_groups w)
    (get_all_plugin_types w ++ ["all"; "quiet"]) = Ret arg0 →
  process_options w user_args p = (p', Ret cfg) →
  Cfg.PluginType cfg
  = if bool_decide (PluginType arg0 = VStr "all")
    then VList (get_types_for_plugin_group w (Cfg.PluginGroup cfg))
    else if bool_decide (PluginType arg0 = VStr "quiet")
    then VList ["passive"; "semi_passive"]
    else PluginType arg0.
Proof.
  intros Hparse Hrun.
  apply process_options_fields in Hrun
    as (arg0' & arg & pg & profiles & scope & Hparse' & -> & F & T & _).
  rewrite Hparse in Hparse'. injection Hparse' as <-.
  simpl. unfold plugin_type_step. rewrite T.
  by repeat case_bool_decide.
Qed.

Lemma plugin_type_follows_final_group_witness :
  ∃ cfg,
    (process_options
       (with_parsed
          (mkWorld ∅ ∅ [] 1 (λ _, "") "" "" (λ _, "") [] []
             (λ _ _ _, Raise ValueError) (λ _, ["net"])
             (λ g, if bool_decide (g = VStr "net") then ["bruteforce"] else ["active"])
             (λ _ _, Ret tt) (λ _ _, Ret true) (λ _, Ret tt) (λ _ _, Ret tt))
          (Ret (set_OnlyPlugins (VStr "x") ns0)))
       [] proc0).2 = Ret cfg
    ∧ Cfg.PluginGroup cfg = VStr "net"
    ∧ Cfg.PluginType cfg = VList ["bruteforce"].
Proof.
  set (w := with_parsed _ _).
  destruct (process_options w [] proc0) as [p' [cfg|e]] eqn:Hrun.
  - exists cfg. split; [reflexivity|].
    pose proof (plugin_type_follows_final_group w []
                  (set_OnlyPlugins (VStr "x") ns0) proc0 p' cfg eq_refl Hrun) as HT.
    vm_compute in Hrun. injection Hrun as _ <-. split; [reflexivity|exact HT].
  - vm_compute in Hrun. discriminate Hrun.
Defined.

(** X8.  A returned configuration carries the listing flag, the
    overwrite, simulation, report-port, port-waves, proxy-mode and no-web-UI
    settings and the outbound proxy authentication exactly as the parser
    produced them, the process argument vector, and an interactive flag
    that is true exactly when the parsed value is the string [yes]. *)
Theorem options_passed_through w user_args arg0 p p' cfg :
  parse_options w user_args (get_all_plugin_groups w)
    (get_all_plugin_types w ++ ["all"; "quiet"]) = Ret arg0 →
  process_options w user_args p = (p', Ret cfg) →
  Cfg.list_plugins cfg = list_plugins arg0
  ∧ Cfg.Force_Overwrite cfg = ForceOverwrite arg0
  ∧ (Cfg.Interactive cfg = true ↔ Interactive arg0 = VStr "yes")
  ∧ Cfg.Simulation cfg = Simulation arg0
  ∧ Cfg.OutboundProxyAuth cfg = OutboundProxyAuth arg0
  ∧ Cfg.RPort cfg = RPort arg0
  ∧ Cfg.PortWaves cfg = PortWaves arg0
  ∧ Cfg.ProxyMode cfg = ProxyMode arg0
  ∧ Cfg.nowebui cfg = nowebui arg0
  ∧ Cfg.argv cfg = sys_argv w.
Proof.
  intros Hparse Hrun.
  apply process_options_fields in Hrun
    as (arg0' & arg & pg & profiles & scope & Hparse' & -> & F & _).
  rewrite Hparse in Hparse'. injection Hparse' as <-.
  destruct (plugin_type_step_keeps w pg arg) as (F' & _).
  pose proof (keeps_flags_trans _ _ _ F F') as K.
  unfold keeps_flags in K. destruct_and!. simpl.
  repeat split; try congruence.
  - intros Hb. apply bool_decide_eq_true_1 in Hb. congruence.
  - intros Hy. apply bool_decide_eq_true_2. congruence.
Qed.

Lemma options_passed_through_witness :
  ∃ cfg,
    (process_options
       (sample_world
          (mkNamespace (VStr "web") (VBool true) (VStr "yes") VNone
             (Some ["a.com"]) (VStr "quiet") VNone VNone VNone VNone
             (VStr "user:pass") VNone (VStr "web") (VInt 8008) VNone VNone VNone
             (VBool true)))
       [] proc0).2 = Ret cfg
    ∧ Cfg.Interactive cfg = true
    ∧ Cfg.RPort cfg = VInt 8008
    ∧ Cfg.OutboundProxyAuth cfg = VStr "user:pass".
Proof.
  set (a := mkNamespace _ _ _ _ _ _ _ _ _ _ _ _ _ _ _ _ _ _).
  destruct (process_options (sample_world a) [] proc0) as [p' [cfg|e]] eqn:Hrun.
  - exists cfg. split; [reflexivity|].
    destruct (options_passed_through (sample_world a) [] a proc0 p' cfg eq_refl Hrun)
      as (_ & _ & Hi & _ & Ha & Hr & _).
    split; [by apply Hi|]. by split.
  - vm_compute in Hrun. discriminate Hrun.
Defined.

(* ===================================================================== *)
(** ** More on the outbound and the inbound proxy *)
(* ===================================================================== *)

Lemma check_port_ok fields counts m1 m2 port n p :
  length fields ∈ counts → last fields = Some port → Py.int port = Some n →
  check_port fields counts m1 m2 p = (p, Ret tt).
Proof.
  intros Hc Hl Hi. unfold check_port.
  rewrite bool_decide_eq_true_2 by done. simpl negb. cbv iota.
  unfold mbind, M_bind, bind, lift, list_last. by rewrite Hl, Hi.
Qed.

Lemma check_port_bad_port fields counts m1 m2 port p :
  length fields ∈ counts → last fields = Some port → Py.int port = None →
  check_port fields counts m1 m2 p
  = (add_events p [EvUsage m2], Raise (UsageError m2)).
Proof.
  intros Hc Hl Hi. unfold check_port.
  rewrite bool_decide_eq_true_2 by done. simpl negb. cbv iota.
  unfold mbind, M_bind, bind, lift, list_last. by rewrite Hl, Hi.
Qed.

Lemma check_port_bad_count fields counts m1 m2 p :
  length fields ∉ counts →
  check_port fields counts m1 m2 p
  = (add_events p [EvUsage m1], Raise (UsageError m1)).
Proof.
  intros Hc. unfold check_port. by rewrite bool_decide_eq_false_2.
Qed.

Lemma check_port_Ret fields counts m1 m2 p p' u :
  check_port fields counts m1 m2 p = (p', Ret u) →
  p' = p ∧ length fields ∈ counts
  ∧ ∃ port n, last fields = Some port ∧ Py.int port = Some n.
Proof.
  unfold check_port. case_bool_decide as Hc; simpl; [|by intros].
  unfold mbind, M_bind, bind, lift, list_last.
  destruct (last fields) as [port|] eqn:Hl; [|by intros].
  destruct (Py.int port) as [n|] eqn:Hi; [|by intros].
  intros [= <- _]. eauto 7.
Qed.

(** What [outbound_step] does when the spec does not split into exactly
    two parts on [://]: only the last part is kept. *)
Lemma outbound_step_last_part arg s parts rest p :
  OutboundProxy arg = VStr s → s ≠ "" →
  Py.split "://" s = parts → length parts ≠ 2%nat → last parts = Some rest →
  outbound_step arg p
  = (check_port (Py.split ":" rest) [2; 3]%nat
       "Invalid argument for Outbound Proxy"
       "Invalid port provided for Outbound Proxy";;
     ret (set_OutboundProxy (VList (Py.split ":" rest)) arg)) p.
Proof.
  intros Ho Hs Hsplit Hlen Hlast. unfold outbound_step.
  rewrite Ho, nonempty_truthy by done.
  rewrite (bind_Ret (as_str (VStr s)) _ p p s eq_refl).
  cbv zeta. rewrite Hsplit.
  destruct (Nat.eqb_spec (length parts) 2); [done|].
  unfold mbind, M_bind, bind, ret, lift, list_pop. rewrite Hlast. reflexivity.
Qed.

(** X9.  Without a scheme, [host:port] and [host:port:extra] are accepted
    when the host is colon-free and the final field is an integer; the
    option becomes the list of the two or three fields. *)
Theorem outbound_without_scheme arg host last_field n p :
  no_colon host = true →
  Py.int last_field = Some n →
  (OutboundProxy arg = VStr (host +:+ ":" +:+ last_field) →
   outbound_step arg p
   = (p, Ret (set_OutboundProxy (VList [host; last_field]) arg)))
  ∧ (∀ port, colon_field port = true →
       OutboundProxy arg = VStr (host +:+ ":" +:+ port +:+ ":" +:+ last_field) →
       outbound_step arg p
       = (p, Ret (set_OutboundProxy (VList [host; port; last_field]) arg))).
Proof.
  intros Hhost Hint.
  pose proof (int_colon_field _ _ Hint) as Hlast.
  apply andb_true_iff in Hlast as [Hlc Hlp]. apply negb_true_iff in Hlp.
  assert (Hne : ∀ t, host +:+ ":" +:+ t ≠ "").
  { intros t. destruct host; [by rewrite app_empty_l|by rewrite app_cons]. }
  split.
  - intros Ho.
    rewrite (outbound_step_last_part arg _ _ (host +:+ ":" +:+ last_field) p Ho
               (Hne _) (split_scheme_two host last_field Hhost Hlc Hlp));
      [|simpl; lia|done].
    rewrite split_colon_two by done.
    erewrite bind_Ret; [reflexivity|].
    by eapply (check_port_ok _ _ _ _ last_field n); [simpl; repeat constructor|done|done].
  - intros port Hport Ho.
    pose proof Hport as Hport'. apply andb_true_iff in Hport' as [Hpc _].
    rewrite (outbound_step_last_part arg _ _
               (host +:+ ":" +:+ port +:+ ":" +:+ last_field) p Ho
               (Hne _) (split_scheme_three host port last_field Hhost Hport Hlc Hlp));
      [|simpl; lia|done].
    rewrite split_colon_three by done.
    erewrite bind_Ret; [reflexivity|].
    by eapply (check_port_ok _ _ _ _ last_field n); [simpl; repeat constructor|done|done].
Qed.

Lemma outbound_without_scheme_witness :
  outbound_step (set_OutboundProxy (VStr "10.0.0.1:8080") ns0) proc0
  = (proc0, Ret (set_OutboundProxy (VList ["10.0.0.1"; "8080"])
                   (set_OutboundProxy (VStr "10.0.0.1:8080") ns0))).
Proof.
  apply (proj1 (outbound_without_scheme
                  (set_OutboundProxy (VStr "10.0.0.1:8080") ns0)
                  "10.0.0.1" "8080" 8080 proc0 eq_refl eq_refl)).
  reflexivity.
Defined.

(** X10.  A spec that splits into exactly two parts on [://] and whose
    first part is neither socks nor http is rejected with the outbound
    usage error, whatever follows the separator. *)
Theorem outbound_unknown_scheme_rejected arg s scheme rest p :
  OutboundProxy arg = VStr s →
  Py.split "://" s = [scheme; rest] →
  scheme ∉ ["socks"; "http"] →
  outbound_step arg p
  = (add_events p [EvUsage "Invalid argument for Outbound Proxy"],
     Raise (UsageError "Invalid argument for Outbound Proxy")).
Proof.
  intros Ho Hsplit Hscheme. unfold outbound_step.
  assert (s ≠ "") as Hs by (intros ->; vm_compute in Hsplit; discriminate).
  rewrite Ho, nonempty_truthy by done.
  rewrite (bind_Ret (as_str (VStr s)) _ p p s eq_refl).
  cbv zeta. rewrite Hsplit.
  unfold mbind, M_bind, bind, ret, lift, list_pop, list_index.
  cbn [length Nat.eqb last removelast app fst snd lookup list_lookup].
  by rewrite bool_decide_eq_false_2.
Qed.

Lemma outbound_unknown_scheme_rejected_witness :
  outbound_step (set_OutboundProxy (VStr "ftp://10.0.0.1:8080") ns0) proc0
  = (add_events proc0 [EvUsage "Invalid argument for Outbound Proxy"],
     Raise (UsageError "Invalid argument for Outbound Proxy")).
Proof.
  apply (outbound_unknown_scheme_rejected
           (set_OutboundProxy (VStr "ftp://10.0.0.1:8080") ns0)
           "ftp://10.0.0.1:8080" "ftp" "10.0.0.1:8080" proc0).
  - reflexivity.
  - reflexivity.
  - intros H. apply list_elem_of_In in H. simpl in H.
    destruct H as [H|[H|[]]]; discriminate H.
Defined.

(** X11.  With two separators [://] the scheme test is skipped and all but
    the last part is dropped: [a://b://host:port] is accepted for any
    colon-free [a] and [b], and the option holds only host and port. *)
Theorem outbound_two_separators_keep_last arg a b host last_field n p :
  no_colon a = true → no_colon b = true → no_colon host = true →
  Py.int last_field = Some n →
  OutboundProxy arg
  = VStr (a +:+ "://" +:+ b +:+ "://" +:+ host +:+ ":" +:+ last_field) →
  outbound_step arg p
  = (p, Ret (set_OutboundProxy (VList [host; last_field]) arg)).
Proof.
  intros Ha Hb Hhost Hint Ho.
  pose proof (int_colon_field _ _ Hint) as Hlast.
  apply andb_true_iff in Hlast as [Hlc Hlp]. apply negb_true_iff in Hlp.
  assert (Hsplit : Py.split "://"
            (a +:+ "://" +:+ b +:+ "://" +:+ host +:+ ":" +:+ last_field)
          = [a; b; host +:+ ":" +:+ last_field]).
  { rewrite split_scheme_rest by done. rewrite split_scheme_rest by done.
    by rewrite split_scheme_two. }
  rewrite (outbound_step_last_part arg _ _ (host +:+ ":" +:+ last_field) p Ho
             ltac:(destruct a; [by rewrite app_empty_l|by rewrite app_cons]) Hsplit);
    [|simpl; lia|done].
  rewrite split_colon_two by done.
  erewrite bind_Ret; [reflexivity|].
  by eapply (check_port_ok _ _ _ _ last_field n); [simpl; repeat constructor|done|done].
Qed.

Lemma outbound_two_separators_keep_last_witness :
  outbound_step (set_OutboundProxy (VStr "ftp://x://10.0.0.1:8080") ns0) proc0
  = (proc0, Ret (set_OutboundProxy (VList ["10.0.0.1"; "8080"])
                   (set_OutboundProxy (VStr "ftp://x://10.0.0.1:8080") ns0))).
Proof.
  apply (outbound_two_separators_keep_last
           (set_OutboundProxy (VStr "ftp://x://10.0.0.1:8080") ns0)
           "ftp" "x" "10.0.0.1" "8080" 8080 proc0); reflexivity.
Defined.

(** X12.  [scheme://host:port] with a known scheme and a final field
    that [int] refuses ends in the invalid-port usage error. *)
Theorem outbound_non_integer_port_rejected arg scheme host port p :
  scheme ∈ ["socks"; "http"] →
  no_colon host = true → colon_field port = true →
  Py.int port = None →
  OutboundProxy arg = VStr (scheme +:+ "://" +:+ host +:+ ":" +:+ port) →
  outbound_step arg p
  = (add_events p [EvUsage "Invalid port provided for Outbound Proxy"],
     Raise (UsageError "Invalid port provided for Outbound Proxy")).
Proof.
  intros Hscheme Hhost Hport Hint Ho.
  destruct (scheme_facts scheme Hscheme) as [Hsc Hne].
  apply andb_true_iff in Hport as [Hpc Hpp]. apply negb_true_iff in Hpp.
  rewrite (outbound_step_with_scheme arg _ scheme (host +:+ ":" +:+ port) p Ho);
    [|by apply app_nonempty_l| |done].
  - rewrite split_colon_two by done.
    erewrite bind_Raise; [reflexivity|].
    by eapply (check_port_bad_port _ _ _ _ port); [simpl; repeat constructor|done|done].
  - rewrite split_scheme_rest by done. by rewrite split_scheme_two.
Qed.

Lemma outbound_non_integer_port_rejected_witness :
  outbound_step (set_OutboundProxy (VStr "http://x:abc") ns0) proc0
  = (add_events proc0 [EvUsage "Invalid port provided for Outbound Proxy"],
     Raise (UsageError "Invalid port provided for Outbound Proxy")).
Proof.
  apply (outbound_non_integer_port_rejected
           (set_OutboundProxy (VStr "http://x:abc") ns0) "http" "x" "abc" proc0);
    try reflexivity.
  do 2 constructor.
Defined.

Lemma count_two_or_three n : n ∈ [2; 3]%nat → n = 2%nat ∨ n = 3%nat.
Proof.
  intros H. apply list_elem_of_In in H. simpl in H.
  destruct H as [<-|[<-|[]]]; auto.
Qed.

(** X13.  Whenever the outbound step accepts a spec it has printed
    nothing, the option has become a list of two or three fields whose
    last one is an integer literal, and if the spec holds exactly one
    [://] the first field is socks or http. *)
Theorem outbound_accepted_shape arg s p p' arg' :
  OutboundProxy arg = VStr s → s ≠ "" →
  outbound_step arg p = (p', Ret arg') →
  p' = p
  ∧ ∃ fields port n,
      arg' = set_OutboundProxy (VList fields) arg
      ∧ (length fields = 2%nat ∨ length fields = 3%nat)
      ∧ last fields = Some port ∧ Py.int port = Some n
      ∧ (length (Py.split "://" s) = 2%nat →
         ∃ scheme, head fields = Some scheme ∧ scheme ∈ ["socks"; "http"]).
Proof.
  intros Ho Hs H. unfold outbound_step in H.
  rewrite Ho, nonempty_truthy in H by done.
  rewrite (bind_Ret (as_str (VStr s)) _ p p s eq_refl) in H.
  cbv zeta in H.
  apply bind_inv_Ret in H as (fields & p1 & Hf & H).
  apply bind_inv_Ret in H as (u & p2 & Hc & H).
  apply check_port_Ret in Hc as (-> & Hcount & port & n & Hlast & Hint).
  unfold mret, M_ret, ret in H. injection H as <- <-.
  apply count_two_or_three in Hcount.
  destruct (Nat.eqb_spec (length (Py.split "://" s)) 2) as [Hlen|Hlen].
  - destruct (Py.split "://" s) as [|a [|b [|c l]]]; try discriminate Hlen.
    unfold mbind, M_bind, bind, ret, lift, list_pop, list_index in Hf.
    cbn [length Nat.eqb last removelast app fst snd lookup list_lookup] in Hf.
    case_bool_decide as Hscheme; simpl in Hf; [|discriminate Hf].
    injection Hf as <- <-. split; [done|].
    exists (a :: Py.split ":" b), port, n. repeat split; try done.
    intros _. by exists a.
  - unfold mbind, M_bind, bind, ret, lift, list_pop in Hf.
    destruct (last (Py.split "://" s)) as [rest|]; [|discriminate Hf].
    injection Hf as <- <-. split; [done|].
    exists (Py.split ":" rest), port, n. repeat split; try done.
Qed.

Lemma outbound_accepted_shape_witness :
  ∃ fields,
    (outbound_step (set_OutboundProxy (VStr "socks://127.0.0.1:9050") ns0) proc0).2
    = Ret (set_OutboundProxy (VList fields)
             (set_OutboundProxy (VStr "socks://127.0.0.1:9050") ns0))
    ∧ (length fields = 2%nat ∨ length fields = 3%nat).
Proof.
  destruct (outbound_step (set_OutboundProxy (VStr "socks://127.0.0.1:9050") ns0) proc0)
    as [p' [arg'|e]] eqn:Hrun.
  - destruct (outbound_accepted_shape
                (set_OutboundProxy (VStr "socks://127.0.0.1:9050") ns0)
                "socks://127.0.0.1:9050" proc0 p' arg' eq_refl ltac:(done) Hrun)
      as (_ & fields & port & n & -> & Hlen & _).
    by exists fields.
  - vm_compute in Hrun. discriminate Hrun.
Defined.

Lemma inbound_step_eq arg s p :
  InboundProxy arg = VStr s → s ≠ "" →
  inbound_step arg p
  = (check_port (Py.split ":" s) [1; 2]%nat
       "Invalid argument for Inbound Proxy" "Invalid port for Inbound Proxy";;
     ret (set_InboundProxy (VList (Py.split ":" s)) arg)) p.
Proof.
  intros Hi Hs. unfold inbound_step. rewrite Hi, nonempty_truthy by done.
  by rewrite (bind_Ret (as_str (VStr s)) _ p p s eq_refl).
Qed.

Lemma int_nonempty s n : Py.int s = Some n → s ≠ "".
Proof. by intros H ->. Qed.

(** X14.  The inbound grammar: an integer port alone, or a colon-free
    host, a colon and an integer port, is accepted, and the option becomes
    the list of these one or two fields. *)
Theorem inbound_port_or_host_port arg port n p :
  Py.int port = Some n →
  (InboundProxy arg = VStr port →
   inbound_step arg p = (p, Ret (set_InboundProxy (VList [port]) arg)))
  ∧ (∀ host, no_colon host = true →
       InboundProxy arg = VStr (host +:+ ":" +:+ port) →
       inbound_step arg p = (p, Ret (set_InboundProxy (VList [host; port]) arg))).
Proof.
  intros Hint.
  pose proof (int_colon_field _ _ Hint) as Hlast.
  apply andb_true_iff in Hlast as [Hlc _].
  split.
  - intros Hi. rewrite (inbound_step_eq arg port p Hi (int_nonempty _ _ Hint)).
    assert (Py.split ":" port = [port]) as ->.
    { unfold Py.split. by rewrite (split_go_free ":" "" port). }
    erewrite bind_Ret; [reflexivity|].
    by eapply (check_port_ok _ _ _ _ port n); [simpl; repeat constructor|done|done].
  - intros host Hhost Hi.
    rewrite (inbound_step_eq arg _ p Hi
               ltac:(destruct host; [by rewrite app_empty_l|by rewrite app_cons])).
    rewrite split_colon_two by done.
    erewrite bind_Ret; [reflexivity|].
    by eapply (check_port_ok _ _ _ _ port n); [simpl; repeat constructor|done|done].
Qed.

Lemma inbound_port_or_host_port_witness :
  inbound_step (set_InboundProxy (VStr "8008") ns0) proc0
  = (proc0, Ret (set_InboundProxy (VList ["8008"]) (set_InboundProxy (VStr "8008") ns0)))
  ∧ inbound_step (set_InboundProxy (VStr "127.0.0.1:8008") ns0) proc0
    = (proc0, Ret (set_InboundProxy (VList ["127.0.0.1"; "8008"])
                     (set_InboundProxy (VStr "127.0.0.1:8008") ns0))).
Proof.
  split.
  - apply (proj1 (inbound_port_or_host_port
                    (set_InboundProxy (VStr "8008") ns0) "8008" 8008 proc0 eq_refl)).
    reflexivity.
  - apply (proj2 (inbound_port_or_host_port
                    (set_InboundProxy (VStr "127.0.0.1:8008") ns0) "8008" 8008 proc0
                    eq_refl) "127.0.0.1" eq_refl).
    reflexivity.
Defined.

(** X15.  The inbound step is decided by the number of colons and the
    last field: with two or more colons the spec is rejected with the
    inbound usage error; when the step accepts, it has printed nothing,
    the spec holds at most one colon, its last field is an integer literal
    and the option has become the list of the colon-separated fields. *)
Theorem inbound_decided_by_colons_and_port arg s p :
  InboundProxy arg = VStr s → s ≠ "" →
  ((2 ≤ count_char ":" s)%nat →
   inbound_step arg p
   = (add_events p [EvUsage "Invalid argument for Inbound Proxy"],
      Raise (UsageError "Invalid argument for Inbound Proxy")))
  ∧ (∀ p' arg', inbound_step arg p = (p', Ret arg') →
       p' = p
       ∧ arg' = set_InboundProxy (VList (Py.split ":" s)) arg
       ∧ (count_char ":" s ≤ 1)%nat
       ∧ ∃ port n, last (Py.split ":" s) = Some port ∧ Py.int port = Some n).
Proof.
  intros Hi Hs. destruct (split_colon_fields s) as [Hlen _]. split.
  - intros Hcount. rewrite (inbound_step_eq arg s p Hi Hs).
    erewrite bind_Raise; [reflexivity|].
    apply check_port_bad_count. rewrite Hlen. intros Hin.
    apply list_elem_of_In in Hin. simpl in Hin. lia.
  - intros p' arg' H. rewrite (inbound_step_eq arg s p Hi Hs) in H.
    apply bind_inv_Ret in H as (u & p1 & Hc & H).
    apply check_port_Ret in Hc as (-> & Hcount & port & n & Hlast & Hint).
    unfold ret in H. injection H as <- <-.
    split; [done|]. split; [done|]. split; [|by eauto].
    rewrite Hlen in Hcount. apply list_elem_of_In in Hcount. simpl in Hcount. lia.
Qed.

Lemma inbound_decided_by_colons_and_port_witness :
  inbound_step (set_InboundProxy (VStr "a:b:1") ns0) proc0
  = (add_events proc0 [EvUsage "Invalid argument for Inbound Proxy"],
     Raise (UsageError "Invalid argument for Inbound Proxy")).
Proof.
  apply (proj1 (inbound_decided_by_colons_and_port
                  (set_InboundProxy (VStr "a:b:1") ns0) "a:b:1" proc0
                  eq_refl ltac:(done))).
  vm_compute. lia.
Defined.

(* ===================================================================== *)
(** ** More on the scope and the target check *)
(* ===================================================================== *)

(** X16.  Positional arguments are used as the scope verbatim and in
    order, with nothing printed, when there are none, when there are two
    or more, or when the single one does not name a regular file. *)
Theorem positional_targets_used_verbatim w pg arg l p :
  Targets arg = Some l →
  length l ≠ 1%nat ∨ (∃ t, l = [t] ∧ fs_files w !! t = None) →
  scope_step w pg arg p = (p, Ret l).
Proof.
  intros HT Hl.
  destruct l as [|t [|t' l]].
  - unfold scope_step. rewrite HT. cbn [length Nat.eqb].
    by destruct (_ && _ && _).
  - destruct Hl as [Hl|(t0 & [= ->] & Hf)]; [done|].
    by apply scope_step_no_file.
  - unfold scope_step. rewrite HT. cbn [length Nat.eqb].
    by rewrite andb_false_r.
Qed.

Lemma positional_targets_used_verbatim_witness :
  scope_step (sample_world ns0) (VStr "web") (set_Targets ["a.com"; "b.com"] ns0) proc0
  = (proc0, Ret ["a.com"; "b.com"])
  ∧ scope_step (sample_world ns0) (VStr "web") (set_Targets ["a.com"] ns0) proc0
    = (proc0, Ret ["a.com"]).
Proof.
  split.
  - apply (positional_targets_used_verbatim (sample_world ns0) (VStr "web")
             (set_Targets ["a.com"; "b.com"] ns0) ["a.com"; "b.com"] proc0 eq_refl).
    left. simpl. lia.
  - apply (positional_targets_used_verbatim (sample_world ns0) (VStr "web")
             (set_Targets ["a.com"] ns0) ["a.com"] proc0 eq_refl).
    right. exists "a.com". split; reflexivity.
Defined.

Lemma check_target_empty p : check_target tt "" p = (p, Raise IndexError).
Proof. reflexivity. Qed.

Lemma check_targets_plain scope p :
  Forall plain_target scope → check_targets scope p = (p, Ret tt).
Proof.
  intros H. induction H as [|t scope Ht _ IH]; [done|].
  by rewrite check_targets_cons, check_target_plain.
Qed.

Lemma check_target_cases t p :
  (plain_target t ∧ check_target tt t p = (p, Ret tt))
  ∨ (¬ plain_target t ∧ ∃ e, check_target tt t p = (p, Raise e) ∧ t = ""
                              ∧ e = IndexError)
  ∨ (¬ plain_target t
     ∧ ∃ t', t = String "-" t'
             ∧ check_target tt t p
               = (add_events p [EvUsage ("Invalid Target: " +:+ t)],
                  Raise (UsageError ("Invalid Target: " +:+ t)))).
Proof.
  destruct t as [|c t].
  - right. left. split; [by intros []|]. by exists IndexError.
  - destruct (decide (c = "-"%char)) as [->|Hc].
    + right. right. split; [by intros H; apply H|]. by exists t.
    + left. split; [done|]. by apply check_target_plain.
Qed.

(** X17.  The target check ends normally exactly when every target is
    non-empty and does not start with a dash; otherwise it stops at the
    first target that is not: with the usage error naming that target when
    it starts with a dash. *)
Theorem targets_accepted_iff_plain scope p :
  ((check_targets scope p).2 = Ret tt ↔ Forall plain_target scope)
  ∧ ∀ pre t post,
      scope = pre ++ String "-" t :: post → Forall plain_target pre →
      check_targets scope p
      = (add_events p [EvUsage ("Invalid Target: " +:+ String "-" t)],
         Raise (UsageError ("Invalid Target: " +:+ String "-" t))).
Proof.
  split.
  - split.
    + revert p. induction scope as [|x scope IH]; intros p H; [constructor|].
      rewrite check_targets_cons in H.
      destruct (check_target_cases x p)
        as [[Hx Hr]|[[_ (e & Hr & _)]|[_ (t' & _ & Hr)]]]; rewrite Hr in H.
      * constructor; [done|by eapply IH].
      * discriminate H.
      * discriminate H.
    + intros H. by rewrite check_targets_plain.
  - intros pre t post -> Hpre.
    induction Hpre as [|x pre Hx _ IH]; simpl.
    + by rewrite check_targets_cons, check_target_dash.
    + by rewrite check_targets_cons, check_target_plain.
Qed.

Lemma targets_accepted_iff_plain_witness :
  (check_targets ["a.com"; "b.com"] proc0).2 = Ret tt
  ∧ check_targets (["a.com"] ++ "-b" :: ["c.com"]) proc0
    = (add_events proc0 [EvUsage "Invalid Target: -b"],
       Raise (UsageError "Invalid Target: -b")).
Proof.
  split.
  - apply (proj1 (targets_accepted_iff_plain ["a.com"; "b.com"] proc0)).
    repeat constructor; simpl; congruence.
  - apply (proj2 (targets_accepted_iff_plain (["a.com"] ++ "-b" :: ["c.com"]) proc0)
             ["a.com"] "b" ["c.com"] eq_refl).
    repeat constructor. simpl. congruence.
Defined.

(* ===================================================================== *)
(** ** The scope file *)
(* ===================================================================== *)

Lemma is_space_white c : Py.is_space c = white c.
Proof. by destruct c as [[] [] [] [] [] [] [] []]. Qed.

Lemma string_forall_ext (P Q : ascii → bool) s :
  (∀ c, P c = Q c) → string_forall P s = string_forall Q s.
Proof.
  intros HPQ. induction s as [|c s IH]; [done|]. simpl. by rewrite HPQ, IH.
Qed.

(** Splitting a text on newlines and joining the parts are inverse to each
    other. *)
Lemma split_join lines :
  lines ≠ [] → Forall (λ l, newline_free l = true) lines →
  Py.split newline (join newline lines) = lines.
Proof.
  induction lines as [|x rest IH]; [done|]. intros _ H.
  apply Forall_cons in H as [Hx Hrest]. destruct rest as [|y rest'].
  - simpl join. unfold Py.split, newline. cbv zeta.
    by rewrite (split_go_free "010" "" x Hx).
  - change (join newline (x :: y :: rest'))
      with (x +:+ newline +:+ join newline (y :: rest')).
    specialize (IH ltac:(done) Hrest). unfold Py.split in IH. cbv zeta in IH.
    unfold Py.split, newline in *. cbv zeta.
    rewrite (split_go_skip_free "010" "" x _ Hx).
    rewrite app_cons, app_empty_l, split_go_char_step, Ascii.eqb_refl.
    cbn [fst snd]. by rewrite app_empty_r, IH.
Qed.

Lemma join_split content : join newline (Py.split newline content) = content.
Proof.
  unfold Py.split, newline. cbv zeta.
  induction content as [|a s IH]; [done|].
  rewrite split_go_char_step.
  destruct (Py.split_go (String "010" "") 0 s) as [f fs]. cbn [fst snd] in *.
  destruct (Ascii.eqb_spec a "010") as [->|Hne]; cbn [fst snd].
  - change (join (String "010" "") ("" :: f :: fs))
      with ("" +:+ String "010" "" +:+ join (String "010" "") (f :: fs)).
    by rewrite IH, app_empty_l, app_cons, app_empty_l.
  - destruct fs as [|g fs].
    + simpl in *. by rewrite IH.
    + change (join (String "010" "") (String a f :: g :: fs))
        with (String a f +:+ String "010" "" +:+ join (String "010" "") (g :: fs)).
      rewrite app_cons. f_equal. exact IH.
Qed.

Lemma split_newline_free content :
  Forall (λ l, newline_free l = true) (Py.split newline content).
Proof.
  unfold Py.split, newline. cbv zeta.
  destruct (split_go_char_free "010" content) as [H1 H2]. by constructor.
Qed.

(** Stripping, for any notion [sp] of a space. *)
Lemma lstrip_with_space sp l s :
  string_forall sp l = true → Py.lstrip_with sp (l +:+ s) = Py.lstrip_with sp s.
Proof.
  induction l as [|c l IH]; intros H.
  - by rewrite app_empty_l.
  - simpl in H. apply andb_true_iff in H as [Hc Hl].
    rewrite app_cons. simpl. by rewrite Hc, IH.
Qed.

Lemma lstrip_with_first sp s :
  (∀ c, first_char s = Some c → sp c = false) → Py.lstrip_with sp s = s.
Proof. destruct s as [|c s]; [done|]. intros H. simpl. by rewrite (H c). Qed.

Lemma rstrip_with_space sp r :
  string_forall sp r = true → Py.rstrip_with sp r = "".
Proof.
  induction r as [|c r IH]; [done|]. simpl. intros H.
  apply andb_true_iff in H as [Hc Hr]. by rewrite (IH Hr), Hc.
Qed.

Lemma rstrip_with_last sp t r :
  (∀ c, last_char t = Some c → sp c = false) →
  string_forall sp r = true → Py.rstrip_with sp (t +:+ r) = t.
Proof.
  intros Ht Hr. induction t as [|a t IH].
  - rewrite app_empty_l. by apply rstrip_with_space.
  - rewrite app_cons. cbn [Py.rstrip_with]. cbv zeta.
    destruct t as [|b t].
    + rewrite app_empty_l, (rstrip_with_space sp r Hr), (Ht a eq_refl). done.
    + rewrite IH by (intros c Hc; by apply Ht).
      by rewrite andb_false_r.
Qed.

Lemma lstrip_with_decompose sp s :
  ∃ l, s = l +:+ Py.lstrip_with sp s ∧ string_forall sp l = true
       ∧ ∀ c, first_char (Py.lstrip_with sp s) = Some c → sp c = false.
Proof.
  induction s as [|a s (l & Hs & Hl & Hf)].
  - exists "". by repeat split.
  - simpl. destruct (sp a) eqn:Ha.
    + exists (String a l). rewrite app_cons, <- Hs. repeat split; [|done].
      simpl. by rewrite Ha, Hl.
    + exists "". rewrite app_empty_l. repeat split. by intros c [= <-].
Qed.

Lemma rstrip_with_decompose sp s :
  ∃ r, s = Py.rstrip_with sp s +:+ r ∧ string_forall sp r = true
       ∧ ∀ c, last_char (Py.rstrip_with sp s) = Some c → sp c = false.
Proof.
  induction s as [|a s (r & Hs & Hr & Hl)].
  - exists "". by repeat split.
  - cbn [Py.rstrip_with]. cbv zeta.
    destruct (Py.rstrip_with sp s) as [|b u] eqn:Hu.
    + rewrite app_empty_l in Hs. subst r.
      destruct (sp a) eqn:Ha; cbn [andb Py.is_empty].
      * exists (String a s). rewrite app_empty_l. repeat split; [|done].
        simpl. by rewrite Ha, Hr.
      * exists s. rewrite app_cons, app_empty_l. repeat split; [done|].
        by intros c [= <-].
    + rewrite andb_false_r. exists r. rewrite app_cons, <- Hs.
      repeat split; [done|]. intros c Hc. by apply Hl.
Qed.

Lemma rstrip_with_first sp s c :
  first_char s = Some c → sp c = false →
  first_char (Py.rstrip_with sp s) = Some c.
Proof.
  destruct s as [|a s]; [done|]. intros [= ->] Hc.
  cbn [Py.rstrip_with]. cbv zeta. by rewrite Hc.
Qed.

Lemma rstrip_with_first_inv sp s c :
  first_char (Py.rstrip_with sp s) = Some c → first_char s = Some c.
Proof.
  destruct s as [|a s]; [done|]. cbn [Py.rstrip_with]. cbv zeta.
  by destruct (sp a && _).
Qed.

(** [strip] computes the trimmed line, and the trimmed line is unique. *)
Lemma strip_trimmed line : trimmed_of line (Py.strip line).
Proof.
  unfold Py.strip, Py.rstrip, Py.lstrip.
  destruct (lstrip_with_decompose Py.is_space line) as (l & Hl & Hls & Hf).
  destruct (rstrip_with_decompose Py.is_space (Py.lstrip_with Py.is_space line))
    as (r & Hr & Hrs & Hla).
  exists l, r. repeat split.
  - by rewrite <- Hr.
  - by rewrite <- (string_forall_ext _ _ l is_space_white).
  - by rewrite <- (string_forall_ext _ _ r is_space_white).
  - intros c Hc. rewrite <- is_space_white.
    apply Hf. by eapply rstrip_with_first_inv.
  - intros c Hc. rewrite <- is_space_white. by apply Hla.
Qed.

Lemma trimmed_strip line t : trimmed_of line t → Py.strip line = t.
Proof.
  intros (l & r & -> & Hl & Hr & Hf & Hla).
  rewrite <- (string_forall_ext _ _ l is_space_white) in Hl.
  rewrite <- (string_forall_ext _ _ r is_space_white) in Hr.
  unfold Py.strip, Py.rstrip, Py.lstrip.
  rewrite (lstrip_with_space _ l _ Hl).
  destruct t as [|c t].
  - rewrite app_empty_l.
    destruct (lstrip_with_decompose Py.is_space r) as (l' & Hd & _ & _).
    apply rstrip_with_space.
    rewrite Hd in Hr. clear Hd. revert Hr.
    generalize (Py.lstrip_with Py.is_space r) as u. intros u.
    induction l' as [|a l' IH]; [by rewrite app_empty_l|].
    rewrite app_cons. simpl. intros H. apply andb_true_iff in H as [_ H]. auto.
  - rewrite app_cons, lstrip_with_first.
    + rewrite <- app_cons. apply rstrip_with_last; [|done].
      intros a Ha. rewrite is_space_white. by apply Hla.
    + intros a [= <-]. rewrite is_space_white. by apply Hf.
Qed.

Lemma trimmed_lines lines targets :
  Forall2 trimmed_of lines targets → Py.strip <$> lines = targets.
Proof.
  induction 1 as [|line t lines targets Ht _ IH]; [done|].
  by rewrite fmap_cons, (trimmed_strip _ _ Ht), IH.
Qed.

Lemma lines_trimmed lines : Forall2 trimmed_of lines (Py.strip <$> lines).
Proof.
  induction lines as [|x lines IH]; [constructor|].
  rewrite fmap_cons. constructor; [apply strip_trimmed|done].
Qed.

Lemma lines_of_split content : lines_of content (Py.split newline content).
Proof.
  repeat split.
  - unfold Py.split. by cbv zeta.
  - by rewrite join_split.
  - apply split_newline_free.
Qed.

(** The closed form of the loop, from the notions of the specification. *)
Lemma scope_of_file_lines content lines targets :
  lines_of content lines → Forall2 trimmed_of lines targets →
  scope_of_file content = filter (λ t, t ≠ "") targets.
Proof.
  intros (Hne & -> & Hfree) Htrim. unfold scope_of_file.
  by rewrite (split_join lines Hne Hfree), (trimmed_lines _ _ Htrim).
Qed.

(** C4 (as amended).  With exactly one positional argument that names an
    existing file whose text can be read, the scope step yields the lines
    of the text, each trimmed of the whitespace at its two ends, blank
    ones dropped, in file order, and a usage error when no line is left; a
    configuration returned by [process_options] carries exactly these
    lines (as its scope, or as its arguments for the auxiliary group).
    The lines are the newline-free strings that joined by newlines give
    the text; a trimmed line is the line without the whitespace around it
    and neither begins nor ends with whitespace; every text has such
    lines. *)
Theorem scope_file_replaces_scope w path content :
  fs_files w !! path = Some (ReadText content) →
  (∃ lines targets, lines_of content lines ∧ Forall2 trimmed_of lines targets)
  ∧ ∀ lines targets,
      lines_of content lines → Forall2 trimmed_of lines targets →
      let new_scope := filter (λ t, t ≠ "") targets in
      (∀ pg arg p, Targets arg = Some [path] →
         scope_step w pg arg p
         = let p1 := add_events p
                       [EvLogInfo "Scope file: trying to load targets from it .."] in
           match new_scope with
           | [] => (add_events p1
                      [EvUsage "Please provide a scope file (1 target x line)"],
                    Raise (UsageError "Please provide a scope file (1 target x line)"))
           | _ => (p1, Ret new_scope)
           end)
      ∧ (∀ user_args arg0 p p' cfg,
           parse_options w user_args (get_all_plugin_groups w)
             (get_all_plugin_types w ++ ["all"; "quiet"]) = Ret arg0 →
           Targets arg0 = Some [path] →
           process_options w user_args p = (p', Ret cfg) →
           new_scope ≠ []
           ∧ if bool_decide (Cfg.PluginGroup cfg = VStr "auxiliary")
             then Cfg.Args cfg = VList new_scope
             else Cfg.Scope cfg = new_scope).
Proof.
  intros Hf. split.
  { exists (Py.split newline content), (Py.strip <$> Py.split newline content).
    split; [apply lines_of_split|apply lines_trimmed]. }
  intros lines targets Hlines Htrim new_scope.
  assert (Hscope : scope_of_file content = new_scope)
    by (by apply scope_of_file_lines with lines).
  split.
  - intros pg arg p HT.
    rewrite (scope_step_file w pg arg path content p HT Hf), Hscope.
    cbv zeta. by destruct new_scope.
  - intros ua arg0 p p' cfg Hparse HT Hrun.
    apply process_options_Ret in Hrun
      as (arg0' & arg & pg & prof & scope & p1 & p2 & Hparse' & [HT' _] & Hsc & _ & ->).
    rewrite Hparse in Hparse'. injection Hparse' as <-.
    assert (HTa : Targets arg = Some [path]) by (by rewrite HT').
    rewrite (scope_step_file w pg arg path content p1 HTa Hf), Hscope in Hsc.
    cbv zeta in Hsc.
    destruct new_scope as [|l ls] eqn:Hlines'; [done|].
    injection Hsc as _ <-. split; [done|].
    simpl. by case_bool_decide.
Qed.

Lemma scope_file_replaces_scope_witness :
  scope_step (sample_world ns0) (VStr "web") (set_Targets ["targets.txt"] ns0) proc0
  = (add_events proc0 [EvLogInfo "Scope file: trying to load targets from it .."],
     Ret ["a.com"; "b.com"; "c d"])
  ∧ ∃ cfg,
      (process_options (sample_world (set_Targets ["targets.txt"] ns0))
         ["targets.txt"] proc0).2 = Ret cfg
      ∧ Cfg.Scope cfg = ["a.com"; "b.com"; "c d"].
Proof.
  assert (Hlines : lines_of targets_txt
                     ["  a.com " +:+ String "009" ""; String "160" "";
                      String "028" "b.com" +:+ String "133" ""; " c d "]).
  { repeat split; [done|]. repeat constructor. }
  assert (Htrim : Forall2 trimmed_of
                    ["  a.com " +:+ String "009" ""; String "160" "";
                     String "028" "b.com" +:+ String "133" ""; " c d "]
                    ["a.com"; ""; "b.com"; "c d"]).
  { repeat constructor.
    - exists "  ", (" " +:+ String "009" "").
      repeat split; by intros c [= <-].
    - exists (String "160" ""), "". by repeat split.
    - exists (String "028" ""), (String "133" "").
      repeat split; by intros c [= <-].
    - exists " ", " ". repeat split; by intros c [= <-]. }
  destruct (scope_file_replaces_scope
              (sample_world (set_Targets ["targets.txt"] ns0)) "targets.txt"
              targets_txt eq_refl) as [_ H].
  destruct (H _ _ Hlines Htrim) as [H1 H2].
  split.
  - exact (H1 (VStr "web") (set_Targets ["targets.txt"] ns0) proc0 eq_refl).
  - destruct (process_options (sample_world (set_Targets ["targets.txt"] ns0))
                ["targets.txt"] proc0) as [p' [cfg|e]] eqn:Hrun.
    + exists cfg. split; [reflexivity|].
      destruct (H2 _ _ _ _ _ eq_refl eq_refl Hrun) as [_ Hif].
      vm_compute in Hrun. injection Hrun as <- <-. exact Hif.
    + vm_compute in Hrun. discriminate Hrun.
Defined.

(** C4, counterexample.  [locked.txt] is an existing regular file that may
    not be read.  Named as the single positional argument it gives neither
    a scope nor a usage error: reading it raises [PermissionError], which
    leaves [process_options]. *)
Lemma scope_file_unreadable :
  let w := sample_world (set_Targets ["locked.txt"] ns0) in
  os_path_isfile w "locked.txt" = true
  ∧ scope_step w (VStr "web") (set_Targets ["locked.txt"] ns0) proc0
    = (add_events proc0 [EvLogInfo "Scope file: trying to load targets from it .."],
       Raise (OtherError "PermissionError"))
  ∧ (process_options w ["locked.txt"] proc0).2 = Raise (OtherError "PermissionError").
Proof. by vm_compute. Qed.

Lemma string_forall_app (P : ascii → bool) s t :
  string_forall P (s +:+ t) = string_forall P s && string_forall P t.
Proof.
  induction s as [|c s IH]; [by rewrite app_empty_l|].
  rewrite app_cons. simpl. by rewrite IH, andb_assoc.
Qed.

Lemma check_targets_nonempty scope : ∀ p,
  Forall (λ t, t ≠ "") scope → (check_targets scope p).2 ≠ Raise IndexError.
Proof.
  induction scope as [|x scope IH]; intros p H; [done|].
  apply Forall_cons in H as [Hx H]. rewrite check_targets_cons.
  destruct (check_target_cases x p)
    as [[_ Hr]|[[_ (e & Hr & Hnil & _)]|[_ (t' & _ & Hr)]]]; rewrite Hr.
  - by apply IH.
  - done.
  - done.
Qed.

(** X18.  The scope the scope step takes from a file is not empty, and
    each of its targets is non-empty, holds no newline and neither begins
    nor ends with a whitespace character; the target check that follows
    cannot fail on it with an indexing error. *)
Theorem scope_file_targets_clean w pg arg path content p p' scope :
  Targets arg = Some [path] →
  fs_files w !! path = Some (ReadText content) →
  scope_step w pg arg p = (p', Ret scope) →
  scope ≠ []
  ∧ Forall (λ t, t ≠ "" ∧ newline_free t = true
                 ∧ (∀ c, first_char t = Some c → white c = false)
                 ∧ (∀ c, last_char t = Some c → white c = false)) scope
  ∧ ∀ q, (check_targets scope q).2 ≠ Raise IndexError.
Proof.
  intros HT Hf Hrun.
  assert (Hall : Forall (λ t, t ≠ "" ∧ newline_free t = true
                 ∧ (∀ c, first_char t = Some c → white c = false)
                 ∧ (∀ c, last_char t = Some c → white c = false))
                 (scope_of_file content)).
  { unfold scope_of_file. apply Forall_forall. intros t Ht.
    apply list_elem_of_filter in Ht as [Hne Ht].
    apply list_elem_of_fmap in Ht as (line & -> & Hline).
    pose proof (split_newline_free content) as Hfree.
    eapply Forall_forall in Hfree; [|exact Hline].
    destruct (strip_trimmed line) as (l & r & Hl & _ & _ & Hfirst & Hlast).
    split; [done|]. split; [|by split].
    rewrite Hl in Hfree. unfold newline_free in *.
    rewrite !string_forall_app in Hfree.
    apply andb_true_iff in Hfree as [_ Hfree].
    by apply andb_true_iff in Hfree as [Hfree _]. }
  rewrite (scope_step_file w pg arg path content p HT Hf) in Hrun.
  cbv zeta in Hrun.
  destruct (scope_of_file content) as [|x xs] eqn:Hsc; [done|].
  injection Hrun as _ <-.
  split; [done|]. split; [exact Hall|].
  intros q. apply check_targets_nonempty.
  eapply Forall_impl; [exact Hall|]. by intros t [? _].
Qed.

Lemma scope_file_targets_clean_witness :
  ["a.com"; "b.com"; "c d"] ≠ []
  ∧ Forall (λ t, t ≠ "" ∧ newline_free t = true
                 ∧ (∀ c, first_char t = Some c → white c = false)
                 ∧ (∀ c, last_char t = Some c → white c = false))
      ["a.com"; "b.com"; "c d"]
  ∧ ∀ q, (check_targets ["a.com"; "b.com"; "c d"] q).2 ≠ Raise IndexError.
Proof.
  apply (scope_file_targets_clean (sample_world ns0) (VStr "web")
           (set_Targets ["targets.txt"] ns0) "targets.txt" targets_txt proc0
           (add_events proc0 [EvLogInfo "Scope file: trying to load targets from it .."]));
    reflexivity.
Defined.

(* ===================================================================== *)
(** ** The engine run *)
(* ===================================================================== *)

Lemma add_events_as p evs :
  {| trace := trace p ++ evs; cli_options := cli_options p |} = add_events p evs.
Proof. reflexivity. Qed.

Lemma call_core_start_run w cfg p :
  call_core_start w cfg p
  = (add_events p [EvCoreStart cfg], core_start w cfg (trace p ++ [EvCoreStart cfg])).
Proof. reflexivity. Qed.

Lemma call_core_finish_run w p evs :
  call_core_finish w (add_events p evs)
  = (add_events p (evs ++ [EvCoreFinish]),
     core_finish w (trace p ++ evs ++ [EvCoreFinish])).
Proof.
  unfold call_core_finish, mbind, M_bind, bind, emit, get_trace, lift. simpl.
  by rewrite <- !app_assoc.
Qed.

Lemma call_clean_run w pid p evs :
  call_clean_temp_storage_dirs w pid (add_events p evs)
  = (add_events p (evs ++ [EvCleanTempStorage pid]),
     clean_temp_storage_dirs w pid (trace p ++ evs ++ [EvCleanTempStorage pid])).
Proof.
  unfold call_clean_temp_storage_dirs, mbind, M_bind, bind, emit, get_trace, lift.
  simpl. by rewrite <- !app_assoc.
Qed.

Lemma emit_run e p evs :
  emit e (add_events p evs) = (add_events p (evs ++ [e]), Ret tt).
Proof. unfold emit, add_events. simpl. by rewrite <- app_assoc. Qed.

(** The engine body, lines 245-256, without the [finally] clause. *)
Lemma run_engine_unfold w cfg pid p :
  run_engine w cfg pid p
  = try_finally
      (λ p, match call_core_start w cfg p with
            | (p1, Ret started) =>
                match (if started then call_core_finish w else ret tt) p1 with
                | (p2, Raise e) =>
                    if is_KeyboardInterrupt e || is_SystemExit e
                    then (if is_KeyboardInterrupt e
                          then logging_warn "OWTF was aborted by the user:";;
                               logging_info "Please check report/plugin output files for partial results";;
                               call_core_finish w
                          else ret tt) p2
                    else (p2, Raise e)
                | r => r
                end
            | (p1, Raise e) =>
                if is_KeyboardInterrupt e || is_SystemExit e
                then (if is_KeyboardInterrupt e
                      then logging_warn "OWTF was aborted by the user:";;
                           logging_info "Please check report/plugin output files for partial results";;
                           call_core_finish w
                      else ret tt) p1
                else (p1, Raise e)
            end)
      (call_clean_temp_storage_dirs w pid) p.
Proof.
  unfold run_engine, try_finally, try_except, mbind at 1, M_bind at 1, bind at 1.
  destruct (call_core_start w cfg p) as [p1 [started|e]]; reflexivity.
Qed.

Lemma interrupt_handler_run w p evs :
  (logging_warn "OWTF was aborted by the user:";;
   logging_info "Please check report/plugin output files for partial results";;
   call_core_finish w) (add_events p evs)
  = (add_events p
       (evs ++ [EvLogWarn "OWTF was aborted by the user:";
                EvLogInfo "Please check report/plugin output files for partial results";
                EvCoreFinish]),
     core_finish w
       (trace p ++ evs
        ++ [EvLogWarn "OWTF was aborted by the user:";
            EvLogInfo "Please check report/plugin output files for partial results";
            EvCoreFinish])).
Proof.
  unfold logging_warn, logging_info.
  rewrite (bind_Ret _ _ _ _ _ (emit_run _ _ _)).
  rewrite (bind_Ret _ _ _ _ _ (emit_run _ _ _)).
  rewrite call_core_finish_run. by rewrite <- !app_assoc.
Qed.

Lemma try_finally_run {A} (m : M A) (f : M unit) p p1 r p2 :
  m p = (p1, r) → f p1 = (p2, Ret tt) → try_finally m f p = (p2, r).
Proof. intros Hm Hf. unfold try_finally. by rewrite Hm, Hf. Qed.

(** X19.  Finish is called only after a real start: when start reports
    real work the engine run is start, finish, cleanup; when it reports
    none it is start, cleanup, and finish is not called.  With a
    successful cleanup the run then returns normally. *)
Theorem finish_only_after_real_start w cfg pid p started :
  core_start w cfg (trace p ++ [EvCoreStart cfg]) = Ret started →
  (started = true →
   core_finish w (trace p ++ [EvCoreStart cfg; EvCoreFinish]) = Ret tt) →
  (∀ tr, clean_temp_storage_dirs w pid tr = Ret tt) →
  run_engine w cfg pid p
  = (add_events p
       (if started
        then [EvCoreStart cfg; EvCoreFinish; EvCleanTempStorage pid]
        else [EvCoreStart cfg; EvCleanTempStorage pid]),
     Ret tt).
Proof.
  intros Hstart Hfinish Hclean. rewrite run_engine_unfold.
  destruct started.
  - eapply try_finally_run.
    + rewrite call_core_start_run, Hstart, call_core_finish_run.
      simpl. rewrite (Hfinish eq_refl). reflexivity.
    + rewrite call_clean_run, Hclean. reflexivity.
  - eapply try_finally_run.
    + rewrite call_core_start_run, Hstart. reflexivity.
    + rewrite call_clean_run, Hclean. reflexivity.
Qed.

Lemma finish_only_after_real_start_witness :
  run_engine (with_engine (sample_world ns0) (Ret false) (Ret tt) (Ret tt))
    (assemble (sample_world ns0) ns0 (VStr "web") ∅ []) 42 proc0
  = (add_events proc0
       [EvCoreStart (assemble (sample_world ns0) ns0 (VStr "web") ∅ []);
        EvCleanTempStorage 42],
     Ret tt).
Proof.
  apply (finish_only_after_real_start
           (with_engine (sample_world ns0) (Ret false) (Ret tt) (Ret tt))
           (assemble (sample_world ns0) ns0 (VStr "web") ∅ []) 42 proc0 false).
  - reflexivity.
  - discriminate.
  - reflexivity.
Defined.

(** X20.  A user interrupt raised by start is caught: the abort is logged
    with the hint about partial results, finish is called once, cleanup
    runs, and with finish and cleanup succeeding the run returns normally
    instead of propagating the interrupt. *)
Theorem interrupt_during_start_is_recovered w cfg pid p msg :
  core_start w cfg (trace p ++ [EvCoreStart cfg]) = Raise (KeyboardInterrupt msg) →
  core_finish w
    (trace p
     ++ [EvCoreStart cfg;
         EvLogWarn "OWTF was aborted by the user:";
         EvLogInfo "Please check report/plugin output files for partial results";
         EvCoreFinish]) = Ret tt →
  (∀ tr, clean_temp_storage_dirs w pid tr = Ret tt) →
  run_engine w cfg pid p
  = (add_events p
       [EvCoreStart cfg;
        EvLogWarn "OWTF was aborted by the user:";
        EvLogInfo "Please check report/plugin output files for partial results";
        EvCoreFinish;
        EvCleanTempStorage pid],
     Ret tt).
Proof.
  intros Hstart Hfinish Hclean. rewrite run_engine_unfold.
  eapply try_finally_run.
  - rewrite call_core_start_run, Hstart. cbn [is_KeyboardInterrupt orb].
    rewrite interrupt_handler_run. simpl. rewrite Hfinish. reflexivity.
  - rewrite call_clean_run, Hclean. reflexivity.
Qed.

Lemma interrupt_during_start_is_recovered_witness :
  run_engine (with_engine (sample_world ns0) (Raise (KeyboardInterrupt "")) (Ret tt) (Ret tt))
    (assemble (sample_world ns0) ns0 (VStr "web") ∅ []) 42 proc0
  = (add_events proc0
       [EvCoreStart (assemble (sample_world ns0) ns0 (VStr "web") ∅ []);
        EvLogWarn "OWTF was aborted by the user:";
        EvLogInfo "Please check report/plugin output files for partial results";
        EvCoreFinish;
        EvCleanTempStorage 42],
     Ret tt).
Proof.
  apply (interrupt_during_start_is_recovered
           (with_engine (sample_world ns0) (Raise (KeyboardInterrupt "")) (Ret tt) (Ret tt))
           (assemble (sample_world ns0) ns0 (VStr "web") ∅ []) 42 proc0 "");
    reflexivity.
Defined.

(** X21.  When the first call of finish, after a real start, is itself
    interrupted by the user, the handler calls finish a second time before
    the cleanup. *)
Theorem interrupted_finish_is_called_again w cfg pid p msg r :
  core_start w cfg (trace p ++ [EvCoreStart cfg]) = Ret true →
  core_finish w (trace p ++ [EvCoreStart cfg; EvCoreFinish])
  = Raise (KeyboardInterrupt msg) →
  core_finish w
    (trace p
     ++ [EvCoreStart cfg; EvCoreFinish;
         EvLogWarn "OWTF was aborted by the user:";
         EvLogInfo "Please check report/plugin output files for partial results";
         EvCoreFinish]) = r →
  (∀ tr, clean_temp_storage_dirs w pid tr = Ret tt) →
  run_engine w cfg pid p
  = (add_events p
       [EvCoreStart cfg; EvCoreFinish;
        EvLogWarn "OWTF was aborted by the user:";
        EvLogInfo "Please check report/plugin output files for partial results";
        EvCoreFinish;
        EvCleanTempStorage pid],
     r).
Proof.
  intros Hstart Hfinish1 Hfinish2 Hclean. rewrite run_engine_unfold.
  eapply try_finally_run.
  - rewrite call_core_start_run, Hstart, call_core_finish_run.
    simpl app. rewrite Hfinish1. cbn [is_KeyboardInterrupt orb].
    rewrite interrupt_handler_run. simpl app. rewrite Hfinish2. reflexivity.
  - rewrite call_clean_run, Hclean. reflexivity.
Qed.

(** X22.  A cooperative exit raised by start is swallowed: finish is not
    called, cleanup runs, and the run returns normally when the cleanup
    succeeds. *)
Theorem cooperative_exit_is_swallowed w cfg pid p e :
  core_start w cfg (trace p ++ [EvCoreStart cfg]) = Raise e →
  is_SystemExit e = true →
  (∀ tr, clean_temp_storage_dirs w pid tr = Ret tt) →
  run_engine w cfg pid p
  = (add_events p [EvCoreStart cfg; EvCleanTempStorage pid], Ret tt).
Proof.
  intros Hstart He Hclean. rewrite run_engine_unfold.
  eapply try_finally_run.
  - rewrite call_core_start_run, Hstart, He, orb_true_r.
    assert (is_KeyboardInterrupt e = false) as -> by (by destruct e).
    reflexivity.
  - rewrite call_clean_run, Hclean. reflexivity.
Qed.

Lemma cooperative_exit_is_swallowed_witness :
  run_engine (with_engine (sample_world ns0) (Raise (SystemExit 0)) (Ret tt) (Ret tt))
    (assemble (sample_world ns0) ns0 (VStr "web") ∅ []) 42 proc0
  = (add_events proc0
       [EvCoreStart (assemble (sample_world ns0) ns0 (VStr "web") ∅ []);
        EvCleanTempStorage 42],
     Ret tt).
Proof.
  apply (cooperative_exit_is_swallowed
           (with_engine (sample_world ns0) (Raise (SystemExit 0)) (Ret tt) (Ret tt))
           (assemble (sample_world ns0) ns0 (VStr "web") ∅ []) 42 proc0 (SystemExit 0));
    reflexivity.
Defined.

(** X23.  Any other exception raised by start is not handled: finish is
    not called, cleanup still runs, and the exception leaves the run,
    unless the cleanup itself raises, in which case the cleanup's exception
    leaves instead. *)
Theorem other_engine_exception_propagates w cfg pid p e :
  core_start w cfg (trace p ++ [EvCoreStart cfg]) = Raise e →
  is_KeyboardInterrupt e = false → is_SystemExit e = false →
  run_engine w cfg pid p
  = (add_events p [EvCoreStart cfg; EvCleanTempStorage pid],
     match clean_temp_storage_dirs w pid
             (trace p ++ [EvCoreStart cfg; EvCleanTempStorage pid]) with
     | Ret _ => Raise e
     | Raise e' => Raise e'
     end).
Proof.
  intros Hstart Hk He. rewrite run_engine_unfold. unfold try_finally.
  rewrite call_core_start_run, Hstart, Hk, He. simpl orb. cbv iota.
  rewrite call_clean_run. simpl app.
  by destruct (clean_temp_storage_dirs w pid _) as [[]|e'].
Qed.

Lemma other_engine_exception_propagates_witness :
  run_engine (with_engine (sample_world ns0) (Raise (OtherError "IOError")) (Ret tt) (Ret tt))
    (assemble (sample_world ns0) ns0 (VStr "web") ∅ []) 42 proc0
  = (add_events proc0
       [EvCoreStart (assemble (sample_world ns0) ns0 (VStr "web") ∅ []);
        EvCleanTempStorage 42],
     Raise (OtherError "IOError")).
Proof.
  apply (other_engine_exception_propagates
           (with_engine (sample_world ns0) (Raise (OtherError "IOError")) (Ret tt) (Ret tt))
           (assemble (sample_world ns0) ns0 (VStr "web") ∅ []) 42 proc0
           (OtherError "IOError")); reflexivity.
Defined.

Lemma interrupted_finish_is_called_again_witness :
  run_engine
    (with_engine (sample_world ns0) (Ret true) (Raise (KeyboardInterrupt "")) (Ret tt))
    (assemble (sample_world ns0) ns0 (VStr "web") ∅ []) 42 proc0
  = (add_events proc0
       [EvCoreStart (assemble (sample_world ns0) ns0 (VStr "web") ∅ []);
        EvCoreFinish;
        EvLogWarn "OWTF was aborted by the user:";
        EvLogInfo "Please check report/plugin output files for partial results";
        EvCoreFinish;
        EvCleanTempStorage 42],
     Raise (KeyboardInterrupt "")).
Proof.
  apply (interrupted_finish_is_called_again
           (with_engine (sample_world ns0) (Ret true) (Raise (KeyboardInterrupt "")) (Ret tt))
           (assemble (sample_world ns0) ns0 (VStr "web") ∅ []) 42 proc0 ""
           (Raise (KeyboardInterrupt ""))); reflexivity.
Defined.

(* ===================================================================== *)
(** ** Initialisation and what reaches the engine *)
(* ===================================================================== *)

Lemma seq_step {B} (m : M unit) (k : M B) p :
  (m;; k) p = match m p with
              | (p', Ret _) => k p'
              | (p', Raise e) => (p', Raise e)
              end.
Proof. reflexivity. Qed.

Lemma call_init_run w c q :
  call_init w c q = (add_events q [EvInit c], init_outcome w c (trace q ++ [EvInit c])).
Proof. reflexivity. Qed.

Lemma initialise_calls w root_dir pid :
  initialise w root_dir pid
  = try_except (run_calls w (init_calls root_dir pid))
      (λ e, bool_decide (e = DatabaseNotRunning)) (λ _, sys_exit (-1)).
Proof. reflexivity. Qed.

(** A sequence of calls runs up to the first call that raises, and its
    outcome is the outcome of the last call made. *)
Lemma run_calls_spec w cs : ∀ p,
  cs ≠ [] →
  ∃ k c, cs !! k = Some c
    ∧ (∀ j c', (j < k)%nat → cs !! j = Some c' →
         init_outcome w c' (trace p ++ (EvInit <$> take (S j) cs)) = Ret tt)
    ∧ (init_outcome w c (trace p ++ (EvInit <$> take (S k) cs)) = Ret tt →
       S k = length cs)
    ∧ run_calls w cs p
      = (add_events p (EvInit <$> take (S k) cs),
         init_outcome w c (trace p ++ (EvInit <$> take (S k) cs))).
Proof.
  induction cs as [|c cs IH]; [done|]. intros p _.
  destruct cs as [|c2 cs].
  { exists 0%nat, c. split; [done|]. split; [intros; lia|]. by split. }
  change (run_calls w (c :: c2 :: cs) p)
    with ((call_init w c;; run_calls w (c2 :: cs)) p).
  rewrite seq_step, call_init_run.
  destruct (init_outcome w c (trace p ++ [EvInit c])) as [[]|e] eqn:Hc.
  - destruct (IH (add_events p [EvInit c]) ltac:(done))
      as (k & c' & Hk & Hbefore & Hlast & Hrun).
    cbn [add_events trace] in Hbefore, Hlast, Hrun.
    exists (S k), c'. split; [done|].
    change (take (S (S k)) (c :: c2 :: cs)) with (c :: take (S k) (c2 :: cs)).
    rewrite fmap_cons, (cons_middle (EvInit c)), app_assoc.
    split; [|split].
    + intros [|j] cj Hj Hl.
      * injection Hl as <-. exact Hc.
      * change (take (S (S j)) (c :: c2 :: cs)) with (c :: take (S j) (c2 :: cs)).
        rewrite fmap_cons, (cons_middle (EvInit c)), app_assoc.
        apply Hbefore; [lia|done].
    + intros H. apply Hlast in H. simpl in *. lia.
    + rewrite Hrun. by rewrite add_events_app.
  - exists 0%nat, c. split; [done|]. split; [intros; lia|].
    cbn [take fmap list_fmap]. split; [by rewrite Hc|].
    by rewrite Hc.
Qed.

(** X24.  Initialisation makes its nine calls in the source order (the
    session first, the three test-group files before the plugins, the
    plugins last) and stops at the first call that raises.  There is a
    last call made: every call before it returned, it is the ninth when
    it returns, nothing but the calls up to it has happened, and its
    outcome decides the outcome of the initialisation: a return is a
    return, DatabaseNotRunning becomes the exit with status -1, and any
    other exception is passed on as it is. *)
Theorem initialisation_in_order_until_failure w root_dir pid p :
  let calls := init_calls root_dir pid in
  let outcome k c := init_outcome w c (trace p ++ (EvInit <$> take (S k) calls)) in
  ∃ k c, calls !! k = Some c
    ∧ (∀ j c', (j < k)%nat → calls !! j = Some c' → outcome j c' = Ret tt)
    ∧ (outcome k c = Ret tt → k = 8%nat)
    ∧ initialise w root_dir pid p
      = (add_events p (EvInit <$> take (S k) calls),
         match outcome k c with
         | Ret _ => Ret tt
         | Raise e => if bool_decide (e = DatabaseNotRunning)
                      then Raise (SystemExit (-1))
                      else Raise e
         end).
Proof.
  intros calls outcome.
  destruct (run_calls_spec w calls p ltac:(done))
    as (k & c & Hk & Hbefore & Hlast & Hrun).
  exists k, c. split; [done|]. split; [exact Hbefore|].
  split; [intros H; apply Hlast in H; simpl in H; lia|].
  rewrite initialise_calls. unfold try_except. fold calls. rewrite Hrun.
  fold (outcome k c). destruct (outcome k c) as [[]|e]; [done|].
  by destruct (bool_decide _).
Qed.

Section Appends.

Lemma appends_ret {A} (a : A) : appends (ret a).
Proof. intros p. exists []. by rewrite add_events_nil. Qed.

Lemma appends_mret {A} (a : A) : appends (mret a : M A).
Proof. apply appends_ret. Qed.

Lemma appends_raise {A} e : appends (raise (A := A) e).
Proof. intros p. exists []. by rewrite add_events_nil. Qed.

Lemma appends_lift {A} (r : res A) : appends (lift r).
Proof. intros p. exists []. by rewrite add_events_nil. Qed.

Lemma appends_get_trace : appends get_trace.
Proof. intros p. exists []. by rewrite add_events_nil. Qed.

Lemma appends_emit e : appends (emit e).
Proof. intros p. by exists [e]. Qed.

Lemma appends_bind {A B} (m : M A) (k : A → M B) :
  appends m → (∀ a, appends (k a)) → appends (m ≫= k).
Proof.
  intros Hm Hk p. destruct (Hm p) as (evs & Hevs).
  unfold mbind, M_bind, bind. destruct (m p) as [p1 [a|e]]; simpl in *.
  - destruct (Hk a p1) as (evs' & Hevs'). exists (evs ++ evs').
    by rewrite Hevs', Hevs, add_events_app.
  - by exists evs.
Qed.

Lemma appends_try_except {A} (m : M A) handles h :
  appends m → (∀ e, appends (h e)) → appends (try_except m handles h).
Proof.
  intros Hm Hh p. destruct (Hm p) as (evs & Hevs).
  unfold try_except. destruct (m p) as [p1 [a|e]]; simpl in *.
  - by exists evs.
  - destruct (handles e); [|by exists evs].
    destruct (Hh e p1) as (evs' & Hevs'). exists (evs ++ evs').
    by rewrite Hevs', Hevs, add_events_app.
Qed.

Lemma appends_for_each {A S} (body : S → A → M S) l s :
  (∀ s x, appends (body s x)) → appends (for_each body l s).
Proof.
  intros Hb. revert s. induction l as [|x l IH]; intros s; simpl.
  - apply appends_ret.
  - apply appends_bind; [apply Hb | intros s'; apply IH].
Qed.

Lemma appends_usage {A} msg : appends (usage (A := A) msg).
Proof.
  unfold usage. apply appends_bind; [apply appends_emit|].
  intros _. apply appends_raise.
Qed.

Lemma appends_as_str v : appends (as_str v).
Proof. destruct v; simpl; first [apply appends_ret | apply appends_raise]. Qed.

Lemma appends_open_read w path : appends (open_read w path).
Proof.
  unfold open_read. destruct (_ !! _) as [[]|];
    first [apply appends_ret | apply appends_raise].
Qed.

Lemma appends_lift_format o : appends (lift_format o).
Proof. destruct o; simpl; first [apply appends_ret | apply appends_raise]. Qed.

End Appends.

Ltac appends_step :=
  match goal with
  | |- appends (_ ≫= _) => apply appends_bind; [|intros ?]
  | |- appends (ret _) => apply appends_ret
  | |- appends (mret _) => apply appends_mret
  | |- appends (raise _) => apply appends_raise
  | |- appends (sys_exit _) => apply appends_raise
  | |- appends (lift _) => apply appends_lift
  | |- appends get_trace => apply appends_get_trace
  | |- appends (usage _) => apply appends_usage
  | |- appends (as_str _) => apply appends_as_str
  | |- appends (open_read _ _) => apply appends_open_read
  | |- appends (lift_format _) => apply appends_lift_format
  | |- appends (emit _) => apply appends_emit
  | |- appends (logging_info _) => apply appends_emit
  | |- appends (logging_warn _) => apply appends_emit
  | |- appends (try_except _ _ _) => apply appends_try_except; [|intros ?]
  | |- appends (for_each _ _ _) => apply appends_for_each; intros ? ?
  | |- appends (if ?b then _ else _) => destruct b
  | |- appends (match ?x with _ => _ end) => destruct x
  end.

Ltac solve_appends := cbv zeta; repeat (appends_step; cbv zeta).

Lemma appends_process_options w ua : appends (process_options w ua).
Proof.
  unfold process_options. apply appends_bind.
  - unfold options_prelude, parse_step, profiles_step, only_plugins_step,
      except_plugins_step, get_plugins_from_arg.
    solve_appends. unfold profile_round. solve_appends.
  - intros st.
    unfold options_resolve, tor_step, outbound_step, inbound_step, scope_step,
      check_targets, check_port.
    solve_appends. unfold check_target. solve_appends.
Qed.

Lemma appends_initialise w root_dir pid : appends (initialise w root_dir pid).
Proof. unfold initialise, call_init. solve_appends. Qed.

Lemma appends_run_engine w cfg pid : appends (run_engine w cfg pid).
Proof.
  intros p. unfold run_engine. rewrite try_finally_state, call_clean_state.
  assert (H : appends
            (try_except
               (call_core_start w cfg ≫= λ started : bool,
                  if started then call_core_finish w else ret tt)
               (λ e, is_KeyboardInterrupt e || is_SystemExit e)
               (λ e, if is_KeyboardInterrupt e
                     then logging_warn "OWTF was aborted by the user:";;
                          logging_info "Please check report/plugin output files for partial results";;
                          call_core_finish w
                     else ret tt))).
  { unfold call_core_start, call_core_finish. solve_appends. }
  destruct (H p) as (evs & ->). eexists. by rewrite add_events_app.
Qed.

Lemma emits_bootstrap_events w args (P : event → Prop) :
  P EvBanner → (∀ c, P (EvInit c)) → (∀ m, P (EvUsage m)) →
  (∀ m, P (EvLogInfo m)) → (∀ m, P (EvLogWarn m)) → P EvTorHelp →
  emits P (bootstrap w args).
Proof.
  intros Hb Hi Hu Hinfo Hw Ht.
  unfold bootstrap. apply emits_bind; [by apply emits_emit|intros _].
  apply emits_bind; [apply emits_lift|intros args0].
  apply emits_bind.
  { unfold initialise, call_init. solve_emits. }
  intros _. apply emits_bind.
  { by apply emits_process_options. }
  intros cfg. solve_emits.
Qed.

Lemma bootstrap_Ret w args p p1 cfg pid :
  bootstrap w args p = (p1, Ret (cfg, pid)) →
  cli_options p1 = Some cfg
  ∧ ∃ q q', process_options w (tail args) q = (q', Ret cfg).
Proof.
  unfold bootstrap. intros H.
  apply bind_inv_Ret in H as (? & pa & _ & H).
  apply bind_inv_Ret in H as (args0 & pb & _ & H).
  apply bind_inv_Ret in H as (? & pc & _ & H).
  apply bind_inv_Ret in H as (cfg' & pd & Hproc & H).
  unfold mbind, M_bind, bind, set_cli_options, logging_warn, emit, ret in H.
  simpl in H. injection H as <- <- _. split; [done|]. eauto.
Qed.

Lemma engine_body_starts w cfg (k : bool → M unit) handles (h : exn → M unit) p :
  (∀ a, appends (k a)) → (∀ e, appends (h e)) →
  ∃ evs, (try_except (call_core_start w cfg ≫= k) handles h p).1
         = add_events p (EvCoreStart cfg :: evs).
Proof.
  intros Hk Hh. unfold try_except, mbind, M_bind, bind.
  rewrite call_core_start_run.
  destruct (core_start w cfg _) as [a|e].
  - destruct (Hk a (add_events p [EvCoreStart cfg])) as (evs & Hevs).
    destruct (k a (add_events p [EvCoreStart cfg])) as [p2 [u|e]];
      simpl in Hevs; subst p2.
    + exists evs. by rewrite add_events_app.
    + destruct (handles e).
      * destruct (Hh e (add_events (add_events p [EvCoreStart cfg]) evs))
          as (evs' & ->).
        exists (evs ++ evs'). by rewrite !add_events_app.
      * exists evs. by rewrite add_events_app.
  - destruct (handles e).
    + destruct (Hh e (add_events p [EvCoreStart cfg])) as (evs' & ->).
      exists evs'. by rewrite add_events_app.
    + by exists [].
Qed.

Lemma run_engine_starts w cfg pid p :
  ∃ rest, (run_engine w cfg pid p).1 = add_events p (EvCoreStart cfg :: rest).
Proof.
  unfold run_engine. rewrite try_finally_state, call_clean_state.
  edestruct (engine_body_starts w cfg) as (evs & ->).
  - intros a. destruct a; unfold call_core_finish; solve_appends.
  - intros e. unfold call_core_finish. solve_appends.
  - eexists. by rewrite add_events_app.
Qed.

(** X25.  The engine is started with the configuration that was
    published: when the bootstrap completes, the configuration returned by
    [process_options] on the arguments after the program name is stored in
    the process-wide [cli_options], the next event is the start of the
    engine on that same configuration, and the published value is still
    in place when [main] ends. *)
Theorem engine_started_with_published_config w args p p1 cfg pid :
  bootstrap w args p = (p1, Ret (cfg, pid)) →
  cli_options p1 = Some cfg
  ∧ (∃ q q', process_options w (tail args) q = (q', Ret cfg))
  ∧ cli_options (main w args p).1 = Some cfg
  ∧ ∃ rest, trace (main w args p).1 = trace p1 ++ EvCoreStart cfg :: rest.
Proof.
  intros Hb. destruct (bootstrap_Ret _ _ _ _ _ _ Hb) as [Hcli Hproc].
  split; [done|]. split; [done|].
  unfold main. rewrite (bind_Ret _ _ _ _ _ Hb). cbn [fst snd].
  destruct (run_engine_starts w cfg pid p1) as (rest & ->).
  split; [done|]. by exists rest.
Qed.

Lemma engine_started_with_published_config_witness :
  cli_options (main (sample_world (set_Targets ["a.com"] ns0)) ["owtf.py"; "a.com"] proc0).1
  = Some (assemble (sample_world (set_Targets ["a.com"] ns0))
            (set_PluginType (VList ["active"; "passive"]) (set_Targets ["a.com"] ns0))
            (VStr "web") ∅ ["a.com"]).
Proof.
  destruct (bootstrap (sample_world (set_Targets ["a.com"] ns0)) ["owtf.py"; "a.com"] proc0)
    as [p1 [[cfg pid]|e]] eqn:Hb.
  - destruct (engine_started_with_published_config _ _ _ _ _ _ Hb) as (_ & _ & H & _).
    rewrite H. vm_compute in Hb. injection Hb as _ <- _. reflexivity.
  - vm_compute in Hb. discriminate Hb.
Defined.

(** X26.  When the bootstrap ends with an exception (a failed
    initialisation call, a usage error, the TOR help exit), [main] has
    published no configuration and has neither started nor finished the
    engine. *)
Theorem failed_bootstrap_never_reaches_engine w args p p1 e :
  bootstrap w args p = (p1, Raise e) →
  main w args p = (p1, Raise e)
  ∧ cli_options p1 = cli_options p
  ∧ ∃ evs, trace p1 = trace p ++ evs ∧ Forall (λ ev, ¬ is_engine_event ev) evs.
Proof.
  intros Hb. split; [unfold main; by rewrite (bind_Raise _ _ _ _ _ Hb)|].
  split.
  - revert Hb. unfold bootstrap. intros H.
    unfold mbind at 1, M_bind at 1, bind at 1 in H. simpl in H.
    set (pa := {| trace := trace p ++ [EvBanner]; cli_options := cli_options p |}) in *.
    unfold mbind at 1, M_bind at 1, bind at 1 in H.
    destruct (lift (list_index args 0) pa) as [pb [args0|e0]] eqn:Hl.
    2:{ unfold lift in Hl. injection Hl as <- _. by injection H as <- _. }
    unfold lift in Hl. injection Hl as <- _.
    unfold mbind at 1, M_bind at 1, bind at 1 in H.
    destruct (appends_initialise w (root_dir_of w args0) (os_getpid w) pa)
      as (evs1 & Hi).
    destruct (initialise w (root_dir_of w args0) (os_getpid w) pa) as [pc [[]|e1]].
    2:{ injection H as <- _. simpl in Hi. by rewrite Hi. }
    simpl in Hi. subst pc.
    unfold mbind at 1, M_bind at 1, bind at 1 in H.
    destruct (appends_process_options w (tail args) (add_events pa evs1))
      as (evs2 & Hp).
    destruct (process_options w (tail args) (add_events pa evs1)) as [pd [cfg|e2]].
    2:{ injection H as <- _. simpl in Hp. by rewrite Hp. }
    discriminate H.
  - destruct (emits_bootstrap_events w args (λ ev, ¬ is_engine_event ev))
      with (p := p) as (evs & Hevs & Htr); try (simpl; tauto).
    rewrite Hb in Htr. eauto.
Qed.

Lemma failed_bootstrap_never_reaches_engine_witness :
  main (with_failing_init (sample_world ns0) load_plugins (OtherError "IOError"))
    ["owtf.py"] proc0
  = (add_events proc0 (EvBanner :: init_sequence "/opt/owtf" 42),
     Raise (OtherError "IOError")).
Proof.
  apply (failed_bootstrap_never_reaches_engine
           (with_failing_init (sample_world ns0) load_plugins (OtherError "IOError"))
           ["owtf.py"] proc0).
  vm_compute. reflexivity.
Defined.

(* ===================================================================== *)
(** ** How a resolution can end *)
(* ===================================================================== *)

Lemma usage_only_check_port fields counts m1 m2 :
  0%nat ∉ counts → usage_only (check_port fields counts m1 m2).
Proof.
  intros H0 p. unfold check_port. case_bool_decide as Hc; simpl; [|done].
  unfold mbind, M_bind, bind, lift, list_last.
  destruct fields as [|f fields]; [done|].
  destruct (last_is_Some (f :: fields)) as [_ Hl].
  destruct (Hl ltac:(done)) as [x ->]. by destruct (Py.int x).
Qed.

Lemma last_split_is_Some sep s : ∃ x, last (Py.split sep s) = Some x.
Proof.
  rewrite split_cons. destruct (last_is_Some ((Py.split_go sep 0 s).1
                                              :: (Py.split_go sep 0 s).2)) as [_ H].
  by apply H.
Qed.

Lemma usage_only_outbound_step arg :
  str_or_none (OutboundProxy arg) → usage_only (outbound_step arg).
Proof.
  unfold outbound_step. destruct (OutboundProxy arg) as [| | |s|]; try done;
    intros _; simpl truthy; cbv iota; try apply usage_only_ret.
  destruct (negb _); [|apply usage_only_ret].
  apply usage_only_bind; [by intros p|intros s'].
  cbv zeta. apply usage_only_bind.
  - destruct (last_split_is_Some "://" s') as [x Hx].
    destruct (Nat.eqb_spec (length (Py.split "://" s')) 2) as [Hlen|Hlen].
    + destruct (Py.split "://" s') as [|a [|b [|c l]]]; try discriminate Hlen.
      intros p. unfold mbind, M_bind, bind, lift, list_pop, list_index. simpl.
      by case_bool_decide.
    + intros p. unfold mbind, M_bind, bind, lift, list_pop. by rewrite Hx.
  - intros fields. apply usage_only_bind; [|intros _; apply usage_only_ret].
    apply usage_only_check_port. intros H. apply list_elem_of_In in H.
    simpl in H. lia.
Qed.

Lemma usage_only_inbound_step arg :
  str_or_none (InboundProxy arg) → usage_only (inbound_step arg).
Proof.
  unfold inbound_step. destruct (InboundProxy arg) as [| | |s|]; try done;
    intros _; simpl truthy; cbv iota; try apply usage_only_ret.
  destruct (negb _); [|apply usage_only_ret].
  apply usage_only_bind; [by intros p|intros s'].
  cbv zeta. apply usage_only_bind; [|intros _; apply usage_only_ret].
  apply usage_only_check_port. intros H. apply list_elem_of_In in H.
  simpl in H. lia.
Qed.

Lemma usage_only_except_plugins_any w arg :
  str_or_none (ExceptPlugins arg) → usage_only (except_plugins_step w arg).
Proof.
  destruct (ExceptPlugins arg) as [| | |s|] eqn:He; try done; intros _.
  - unfold except_plugins_step. rewrite He. apply usage_only_ret.
  - by eapply usage_only_except_plugins_step.
Qed.

Lemma scope_step_outcome w pg arg p :
  match (scope_step w pg arg p).2 with
  | Ret scope => "" ∈ scope → ∃ l, Targets arg = Some l ∧ "" ∈ l
  | Raise (UsageError _) => True
  | Raise (OtherError name) =>
      ∃ path, Targets arg = Some [path] ∧ fs_files w !! path = Some (ReadError name)
  | Raise _ => False
  end.
Proof.
  destruct (Targets arg) as [l|] eqn:HT.
  2:{ unfold scope_step. rewrite HT. cbn [length Nat.eqb].
      destruct (_ && _ && _); simpl; intros H; by apply elem_of_nil in H. }
  destruct (decide (length l = 1%nat)) as [Hlen|Hlen].
  - destruct l as [|t [|? ?]]; try discriminate Hlen.
    destruct (fs_files w !! t) as [[content|name]|] eqn:Hf.
    + rewrite (scope_step_file w pg arg t content p HT Hf). cbv zeta.
      destruct (scope_of_file content) as [|x xs] eqn:Hsc; [done|].
      simpl. intros Hin. exfalso.
      assert (Hall : Forall (λ t, t ≠ "") (scope_of_file content)).
      { unfold scope_of_file. apply Forall_forall. intros y Hy.
        by apply list_elem_of_filter in Hy as [? _]. }
      rewrite Hsc in Hall. eapply Forall_forall in Hall; [|exact Hin]. done.
    + rewrite (scope_step_unreadable w pg arg t name p HT Hf). simpl. eauto.
    + rewrite (scope_step_no_file w pg arg t p HT Hf). simpl. eauto.
  - unfold scope_step. rewrite HT.
    destruct l as [|t [|t' l]]; [|done|].
    + cbn [length Nat.eqb]. destruct (_ && _ && _); simpl; eauto.
    + cbn [length Nat.eqb]. rewrite andb_false_r. simpl. eauto.
Qed.

Lemma check_targets_outcome scope : ∀ p,
  match (check_targets scope p).2 with
  | Ret _ => True
  | Raise (UsageError _) => True
  | Raise IndexError => "" ∈ scope
  | Raise _ => False
  end.
Proof.
  induction scope as [|x scope IH]; intros p; [done|].
  rewrite check_targets_cons.
  destruct (check_target_cases x p)
    as [[_ Hr]|[[_ (e & Hr & -> & ->)]|[_ (t' & _ & Hr)]]]; rewrite Hr.
  - specialize (IH p). destruct (check_targets scope p).2 as [|[]]; try done.
    by constructor.
  - simpl. constructor.
  - done.
Qed.

Lemma tor_step_outcome arg p :
  str_or_none (TOR_mode arg) → str_or_none (OutboundProxy arg) →
  match (tor_step arg p).2 with
  | Ret arg' => str_or_none (OutboundProxy arg')
  | Raise (UsageError _) => True
  | Raise (SystemExit c) =>
      c = 0 ∧ ∃ s, TOR_mode arg = VStr s ∧ head (Py.split ":" s) = Some "help"
  | Raise _ => False
  end.
Proof.
  intros Ht Ho. destruct (TOR_mode arg) as [| | |s|] eqn:Htor; try done.
  { unfold tor_step. by rewrite Htor. }
  destruct (decide (s = "")) as [->|Hs].
  { unfold tor_step. by rewrite Htor. }
  destruct (decide (head (Py.split ":" s) = Some "help")) as [Hh|Hh].
  { rewrite (tor_step_help arg s p Htor Hh). simpl. eauto. }
  destruct (decide (length (Py.split ":" s) = 5%nat)) as [Hl|Hl].
  - by rewrite (tor_step_five_fields arg s p Htor Hl Hh).
  - by rewrite (tor_step_wrong_count arg s p Htor Hs Hh Hl).
Qed.

Lemma options_prelude_keeps w ua p p' arg pg profiles :
  options_prelude w ua p = (p', Ret (arg, pg, profiles)) →
  ∃ arg0,
    parse_options w ua (get_all_plugin_groups w)
      (get_all_plugin_types w ++ ["all"; "quiet"]) = Ret arg0
    ∧ keeps_flags arg0 arg ∧ keeps_proxies arg0 arg.
Proof.
  unfold options_prelude. intros H.
  apply bind_inv_Ret in H as (arg0 & p1 & Hparse & H).
  apply parse_step_Ret in Hparse.
  apply bind_inv_Ret in H as (prof & p2 & _ & H).
  apply bind_inv_Ret in H as (r & p3 & Ho & H).
  apply bind_inv_Ret in H as (arg2 & p4 & He & H).
  unfold mret, M_ret, ret in H. injection H as <- <- <- <-.
  exists arg0. split; [done|].
  apply except_plugins_step_inv in He as (_ & He).
  apply only_plugins_step_inv in Ho
    as [(_ & -> & _)|(s & g & _ & _ & _ & -> & _)];
    destruct He as [(_ & ->)|(s' & _ & _ & _ & ->)];
    unfold keeps_flags, keeps_proxies; by repeat split.
Qed.

Lemma options_prelude_outcome w ua arg0 p :
  parse_options w ua (get_all_plugin_groups w)
    (get_all_plugin_types w ++ ["all"; "quiet"]) = Ret arg0 →
  well_typed_options arg0 →
  match (options_prelude w ua p).2 with
  | Ret _ | Raise (UsageError _) => True
  | Raise _ => False
  end.
Proof.
  intros Hparse (Hc & Ho & He & _).
  assert (Hp : parse_step w ua p = (p, Ret arg0)).
  { unfold parse_step, try_except, lift. by rewrite Hparse. }
  unfold options_prelude. rewrite (bind_Ret _ _ _ _ _ Hp).
  pose proof (usage_only_profiles_step w arg0 Hc p) as Hpr.
  destruct (profiles_step w arg0 p) as [p3 [profiles|e]] eqn:Hprofiles;
    simpl in Hpr.
  2:{ by rewrite (bind_Raise _ _ _ _ _ Hprofiles). }
  rewrite (bind_Ret _ _ _ _ _ Hprofiles).
  pose proof (usage_only_only_plugins_step w arg0 (PluginGroup arg0) Ho p3) as Hon.
  destruct (only_plugins_step w arg0 (PluginGroup arg0) p3) as [p4 [r|e]] eqn:Hor;
    simpl in Hon.
  2:{ by rewrite (bind_Raise _ _ _ _ _ Hor). }
  rewrite (bind_Ret _ _ _ _ _ Hor).
  assert (str_or_none (ExceptPlugins r.1)) as Her.
  { by rewrite (only_plugins_step_except _ _ _ _ _ _ Hor). }
  pose proof (usage_only_except_plugins_any w r.1 Her p4) as Hex.
  destruct (except_plugins_step w r.1 p4) as [p5 [a|e]] eqn:Hexr; simpl in Hex.
  - by rewrite (bind_Ret _ _ _ _ _ Hexr).
  - by rewrite (bind_Raise _ _ _ _ _ Hexr).
Qed.

Lemma options_resolve_outcome w arg pg profiles p :
  str_or_none (TOR_mode arg) → str_or_none (OutboundProxy arg) →
  str_or_none (InboundProxy arg) →
  match (options_resolve w (arg, pg, profiles) p).2 with
  | Ret _ => True
  | Raise (UsageError _) => True
  | Raise (SystemExit c) =>
      c = 0 ∧ ∃ s, TOR_mode arg = VStr s ∧ head (Py.split ":" s) = Some "help"
  | Raise IndexError => ∃ l, Targets arg = Some l ∧ "" ∈ l
  | Raise (OtherError name) =>
      ∃ path, Targets arg = Some [path] ∧ fs_files w !! path = Some (ReadError name)
  | Raise _ => False
  end.
Proof.
  intros Ht Ho Hi. unfold options_resolve. cbn [fst snd].
  pose proof (tor_step_outcome arg p Ht Ho) as H1.
  destruct (tor_step arg p) as [p1 [a1|e]] eqn:E1; simpl in H1.
  2:{ rewrite (bind_Raise _ _ _ _ _ E1). simpl. by destruct e. }
  rewrite (bind_Ret _ _ _ _ _ E1).
  apply tor_step_keeps in E1 as (F1 & _ & _ & I1).
  pose proof (usage_only_outbound_step a1 H1 p1) as H2.
  destruct (outbound_step a1 p1) as [p2 [a2|e]] eqn:E2; simpl in H2.
  2:{ rewrite (bind_Raise _ _ _ _ _ E2). simpl. by destruct e. }
  rewrite (bind_Ret _ _ _ _ _ E2).
  apply outbound_step_keeps in E2 as (F2 & _ & _ & I2 & _).
  assert (str_or_none (InboundProxy a2)) as Hi2 by (by rewrite I2, I1).
  pose proof (usage_only_inbound_step a2 Hi2 p2) as H3.
  destruct (inbound_step a2 p2) as [p3 [a3|e]] eqn:E3; simpl in H3.
  2:{ rewrite (bind_Raise _ _ _ _ _ E3). simpl. by destruct e. }
  rewrite (bind_Ret _ _ _ _ _ E3).
  apply inbound_step_keeps in E3 as (F3 & _).
  destruct (plugin_type_step_keeps w pg a3) as (F4 & _).
  assert (Targets (plugin_type_step w pg a3) = Targets arg) as HT.
  { pose proof (keeps_flags_trans _ _ _ F1
                  (keeps_flags_trans _ _ _ F2 (keeps_flags_trans _ _ _ F3 F4))) as K.
    unfold keeps_flags in K. by destruct_and!. }
  pose proof (scope_step_outcome w pg (plugin_type_step w pg a3) p3) as H4.
  destruct (scope_step w pg (plugin_type_step w pg a3) p3) as [p4 [scope|e]] eqn:E4;
    simpl in H4.
  2:{ rewrite (bind_Raise _ _ _ _ _ E4). simpl. rewrite <- HT.
      by destruct e. }
  rewrite (bind_Ret _ _ _ _ _ E4).
  pose proof (check_targets_outcome scope p4) as H5.
  destruct (check_targets scope p4) as [p5 [[]|e]] eqn:E5; simpl in H5.
  - by rewrite (bind_Ret _ _ _ _ _ E5).
  - rewrite (bind_Raise _ _ _ _ _ E5). simpl.
    destruct e; try done. rewrite <- HT. by apply H4.
Qed.

(** X27.  For a namespace whose six split options are [None] or strings,
    resolution can end in five ways only: it returns a configuration; it
    ends in a usage error; it exits with status 0, and then the TOR option
    starts with the field [help]; it fails with an indexing error, and
    then one of the positional arguments is the empty string; or it fails
    with the exception raised by reading the scope file, and then the
    single positional argument names a regular file whose reading raises
    that exception. *)
Theorem resolution_ends_in_five_ways w user_args arg0 p :
  parse_options w user_args (get_all_plugin_groups w)
    (get_all_plugin_types w ++ ["all"; "quiet"]) = Ret arg0 →
  well_typed_options arg0 →
  match (process_options w user_args p).2 with
  | Ret _ => True
  | Raise (UsageError _) => True
  | Raise (SystemExit c) =>
      c = 0 ∧ ∃ s, TOR_mode arg0 = VStr s ∧ head (Py.split ":" s) = Some "help"
  | Raise IndexError => ∃ l, Targets arg0 = Some l ∧ "" ∈ l
  | Raise (OtherError name) =>
      ∃ path, Targets arg0 = Some [path]
              ∧ fs_files w !! path = Some (ReadError name)
  | Raise _ => False
  end.
Proof.
  intros Hparse Hwt.
  pose proof (options_prelude_outcome w user_args arg0 p Hparse Hwt) as Hpre.
  unfold process_options.
  destruct (options_prelude w user_args p) as [p1 [[[arg pg] profiles]|e]] eqn:E;
    simpl in Hpre.
  2:{ rewrite (bind_Raise _ _ _ _ _ E). simpl. by destruct e. }
  rewrite (bind_Ret _ _ _ _ _ E).
  apply options_prelude_keeps in E as (arg0' & Hparse' & F & (KT & KO & KI)).
  rewrite Hparse in Hparse'. injection Hparse' as <-.
  destruct Hwt as (_ & _ & _ & Ht & Ho & Hi).
  pose proof (options_resolve_outcome w arg pg profiles p1) as H.
  rewrite KT, KO, KI in H. specialize (H Ht Ho Hi).
  unfold keeps_flags in F. destruct_and!.
  destruct (options_resolve w (arg, pg, profiles) p1).2 as [|[]]; try done.
  - destruct H as (l & Hl & Hin). exists l. split; [congruence|done].
  - destruct H as (path & Hl & Hin). exists path. split; [congruence|done].
Qed.

Lemma resolution_ends_in_five_ways_witness :
  ((process_options (sample_world (set_Targets ["a.com"; ""] ns0)) [] proc0).2
   = Raise IndexError
   ∧ ∃ l, Targets (set_Targets ["a.com"; ""] ns0) = Some l ∧ "" ∈ l)
  ∧ ((process_options (sample_world (set_Targets ["locked.txt"] ns0)) [] proc0).2
     = Raise (OtherError "PermissionError")
     ∧ ∃ path, Targets (set_Targets ["locked.txt"] ns0) = Some [path]
               ∧ fs_files (sample_world (set_Targets ["locked.txt"] ns0)) !! path
                 = Some (ReadError "PermissionError")).
Proof.
  split.
  - pose proof (resolution_ends_in_five_ways
                  (sample_world (set_Targets ["a.com"; ""] ns0)) []
                  (set_Targets ["a.com"; ""] ns0) proc0 eq_refl
                  ltac:(repeat split)) as H.
    destruct (process_options (sample_world (set_Targets ["a.com"; ""] ns0)) [] proc0)
      as [p' r] eqn:Hrun.
    vm_compute in Hrun. injection Hrun as _ <-. split; [reflexivity|exact H].
  - pose proof (resolution_ends_in_five_ways
                  (sample_world (set_Targets ["locked.txt"] ns0)) []
                  (set_Targets ["locked.txt"] ns0) proc0 eq_refl
                  ltac:(repeat split)) as H.
    destruct (process_options (sample_world (set_Targets ["locked.txt"] ns0)) [] proc0)
      as [p' r] eqn:Hrun.
    vm_compute in Hrun. injection Hrun as _ <-. split; [reflexivity|exact H].
Defined.
